(** * Digital Logistics System: the vehicle allocator [select_vehicle]

    A shallow embedding of [LogisticsSystem.select_vehicle] (src/main.py)
    together with the store operations it calls ([MyCSV.update_data] of
    src/my_csv.py and [Vehicle.update_vehicle] of src/vehicle.py), and the
    properties of the allocation that the specification states.

    Modelling conventions.
    - A CSV row is a record whose fields are the columns of the file, already
      converted by the [int(...)] and [float(...)] calls of the source.
    - Python [int] is [Z].  Python [float] is an IEEE 754 binary64 number:
      [spec_float] of the Standard Library with [prec = 53] and
      [emax = 1024], whose operations round to nearest, ties to even, and have
      signed zeros, infinities and NaN.
    - [x / y] on floats raises [ZeroDivisionError] when [y] is a zero;
      [int(x)] truncates toward zero and raises [OverflowError] on an
      infinity and [ValueError] on NaN; [n * x] for an int [n] converts [n]
      to a float first, which raises [OverflowError] when [n] is too large.
    - The vehicle store (the CSV file), the text printed and the request
      lines (dictionaries mutated in place) are threaded explicitly; a raised
      exception carries the state reached when it was raised, because the
      writes to the store made before it persist. *)

From Stdlib Require Import ZArith List String Bool.
From Stdlib Require Import Lia Permutation Sorted.
From Stdlib Require Import SpecFloat.
Import ListNotations.

Local Open Scope string_scope.
Local Open Scope list_scope.
Local Open Scope Z_scope.

(** ** Python primitives *)

Module Py.

Inductive exn : Type :=
| ZeroDivisionError
| OverflowError
| ValueError_NaN
| ValueError (vehicle_id : string).

(** Outcome of an expression: a value, or an exception. *)
Inductive value (A : Type) : Type :=
| Val (a : A)
| Exc (e : exn).

Arguments Val {A} a.
Arguments Exc {A} e.

Definition bind {A B : Type} (x : value A) (k : A -> value B) : value B :=
  match x with
  | Val a => k a
  | Exc e => Exc e
  end.

(** Outcome of a block of statements over a state [S]: it runs to its end,
    or an exception escapes it; either way the state reached is kept. *)
Inductive result (S : Type) : Type :=
| Ok (s : S)
| Raise (e : exn) (s : S).

Arguments Ok {S} s.
Arguments Raise {S} e s.

Definition state {S} (r : result S) : S :=
  match r with Ok s => s | Raise _ s => s end.

Definition raised {S} (r : result S) : option exn :=
  match r with Ok _ => None | Raise e _ => Some e end.

(** Python [float]. *)
Definition float : Type := spec_float.

Definition prec : Z := 53.
Definition emax : Z := 1024.

(** [0.0] *)
Definition zero : float := S754_zero false.

(** The float nearest to the integer [n] (an infinity when [n] is out of
    range). *)
Definition of_Z (n : Z) : float := binary_normalize prec emax n 0 false.

(** [float(n)] for an int [n], as the arithmetic operators convert it. *)
Definition float_of_int (n : Z) : value float :=
  match of_Z n with
  | S754_infinity _ => Exc OverflowError
  | x => Val x
  end.

Definition add (x y : float) : float := SFadd prec emax x y.
Definition sub (x y : float) : float := SFsub prec emax x y.
Definition mul (x y : float) : float := SFmul prec emax x y.

(** [x / y] *)
Definition div (x y : float) : value float :=
  match y with
  | S754_zero _ => Exc ZeroDivisionError
  | _ => Val (SFdiv prec emax x y)
  end.

(** [n * x] for an int [n] and a float [x]. *)
Definition int_mul (n : Z) (x : float) : value float :=
  bind (float_of_int n) (fun n' => Val (mul n' x)).

(** [x < y] and [x <= y]; an int operand is compared by its exact value,
    which for [0] is the comparison with [0.0]. *)
Definition ltb (x y : float) : bool := SFltb x y.
Definition leb (x y : float) : bool := SFleb x y.

(** [min(a, b)]: the first argument unless the second is smaller. *)
Definition min (a b : float) : float := if ltb b a then b else a.

Definition is_nan (x : float) : bool :=
  match x with S754_nan => true | _ => false end.

Definition is_zero (x : float) : bool :=
  match x with S754_zero _ => true | _ => false end.

(** [int(x)]: truncation toward zero. *)
Definition int (x : float) : value Z :=
  match x with
  | S754_nan => Exc ValueError_NaN
  | S754_infinity _ => Exc OverflowError
  | S754_zero _ => Val 0
  | S754_finite s m e => Val (cond_Zopp s (Z.shiftl (Zpos m) e))
  end.


(** The float written [n]e-[k] in decimal, for [|n| < 2^53] and
    [0 <= k <= 22]: both operands of the division are then exact, and the
    quotient is rounded once. *)
Definition decimal (n : Z) (k : Z) : float :=
  SFdiv prec emax (of_Z n) (of_Z (10 ^ k)).

End Py.
Import Py.

(** ** Data model *)

(** A row of the vehicle database ([Vehicle.DEFAULT_FIELDNAMES]). *)
Record Vehicle : Type := mkVehicle {
  Vehicle_ID : string;
  Vehicle_Type : string;
  Max_Capacity_Weight : Py.float;
  Max_Capacity_Item_Count : Z;
  Remaining_Capacity_Weight : Py.float;
  Remaining_Capacity_Item_Count : Z;
  Current_Position : string;
  Status : string
}.

(** A row of the item database ([Item.DEFAULT_FIELDNAMES]). *)
Record Item : Type := mkItem {
  ID : string;
  Price_per_kg : Py.float;
  Weight : Py.float;
  Item_Type : string
}.

(** An element of [items_ids_and_quantities]. *)
Record Line : Type := mkLine {
  Item_ID : string;
  Quantity : Z
}.

(** The dictionary [update_data] built by [select_vehicle]. *)
Record Update : Type := mkUpdate {
  upd_Vehicle_ID : string;
  upd_Type : string;
  upd_Status : string;
  upd_Remaining_Capacity_Weight : Py.float;
  upd_Remaining_Capacity_Item_Count : Z
}.

(** What [select_vehicle] prints. *)
Inductive Msg : Type :=
| Loaded (vehicle_id vehicle_type : string) (loadable_items : Z)
         (item_id : string) (loadable_weight : Py.float)
| NotEnoughCapacity.

(** ** The vehicle store *)

(** [row.update(update_data)] on a vehicle row. *)
Definition row_update (u : Update) (row : Vehicle) : Vehicle :=
  {| Vehicle_ID := upd_Vehicle_ID u;
     Vehicle_Type := upd_Type u;
     Max_Capacity_Weight := Max_Capacity_Weight row;
     Max_Capacity_Item_Count := Max_Capacity_Item_Count row;
     Remaining_Capacity_Weight := upd_Remaining_Capacity_Weight u;
     Remaining_Capacity_Item_Count := upd_Remaining_Capacity_Item_Count u;
     Current_Position := Current_Position row;
     Status := upd_Status u |}.

(** [MyCSV.update_data('Vehicle ID', search_value, update_data)]: every row
    whose id matches is updated; the flag tells whether one was. *)
Fixpoint update_data (rows : list Vehicle) (search_value : string) (u : Update)
  : list Vehicle * bool :=
  match rows with
  | [] => ([], false)
  | row :: rest =>
      let (rest', updated) := update_data rest search_value u in
      if String.eqb (Vehicle_ID row) search_value
      then (row_update u row :: rest', true)
      else (row :: rest', updated)
  end.

(** [Vehicle.update_vehicle]: [None] stands for the [ValueError] raised when
    no row has the id. *)
Definition update_vehicle (rows : list Vehicle) (vehicle_id : string) (u : Update)
  : option (list Vehicle) :=
  let (rows', updated) := update_data rows vehicle_id u in
  if updated then Some rows' else None.

(** ** Sorting: [vehicles.sort(key=lambda v: (int(max items), float(max weight)))] *)

(** [key(a) < key(b)] on the tuples, lexicographically. *)
Definition key_lt (a b : Vehicle) : bool :=
  (Max_Capacity_Item_Count a <? Max_Capacity_Item_Count b)
  || ((Max_Capacity_Item_Count a =? Max_Capacity_Item_Count b)
      && Py.ltb (Max_Capacity_Weight a) (Max_Capacity_Weight b)).

(** [list.sort] is stable; on keys that are totally ordered -- no maximum
    weight is NaN -- a stable insertion sort yields the same list. *)
Fixpoint insert (x : Vehicle) (l : list Vehicle) : list Vehicle :=
  match l with
  | [] => [x]
  | y :: l' => if key_lt y x then y :: insert x l' else x :: y :: l'
  end.

Definition sort_vehicles (l : list Vehicle) : list Vehicle :=
  fold_right insert [] l.

(** ** The allocator *)

(** The local variables of [select_vehicle] that change while it runs, with
    the two external effects (store and output).  The two per-vehicle
    capacities are unbound before the first vehicle; they are assigned before
    they are read. *)
Record Frame : Type := mkFrame {
  remaining_weight : Py.float;
  remaining_items : Z;
  updates : list Update;
  remaining_weight_capacity : Py.float;
  remaining_item_capacity : Z;
  vehicle_db : list Vehicle;
  stdout : list Msg
}.

(** [next((i for i in items if i['ID'] == item_id), None)] *)
Definition find_item (items : list Item) (item_id : string) : option Item :=
  find (fun i => String.eqb (ID i) item_id) items.

(** [vehicle_type == 'Bike' and item_type == 'fragile'] *)
Definition excluded (vehicle_type item_type : string) : bool :=
  String.eqb vehicle_type "Bike" && String.eqb item_type "fragile".

(** [min(quantity, max_items_by_capacity, int(max_weight_by_capacity / item_weight))];
    the division and [int] are evaluated, and may raise, before [min] is
    called. *)
Definition loadable (fr : Frame) (quantity : Z) (item_weight : Py.float)
  : value Z :=
  let max_items_by_capacity :=
    Z.min (remaining_items fr) (remaining_item_capacity fr) in
  let max_weight_by_capacity :=
    Py.min (remaining_weight fr) (remaining_weight_capacity fr) in
  Py.bind (Py.div max_weight_by_capacity item_weight) (fun quotient =>
  Py.bind (Py.int quotient) (fun by_weight =>
  Val (Z.min (Z.min quantity max_items_by_capacity) by_weight))).

(** Body of the inner loop: one request line against one vehicle. *)
Definition load_item (items : list Item) (vehicle_data : Vehicle)
    (fr : Frame) (item_data : Line) : result (Frame * Line) :=
  let item_id := Item_ID item_data in
  let quantity := Quantity item_data in
  match find_item items item_id with
  | None => Ok (fr, item_data)
  | Some item =>
      let item_weight := Weight item in
      if excluded (Vehicle_Type vehicle_data) (Item_Type item)
      then Ok (fr, item_data)
      else
        match loadable fr quantity item_weight with
        | Exc e => Raise e (fr, item_data)
        | Val loadable_items =>
            if 0 <? loadable_items then
              match Py.int_mul loadable_items item_weight with
              | Exc e => Raise e (fr, item_data)
              | Val loadable_weight =>
                  let remaining_weight_capacity' :=
                    Py.sub (remaining_weight_capacity fr) loadable_weight in
                  let remaining_item_capacity' :=
                    remaining_item_capacity fr - loadable_items in
                  let update :=
                    {| upd_Vehicle_ID := Vehicle_ID vehicle_data;
                       upd_Type := Vehicle_Type vehicle_data;
                       upd_Status := "in_use";
                       upd_Remaining_Capacity_Weight := remaining_weight_capacity';
                       upd_Remaining_Capacity_Item_Count :=
                         remaining_item_capacity' |} in
                  let item_data' :=
                    {| Item_ID := item_id;
                       Quantity := quantity - loadable_items |} in
                  let fr' :=
                    {| remaining_weight :=
                         Py.sub (remaining_weight fr) loadable_weight;
                       remaining_items := remaining_items fr - loadable_items;
                       updates := updates fr;
                       remaining_weight_capacity := remaining_weight_capacity';
                       remaining_item_capacity := remaining_item_capacity';
                       vehicle_db := vehicle_db fr;
                       stdout := stdout fr |} in
                  match update_vehicle (vehicle_db fr) (Vehicle_ID vehicle_data)
                                       update with
                  | None =>
                      Raise (ValueError (Vehicle_ID vehicle_data)) (fr', item_data')
                  | Some rows' =>
                      Ok ({| remaining_weight := remaining_weight fr';
                             remaining_items := remaining_items fr';
                             updates := updates fr ++ [update];
                             remaining_weight_capacity := remaining_weight_capacity';
                             remaining_item_capacity := remaining_item_capacity';
                             vehicle_db := rows';
                             stdout := stdout fr ++
                               [Loaded (Vehicle_ID vehicle_data)
                                       (Vehicle_Type vehicle_data)
                                       loadable_items item_id loadable_weight] |},
                          item_data')
                  end
              end
            else Ok (fr, item_data)
        end
  end.

(** [for item_data in items_ids_and_quantities: ...] *)
Fixpoint lines_loop (items : list Item) (vehicle_data : Vehicle)
    (fr : Frame) (lines : list Line) : result (Frame * list Line) :=
  match lines with
  | [] => Ok (fr, [])
  | item_data :: rest =>
      match load_item items vehicle_data fr item_data with
      | Ok (fr', item_data') =>
          match lines_loop items vehicle_data fr' rest with
          | Ok (fr'', rest') => Ok (fr'', item_data' :: rest')
          | Raise e (fr'', rest') => Raise e (fr'', item_data' :: rest')
          end
      | Raise e (fr', item_data') => Raise e (fr', item_data' :: rest)
      end
  end.

(** [rwc <= 0 or ric <= 0 or vehicle_data['Status'] == 'in_use'] *)
Definition skipped (vehicle_data : Vehicle) : bool :=
  Py.leb (Remaining_Capacity_Weight vehicle_data) Py.zero
  || (Remaining_Capacity_Item_Count vehicle_data <=? 0)
  || String.eqb (Status vehicle_data) "in_use".

(** [remaining_weight <= 0 and remaining_items <= 0] *)
Definition exhausted (fr : Frame) : bool :=
  Py.leb (remaining_weight fr) Py.zero && (remaining_items fr <=? 0).

(** Reading the vehicle's remaining capacities into the locals. *)
Definition enter_vehicle (vehicle_data : Vehicle) (fr : Frame) : Frame :=
  {| remaining_weight := remaining_weight fr;
     remaining_items := remaining_items fr;
     updates := updates fr;
     remaining_weight_capacity := Remaining_Capacity_Weight vehicle_data;
     remaining_item_capacity := Remaining_Capacity_Item_Count vehicle_data;
     vehicle_db := vehicle_db fr;
     stdout := stdout fr |}.

(** [for vehicle_data in vehicles: ...] *)
Fixpoint vehicles_loop (items : list Item) (vehicles : list Vehicle)
    (fr : Frame) (lines : list Line) : result (Frame * list Line) :=
  match vehicles with
  | [] => Ok (fr, lines)
  | vehicle_data :: rest =>
      if exhausted fr then Ok (fr, lines)
      else
        let fr1 := enter_vehicle vehicle_data fr in
        if skipped vehicle_data then vehicles_loop items rest fr1 lines
        else
          match lines_loop items vehicle_data fr1 lines with
          | Ok (fr2, lines2) => vehicles_loop items rest fr2 lines2
          | Raise e s => Raise e s
          end
  end.

(** The final test on [remaining_items]. *)
Definition report (fr : Frame) : Frame :=
  if 0 <? remaining_items fr then
    {| remaining_weight := remaining_weight fr;
       remaining_items := remaining_items fr;
       updates := updates fr;
       remaining_weight_capacity := remaining_weight_capacity fr;
       remaining_item_capacity := remaining_item_capacity fr;
       vehicle_db := vehicle_db fr;
       stdout := stdout fr ++ [NotEnoughCapacity] |}
  else fr.

Definition initial_frame (rows : list Vehicle) (total_weight : Py.float)
    (item_count : Z) : Frame :=
  {| remaining_weight := total_weight;
     remaining_items := item_count;
     updates := [];
     remaining_weight_capacity := Py.zero;
     remaining_item_capacity := 0;
     vehicle_db := rows;
     stdout := [] |}.

(** [select_vehicle]: [rows] and [items] are the contents of the two stores
    when it is called.  The outcome holds the final frame (whose [updates] is
    the value returned, whose [vehicle_db] and [stdout] are the effects) and
    the request lines as mutated. *)
Definition select_vehicle (rows : list Vehicle) (items : list Item)
    (total_weight : Py.float) (item_count : Z)
    (items_ids_and_quantities : list Line)
  : result (Frame * list Line) :=
  let vehicles := sort_vehicles rows in
  match vehicles_loop items vehicles (initial_frame rows total_weight item_count)
                      items_ids_and_quantities with
  | Ok (fr, lines) => Ok (report fr, lines)
  | Raise e s => Raise e s
  end.

(** The value returned by a call that ends normally. *)
Definition returned (r : result (Frame * list Line)) : option (list Update) :=
  match r with
  | Ok (fr, _) => Some (updates fr)
  | Raise _ _ => None
  end.

(** ** The scenarios of the specification *)

(** A whole number of kilograms. *)
Definition kg (n : Z) : Py.float := Py.of_Z n.

Module Scenario.

Definition bike : Vehicle :=
  mkVehicle "B1" "Bike" (kg 10) 2 (kg 10) 2 "Oslo, Norway" "free".
Definition ship : Vehicle :=
  mkVehicle "S1" "Ship" (kg 100000) 10000 (kg 100000) 10000 "Oslo, Norway" "free".
Definition truck : Vehicle :=
  mkVehicle "T1" "Truck" (kg 3000) 100 (kg 3000) 100 "Oslo, Norway" "free".
Definition solid2 : Item := mkItem "I1" (kg 5) (kg 2) "solid".
Definition fragile1 : Item := mkItem "I2" (kg 5) (kg 1) "fragile".
Definition weightless : Item := mkItem "I3" (kg 5) (kg 0) "solid".


(** A unit weight of 5e-324 kg, the smallest positive float. *)
Definition speck : Item :=
  mkItem "I5" (kg 5) (S754_finite false 1 (-1074)) "solid".

(** A unit weight of 0.1 kg. *)
Definition letter : Item := mkItem "I6" (kg 5) (Py.decimal 1 1) "solid".

Definition fleet := [ship; bike].
Definition catalog := [solid2; fragile1].

(** A bike and a truck whose rows bear the same id. *)
Definition twins : list Vehicle :=
  [mkVehicle "V1" "Bike" (kg 10) 2 (kg 10) 2 "Oslo, Norway" "free";
   mkVehicle "V1" "Truck" (kg 3000) 100 (kg 3000) 100 "Oslo, Norway" "free"].

End Scenario.

(** Scenario A: the bike takes 2 units (its item-count cap), the ship 1. *)
Example scenario_A :
  let r := select_vehicle Scenario.fleet Scenario.catalog (kg 6) 3
             [mkLine "I1" 3] in
  returned r = Some [mkUpdate "B1" "Bike" "in_use" (kg 6) 0;
                     mkUpdate "S1" "Ship" "in_use" (kg 99998) 9999]
  /\ remaining_items (fst (state r)) = 0
  /\ stdout (fst (state r))
     = [Loaded "B1" "Bike" 2 "I1" (kg 4); Loaded "S1" "Ship" 1 "I1" (kg 2)].
Proof. vm_compute. repeat split. Qed.

(** Scenario B: fragile items skip the bike; the ship takes all 3. *)
Example scenario_B :
  let r := select_vehicle Scenario.fleet Scenario.catalog (kg 3) 3
             [mkLine "I2" 3] in
  returned r = Some [mkUpdate "S1" "Ship" "in_use" (kg 99997) 9997]
  /\ remaining_items (fst (state r)) = 0.
Proof. vm_compute. repeat split. Qed.

(** Scenario C: a single bike already in use; nothing is allocated. *)
Example scenario_C :
  let r := select_vehicle
             [mkVehicle "B1" "Bike" (kg 10) 2 (kg 10) 2 "Oslo, Norway" "in_use"]
             Scenario.catalog (kg 2) 1 [mkLine "I1" 1] in
  returned r = Some [] /\ remaining_items (fst (state r)) = 1
  /\ stdout (fst (state r)) = [NotEnoughCapacity].
Proof. vm_compute. repeat split. Qed.

(** The arithmetic is that of the machine: 0.29 / 0.01 is just below 29 and
    truncates to 28, 0.03 / 0.01 is exactly 3, and (3 * 0.7) / 0.7 is just
    below 3. *)
Example float_quotients :
  Py.bind (Py.div (Py.decimal 29 2) (Py.decimal 1 2)) Py.int = Val 28
  /\ Py.bind (Py.div (Py.decimal 3 2) (Py.decimal 1 2)) Py.int = Val 3
  /\ Py.bind (Py.bind (Py.int_mul 3 (Py.decimal 7 1))
                      (fun w => Py.div w (Py.decimal 7 1))) Py.int = Val 2.
Proof. vm_compute. repeat split. Qed.

(** ** The order on floats *)

(** Floats other than NaN are totally ordered: they are ranked by sign class,
    then exponent, then mantissa. *)
Definition rank (x : Py.float) : Z * Z * Z :=
  match x with
  | S754_infinity true => (-2, 0, 0)
  | S754_finite true m e => (-1, - e, - Zpos m)
  | S754_zero _ => (0, 0, 0)
  | S754_finite false m e => (1, e, Zpos m)
  | S754_infinity false => (2, 0, 0)
  | S754_nan => (3, 0, 0)
  end.

Definition lex_lt (a b : Z * Z * Z) : Prop :=
  let '(a1, a2, a3) := a in
  let '(b1, b2, b3) := b in
  a1 < b1 \/ (a1 = b1 /\ (a2 < b2 \/ (a2 = b2 /\ a3 < b3))).

Definition lex_le (a b : Z * Z * Z) : Prop :=
  let '(a1, a2, a3) := a in
  let '(b1, b2, b3) := b in
  a1 < b1 \/ (a1 = b1 /\ (a2 < b2 \/ (a2 = b2 /\ a3 <= b3))).

Lemma compare_rank (x y : Py.float) :
  Py.is_nan x = false -> Py.is_nan y = false ->
  match SFcompare x y with
  | Some Lt => lex_lt (rank x) (rank y)
  | Some Eq => rank x = rank y
  | Some Gt => lex_lt (rank y) (rank x)
  | None => False
  end.
Proof.
  destruct x as [sx | sx | | sx mx ex], y as [sy | sy | | sy my ey];
    try destruct sx; try destruct sy; simpl; intros Hx Hy;
    try discriminate; try reflexivity; try lia.
  all: change (Pos.compare_cont Eq mx my) with (Pos.compare mx my).
  all: destruct (Z.compare_spec ex ey); destruct (Pos.compare_spec mx my);
       simpl; try (subst; reflexivity); try lia.
Qed.

Lemma ltb_rank (x y : Py.float) :
  Py.is_nan x = false -> Py.is_nan y = false ->
  (Py.ltb x y = true <-> lex_lt (rank x) (rank y)).
Proof.
  intros Hx Hy. pose proof (compare_rank x y Hx Hy) as H.
  unfold Py.ltb, SFltb.
  destruct (SFcompare x y) as [[ | | ] | ]; try contradiction;
    destruct (rank x) as [[a1 a2] a3], (rank y) as [[b1 b2] b3]; simpl in *;
    split; intros H'; try discriminate; try reflexivity; try lia.
  injection H as -> -> ->. lia.
Qed.

Lemma leb_rank (x y : Py.float) :
  Py.is_nan x = false -> Py.is_nan y = false ->
  (Py.leb x y = true <-> lex_le (rank x) (rank y)).
Proof.
  intros Hx Hy. pose proof (compare_rank x y Hx Hy) as H.
  unfold Py.leb, SFleb.
  destruct (SFcompare x y) as [[ | | ] | ]; try contradiction;
    destruct (rank x) as [[a1 a2] a3], (rank y) as [[b1 b2] b3]; simpl in *;
    split; intros H'; try discriminate; try reflexivity; try lia.
  injection H as -> -> ->. lia.
Qed.

Lemma ltb_not_nan (x y : Py.float) :
  Py.ltb x y = true -> Py.is_nan x = false /\ Py.is_nan y = false.
Proof.
  unfold Py.ltb, SFltb. destruct x, y; simpl; intros H; try discriminate; auto.
Qed.

Lemma leb_not_nan (x y : Py.float) :
  Py.leb x y = true -> Py.is_nan x = false /\ Py.is_nan y = false.
Proof.
  unfold Py.leb, SFleb. destruct x, y; simpl; intros H; try discriminate; auto.
Qed.

Lemma leb_trans (x y z : Py.float) :
  Py.leb x y = true -> Py.leb y z = true -> Py.leb x z = true.
Proof.
  intros H1 H2.
  destruct (leb_not_nan _ _ H1) as [Hx Hy], (leb_not_nan _ _ H2) as [_ Hz].
  rewrite leb_rank in * by assumption.
  destruct (rank x) as [[a1 a2] a3], (rank y) as [[b1 b2] b3],
           (rank z) as [[c1 c2] c3]; simpl in *; lia.
Qed.

Lemma leb_refl (x : Py.float) : Py.is_nan x = false -> Py.leb x x = true.
Proof.
  intros H. apply leb_rank; try assumption.
  destruct (rank x) as [[a1 a2] a3]; simpl; lia.
Qed.

Lemma not_ltb_leb (x y : Py.float) :
  Py.is_nan x = false -> Py.is_nan y = false ->
  (Py.ltb y x = false <-> Py.leb x y = true).
Proof.
  intros Hx Hy. rewrite <- not_true_iff_false, ltb_rank, leb_rank by assumption.
  destruct (rank x) as [[a1 a2] a3], (rank y) as [[b1 b2] b3]; simpl; lia.
Qed.

Lemma ltb_asym (x y : Py.float) : Py.ltb x y = true -> Py.ltb y x = false.
Proof.
  intros H. destruct (ltb_not_nan _ _ H) as [Hx Hy].
  apply not_true_iff_false. rewrite ltb_rank in * by assumption.
  destruct (rank x) as [[a1 a2] a3], (rank y) as [[b1 b2] b3]; simpl in *; lia.
Qed.

(** A float that is positive is not a zero. *)
Lemma positive_not_zero (x : Py.float) :
  Py.ltb Py.zero x = true -> Py.is_zero x = false.
Proof. destruct x; simpl; intros H; try reflexivity. discriminate. Qed.


(** ** The store operations, as maps over the rows *)

Definition write_row (vehicle_id : string) (u : Update) (row : Vehicle) : Vehicle :=
  if String.eqb (Vehicle_ID row) vehicle_id then row_update u row else row.

Lemma update_data_fst (rows : list Vehicle) (vid : string) (u : Update) :
  fst (update_data rows vid u) = map (write_row vid u) rows.
Proof.
  induction rows as [ | row rest IH ]; simpl; [ reflexivity | ].
  destruct (update_data rest vid u) as [rest' b]; simpl in IH; subst rest'.
  unfold write_row.
  destruct (String.eqb (Vehicle_ID row) vid); simpl; reflexivity.
Qed.

Lemma update_data_snd (rows : list Vehicle) (vid : string) (u : Update) :
  snd (update_data rows vid u)
  = existsb (fun row => String.eqb (Vehicle_ID row) vid) rows.
Proof.
  induction rows as [ | row rest IH ]; simpl; [ reflexivity | ].
  destruct (update_data rest vid u) as [rest' b]; simpl in IH; subst b.
  destruct (String.eqb (Vehicle_ID row) vid); reflexivity.
Qed.

Lemma update_vehicle_found (rows : list Vehicle) (vid : string) (u : Update) :
  In vid (map Vehicle_ID rows) ->
  update_vehicle rows vid u = Some (map (write_row vid u) rows).
Proof.
  intros Hin. unfold update_vehicle.
  pose proof (update_data_fst rows vid u) as Hf.
  pose proof (update_data_snd rows vid u) as Hs.
  destruct (update_data rows vid u) as [r b]; simpl in Hf, Hs. subst r.
  assert (Hb : b = true).
  { rewrite Hs. apply existsb_exists. apply in_map_iff in Hin.
    destruct Hin as [row [E Hrow]]. exists row. split; [ exact Hrow | ].
    apply String.eqb_eq. exact E. }
  rewrite Hb. reflexivity.
Qed.

Lemma write_row_id (vid : string) (u : Update) (row : Vehicle) :
  upd_Vehicle_ID u = vid -> Vehicle_ID (write_row vid u row) = Vehicle_ID row.
Proof.
  intros E. unfold write_row.
  destruct (String.eqb (Vehicle_ID row) vid) eqn:Heq; [ | reflexivity ].
  apply String.eqb_eq in Heq. simpl. congruence.
Qed.

Lemma write_rows_ids (vid : string) (u : Update) (rows : list Vehicle) :
  upd_Vehicle_ID u = vid ->
  map Vehicle_ID (map (write_row vid u) rows) = map Vehicle_ID rows.
Proof.
  intros E. rewrite map_map. apply map_ext. intros row.
  apply write_row_id. exact E.
Qed.

(** ** Case analysis of one pass of the inner loop *)

(** The counters after [n] units weighing [w] together were taken. *)
Definition counters_after (fr : Frame) (n : Z) (w : Py.float) : Frame :=
  {| remaining_weight := Py.sub (remaining_weight fr) w;
     remaining_items := remaining_items fr - n;
     updates := updates fr;
     remaining_weight_capacity := Py.sub (remaining_weight_capacity fr) w;
     remaining_item_capacity := remaining_item_capacity fr - n;
     vehicle_db := vehicle_db fr;
     stdout := stdout fr |}.

(** The record built for a vehicle from the current counters. *)
Definition update_for (v : Vehicle) (fr : Frame) : Update :=
  {| upd_Vehicle_ID := Vehicle_ID v;
     upd_Type := Vehicle_Type v;
     upd_Status := "in_use";
     upd_Remaining_Capacity_Weight := remaining_weight_capacity fr;
     upd_Remaining_Capacity_Item_Count := remaining_item_capacity fr |}.

(** The store written, the message printed and the record appended. *)
Definition committed (fr : Frame) (u : Update) (rows' : list Vehicle) (m : Msg)
  : Frame :=
  {| remaining_weight := remaining_weight fr;
     remaining_items := remaining_items fr;
     updates := updates fr ++ [u];
     remaining_weight_capacity := remaining_weight_capacity fr;
     remaining_item_capacity := remaining_item_capacity fr;
     vehicle_db := rows';
     stdout := stdout fr ++ [m] |}.

Definition take (line : Line) (n : Z) : Line :=
  {| Item_ID := Item_ID line; Quantity := Quantity line - n |}.

Inductive load_case (items : list Item) (v : Vehicle) (fr : Frame) (line : Line)
  : result (Frame * Line) -> Prop :=
| load_unresolved :
    find_item items (Item_ID line) = None ->
    load_case items v fr line (Ok (fr, line))
| load_excluded item :
    find_item items (Item_ID line) = Some item ->
    excluded (Vehicle_Type v) (Item_Type item) = true ->
    load_case items v fr line (Ok (fr, line))
| load_error item e :
    find_item items (Item_ID line) = Some item ->
    excluded (Vehicle_Type v) (Item_Type item) = false ->
    loadable fr (Quantity line) (Weight item) = Exc e ->
    load_case items v fr line (Raise e (fr, line))
| load_nothing item n :
    find_item items (Item_ID line) = Some item ->
    excluded (Vehicle_Type v) (Item_Type item) = false ->
    loadable fr (Quantity line) (Weight item) = Val n ->
    n <= 0 ->
    load_case items v fr line (Ok (fr, line))
| load_too_large item n e :
    find_item items (Item_ID line) = Some item ->
    excluded (Vehicle_Type v) (Item_Type item) = false ->
    loadable fr (Quantity line) (Weight item) = Val n ->
    0 < n ->
    Py.int_mul n (Weight item) = Exc e ->
    load_case items v fr line (Raise e (fr, line))
| load_units item n w fr1 :
    find_item items (Item_ID line) = Some item ->
    excluded (Vehicle_Type v) (Item_Type item) = false ->
    loadable fr (Quantity line) (Weight item) = Val n ->
    0 < n ->
    Py.int_mul n (Weight item) = Val w ->
    fr1 = counters_after fr n w ->
    In (Vehicle_ID v) (map Vehicle_ID (vehicle_db fr)) ->
    load_case items v fr line
      (Ok (committed fr1 (update_for v fr1)
             (map (write_row (Vehicle_ID v) (update_for v fr1)) (vehicle_db fr))
             (Loaded (Vehicle_ID v) (Vehicle_Type v) n (Item_ID line) w),
           take line n))
| load_not_found item n w :
    find_item items (Item_ID line) = Some item ->
    excluded (Vehicle_Type v) (Item_Type item) = false ->
    loadable fr (Quantity line) (Weight item) = Val n ->
    0 < n ->
    Py.int_mul n (Weight item) = Val w ->
    ~ In (Vehicle_ID v) (map Vehicle_ID (vehicle_db fr)) ->
    load_case items v fr line
      (Raise (ValueError (Vehicle_ID v))
             (counters_after fr n w, take line n)).

Lemma load_item_case (items : list Item) (v : Vehicle) (fr : Frame) (line : Line) :
  load_case items v fr line (load_item items v fr line).
Proof.
  unfold load_item.
  destruct (find_item items (Item_ID line)) as [item | ] eqn:Hfind;
    [ | apply load_unresolved; exact Hfind ].
  destruct (excluded (Vehicle_Type v) (Item_Type item)) eqn:Hex;
    [ eapply load_excluded; eassumption | ].
  destruct (loadable fr (Quantity line) (Weight item)) as [n | e] eqn:Hn;
    [ | eapply load_error; eassumption ].
  destruct (0 <? n) eqn:Hl.
  2:{ eapply load_nothing; try eassumption. apply Z.ltb_ge. exact Hl. }
  apply Z.ltb_lt in Hl.
  destruct (Py.int_mul n (Weight item)) as [w | e] eqn:Hw;
    [ | eapply load_too_large; eassumption ].
  destruct (in_dec string_dec (Vehicle_ID v) (map Vehicle_ID (vehicle_db fr)))
    as [Hin | Hnin].
  - match goal with |- context [update_vehicle ?r ?i ?u] =>
      rewrite (update_vehicle_found r i u Hin) end.
    exact (load_units items v fr line item n w _ Hfind Hex Hn Hl Hw eq_refl Hin).
  - match goal with |- context [update_vehicle ?r ?i ?u] =>
      destruct (update_vehicle r i u) as [rows' | ] eqn:Hup end.
    + exfalso. apply Hnin. unfold update_vehicle in Hup.
      match type of Hup with context [update_data ?r ?i ?u] =>
        pose proof (update_data_snd r i u) as Hs;
        destruct (update_data r i u) as [r' b] end.
      simpl in Hs. destruct b; [ | discriminate ].
      symmetry in Hs. apply existsb_exists in Hs.
      destruct Hs as [row [Hrow E]]. apply String.eqb_eq in E.
      apply in_map_iff. exists row. split; assumption.
    + exact (load_not_found items v fr line item n w Hfind Hex Hn Hl Hw Hnin).
Qed.

(** Case analysis on a [load_case], with fixed names for what each case
    brings. *)
Ltac load_cases H :=
  destruct H as
    [ Hf | it Hf He | it e Hf He Herr | it n Hf He Hn Hl
    | it n e Hf He Hn Hpos Herr
    | it n w fr1 Hf He Hn Hpos Hw Efr Hin
    | it n w Hf He Hn Hpos Hw Hnin ].

(** What [loadable] returns is the least of the three bounds. *)
Lemma loadable_val (fr : Frame) (quantity : Z) (w : Py.float) (n : Z) :
  loadable fr quantity w = Val n ->
  exists quotient by_weight,
    Py.div (Py.min (remaining_weight fr) (remaining_weight_capacity fr)) w
    = Val quotient
    /\ Py.int quotient = Val by_weight
    /\ n = Z.min (Z.min quantity
                        (Z.min (remaining_items fr) (remaining_item_capacity fr)))
                 by_weight.
Proof.
  unfold loadable. intros H.
  destruct (Py.div _ w) as [quotient | e] eqn:Hq; simpl in H; [ | discriminate ].
  destruct (Py.int quotient) as [by_weight | e] eqn:Hk; simpl in H;
    [ | discriminate ].
  injection H as <-. exists quotient, by_weight.
  split; [ reflexivity | split; [ exact Hk | reflexivity ] ].
Qed.

Lemma loadable_le_capacity (fr : Frame) (quantity : Z) (w : Py.float) (n : Z) :
  loadable fr quantity w = Val n ->
  n <= quantity /\ n <= remaining_items fr /\ n <= remaining_item_capacity fr.
Proof.
  intros H. apply loadable_val in H. destruct H as [q [k [_ [_ E]]]]. lia.
Qed.

(** The exceptions of the loadable computation. *)
Lemma loadable_exc (fr : Frame) (quantity : Z) (w : Py.float) (e : exn) :
  loadable fr quantity w = Exc e ->
  (e = ZeroDivisionError /\ Py.is_zero w = true)
  \/ e = OverflowError \/ e = ValueError_NaN.
Proof.
  unfold loadable, Py.div. intros H.
  destruct w as [s | s | | s m x]; simpl in H;
    try (injection H as <-; left; split; reflexivity);
    match type of H with
    | context [Py.int ?q] => destruct q as [s' | [ | ] | | s' m' x']
    end; simpl in H; try discriminate; injection H as <-; auto.
Qed.

Lemma int_mul_exc (n : Z) (w : Py.float) (e : exn) :
  Py.int_mul n w = Exc e -> e = OverflowError.
Proof.
  unfold Py.int_mul, Py.float_of_int. intros H.
  destruct (Py.of_Z n); simpl in H; try discriminate.
  injection H as <-. reflexivity.
Qed.

(** ** Invariants of the two loops *)

Section Loop_invariant.

Variable items : list Item.

(** [Between vs fr ls]: holds at the head of the outer loop, [vs] being the
    vehicles still to visit.  [Inside v vs fr ls]: holds at the head of the
    inner loop while vehicle [v] is visited. *)
Variable Between : list Vehicle -> Frame -> list Line -> Prop.
Variable Inside : Vehicle -> list Vehicle -> Frame -> list Line -> Prop.

Hypothesis skip_ok : forall v rest fr ls,
  Between (v :: rest) fr ls -> exhausted fr = false -> skipped v = true ->
  Between rest (enter_vehicle v fr) ls.

Hypothesis enter_ok : forall v rest fr ls,
  Between (v :: rest) fr ls -> exhausted fr = false -> skipped v = false ->
  Inside v rest (enter_vehicle v fr) ls.

Hypothesis step_ok : forall v rest fr pre line post r,
  Inside v rest fr (pre ++ line :: post) ->
  load_case items v fr line r ->
  Inside v rest (fst (state r)) (pre ++ snd (state r) :: post).

Hypothesis leave_ok : forall v rest fr ls,
  Inside v rest fr ls -> Between rest fr ls.

Lemma lines_loop_invariant (v : Vehicle) (rest : list Vehicle) :
  forall todo pre fr,
    Inside v rest fr (pre ++ todo) ->
    Inside v rest (fst (state (lines_loop items v fr todo)))
                  (pre ++ snd (state (lines_loop items v fr todo))).
Proof.
  induction todo as [ | line todo IH ]; intros pre fr H; simpl; [ exact H | ].
  pose proof (step_ok v rest fr pre line todo _ H (load_item_case items v fr line))
    as Hstep.
  destruct (load_item items v fr line) as [[fr' line'] | e [fr' line']];
    simpl in Hstep; [ | exact Hstep ].
  change (pre ++ line' :: todo) with (pre ++ [line'] ++ todo) in Hstep.
  rewrite app_assoc in Hstep.
  specialize (IH (pre ++ [line']) fr' Hstep).
  destruct (lines_loop items v fr' todo) as [[fr'' todo'] | e [fr'' todo']];
    simpl in *; rewrite <- app_assoc in IH; exact IH.
Qed.

Lemma vehicles_loop_invariant :
  forall vs fr ls,
    Between vs fr ls ->
    exists vs',
      Between vs' (fst (state (vehicles_loop items vs fr ls)))
                  (snd (state (vehicles_loop items vs fr ls))).
Proof.
  induction vs as [ | v rest IH ]; intros fr ls H; simpl.
  - exists []. exact H.
  - destruct (exhausted fr) eqn:Hex; [ exists (v :: rest); exact H | ].
    destruct (skipped v) eqn:Hsk.
    + apply IH. apply skip_ok; assumption.
    + pose proof (lines_loop_invariant v rest ls [] (enter_vehicle v fr)
                    (enter_ok v rest fr ls H Hex Hsk)) as Hin.
      simpl in Hin.
      destruct (lines_loop items v (enter_vehicle v fr) ls)
        as [[fr2 ls2] | e [fr2 ls2]]; simpl in Hin.
      * apply IH. apply leave_ok with (v := v). exact Hin.
      * exists rest. simpl. apply leave_ok with (v := v). exact Hin.
Qed.

End Loop_invariant.

(** [report] only prints. *)
Lemma report_fields (fr : Frame) :
  remaining_weight (report fr) = remaining_weight fr
  /\ remaining_items (report fr) = remaining_items fr
  /\ updates (report fr) = updates fr
  /\ vehicle_db (report fr) = vehicle_db fr
  /\ (stdout (report fr) = stdout fr \/ stdout (report fr) = stdout fr ++ [NotEnoughCapacity]).
Proof.
  unfold report. destruct (0 <? remaining_items fr); simpl; auto 10.
Qed.

(** The state reached by [select_vehicle] is the one the outer loop reaches,
    up to the final message. *)
Lemma select_vehicle_state (rows : list Vehicle) (items : list Item)
    (total_weight : Py.float) (item_count : Z) (lines : list Line) :
  let s := state (vehicles_loop items (sort_vehicles rows)
                    (initial_frame rows total_weight item_count) lines) in
  let s' := state (select_vehicle rows items total_weight item_count lines) in
  snd s' = snd s
  /\ (fst s' = fst s \/ fst s' = report (fst s)).
Proof.
  unfold select_vehicle.
  destruct (vehicles_loop items (sort_vehicles rows)
              (initial_frame rows total_weight item_count) lines)
    as [[fr ls] | e [fr ls]]; simpl; auto.
Qed.

(** A property of the frame that [report] keeps holds of the frame that
    [select_vehicle] reaches as soon as it holds of the one the loop reaches. *)
Lemma select_vehicle_reaches (P : Frame -> Prop) (rows : list Vehicle)
    (items : list Item) (total_weight : Py.float) (item_count : Z)
    (lines : list Line) :
  (forall fr, P fr -> P (report fr)) ->
  P (fst (state (vehicles_loop items (sort_vehicles rows)
                   (initial_frame rows total_weight item_count) lines))) ->
  P (fst (state (select_vehicle rows items total_weight item_count lines))).
Proof.
  intros Hrep H.
  destruct (select_vehicle_state rows items total_weight item_count lines)
    as [_ [E | E]]; rewrite E; auto.
Qed.

(** ** Every pass of the inner loop (claim C1) *)

(** [line_visit items v fr ls fr' line]: while the inner loop runs over [ls]
    for vehicle [v] from frame [fr], its body is entered with frame [fr'] and
    request line [line]. *)
Inductive line_visit (items : list Item) (v : Vehicle)
  : Frame -> list Line -> Frame -> Line -> Prop :=
| visit_line fr line rest :
    line_visit items v fr (line :: rest) fr line
| visit_later fr line rest fr1 line1 fr' line' :
    load_item items v fr line = Ok (fr1, line1) ->
    line_visit items v fr1 rest fr' line' ->
    line_visit items v fr (line :: rest) fr' line'.

(** [visit items vs fr ls v fr' line]: while the outer loop runs over [vs]
    from frame [fr] and lines [ls], the body of the inner loop is entered for
    vehicle [v] with frame [fr'] and request line [line]. *)
Inductive visit (items : list Item)
  : list Vehicle -> Frame -> list Line -> Vehicle -> Frame -> Line -> Prop :=
| visit_this v rest fr ls fr' line' :
    exhausted fr = false -> skipped v = false ->
    line_visit items v (enter_vehicle v fr) ls fr' line' ->
    visit items (v :: rest) fr ls v fr' line'
| visit_after_skipped v rest fr ls v' fr' line' :
    exhausted fr = false -> skipped v = true ->
    visit items rest (enter_vehicle v fr) ls v' fr' line' ->
    visit items (v :: rest) fr ls v' fr' line'
| visit_after_loaded v rest fr ls fr2 ls2 v' fr' line' :
    exhausted fr = false -> skipped v = false ->
    lines_loop items v (enter_vehicle v fr) ls = Ok (fr2, ls2) ->
    visit items rest fr2 ls2 v' fr' line' ->
    visit items (v :: rest) fr ls v' fr' line'.

(** The request line [line] is processed against vehicle [v], from frame
    [fr], in the call [select_vehicle rows items total_weight item_count lines]. *)
Definition processed (rows : list Vehicle) (items : list Item)
    (total_weight : Py.float) (item_count : Z) (lines : list Line)
    (v : Vehicle) (fr : Frame) (line : Line) : Prop :=
  visit items (sort_vehicles rows) (initial_frame rows total_weight item_count)
        lines v fr line.

(** The visits account for every record: a record that a run of the loops
    adds was appended by a pass of the inner-loop body that [visit] lists. *)
Lemma load_item_updates (items : list Item) (v : Vehicle) (fr : Frame) (line : Line) :
  updates (fst (state (load_item items v fr line))) = updates fr
  \/ exists u, updates (fst (state (load_item items v fr line))) = updates fr ++ [u].
Proof.
  load_cases (load_item_case items v fr line);
    simpl; auto.
  right. subst fr1. simpl. eexists. reflexivity.
Qed.

Lemma lines_loop_visits (items : list Item) (v : Vehicle) (u : Update) :
  forall ls fr,
    In u (updates (fst (state (lines_loop items v fr ls)))) ->
    In u (updates fr)
    \/ exists fr' line,
         line_visit items v fr ls fr' line
         /\ updates (fst (state (load_item items v fr' line))) = updates fr' ++ [u].
Proof.
  induction ls as [ | l ls IH ]; intros fr Hu; simpl in Hu; [ left; exact Hu | ].
  assert (Hhere : In u (updates (fst (state (load_item items v fr l)))) ->
                  In u (updates fr)
                  \/ exists fr' line,
                       line_visit items v fr (l :: ls) fr' line
                       /\ updates (fst (state (load_item items v fr' line)))
                          = updates fr' ++ [u]).
  { intros Hin. destruct (load_item_updates items v fr l) as [E | [u' E]];
      rewrite E in Hin; [ left; exact Hin | ].
    apply in_app_or in Hin. destruct Hin as [Hin | [Hin | []]];
      [ left; exact Hin | subst u' ].
    right. exists fr, l. split; [ apply visit_line | exact E ]. }
  destruct (load_item items v fr l) as [[fr1 l1] | e [fr1 l1]] eqn:El;
    simpl in *; [ | apply Hhere; exact Hu ].
  assert (Hu1 : In u (updates (fst (state (lines_loop items v fr1 ls))))).
  { destruct (lines_loop items v fr1 ls) as [[fr2 ls2] | e [fr2 ls2]];
      simpl in *; exact Hu. }
  destruct (IH fr1 Hu1) as [Hin | [fr' [line [Hv E]]]];
    [ apply Hhere; exact Hin | ].
  right. exists fr', line. split; [ | exact E ].
  eapply visit_later; eassumption.
Qed.

Lemma vehicles_loop_visits (items : list Item) (u : Update) :
  forall vs fr ls,
    In u (updates (fst (state (vehicles_loop items vs fr ls)))) ->
    In u (updates fr)
    \/ exists v fr' line,
         visit items vs fr ls v fr' line
         /\ updates (fst (state (load_item items v fr' line))) = updates fr' ++ [u].
Proof.
  induction vs as [ | v vs IH ]; intros fr ls Hu; simpl in Hu;
    [ left; exact Hu | ].
  destruct (exhausted fr) eqn:Hex; [ left; exact Hu | ].
  destruct (skipped v) eqn:Hsk.
  - destruct (IH _ _ Hu) as [Hin | [v' [fr' [line [Hv E]]]]];
      [ left; exact Hin | ].
    right. exists v', fr', line. split; [ | exact E ].
    apply visit_after_skipped; assumption.
  - pose proof (lines_loop_visits items v u ls (enter_vehicle v fr)) as Hl.
    destruct (lines_loop items v (enter_vehicle v fr) ls)
      as [[fr2 ls2] | e [fr2 ls2]] eqn:El; simpl in *.
    + destruct (IH _ _ Hu) as [Hin | [v' [fr' [line [Hv E]]]]].
      * destruct (Hl Hin) as [Hin' | [fr' [line [Hv E]]]];
          [ left; exact Hin' | ].
        right. exists v, fr', line. split; [ | exact E ].
        apply visit_this; assumption.
      * right. exists v', fr', line. split; [ | exact E ].
        eapply visit_after_loaded; eassumption.
    + destruct (Hl Hu) as [Hin' | [fr' [line [Hv E]]]];
        [ left; exact Hin' | ].
      right. exists v, fr', line. split; [ | exact E ].
      apply visit_this; assumption.
Qed.

Lemma records_are_processed (rows : list Vehicle) (items : list Item)
    (total_weight : Py.float) (item_count : Z) (lines : list Line) (u : Update) :
  In u (updates (fst (state (select_vehicle rows items total_weight item_count
                               lines)))) ->
  exists v fr line,
    processed rows items total_weight item_count lines v fr line
    /\ updates (fst (state (load_item items v fr line))) = updates fr ++ [u].
Proof.
  intros Hu.
  assert (Hu' : In u (updates (fst (state (vehicles_loop items (sort_vehicles rows)
                   (initial_frame rows total_weight item_count) lines))))).
  { destruct (select_vehicle_state rows items total_weight item_count lines)
      as [_ [E | E]]; rewrite E in Hu; [ exact Hu | ].
    destruct (report_fields (fst (state (vehicles_loop items (sort_vehicles rows)
                (initial_frame rows total_weight item_count) lines))))
      as [_ [_ [Eu _]]].
    rewrite Eu in Hu. exact Hu. }
  destruct (vehicles_loop_visits items u _ _ _ Hu') as [[] | H]. exact H.
Qed.








(** ** Records and the loads they stand for (claim C2) *)

(** Record [u] was emitted together with message [m]: a load of at least one
    unit of a catalog item onto the vehicle that [u] names. *)
Definition records_load (items : list Item) (u : Update) (m : Msg) : Prop :=
  exists n item_id item w,
    m = Loaded (upd_Vehicle_ID u) (upd_Type u) n item_id w
    /\ 0 < n
    /\ find_item items item_id = Some item
    /\ Py.int_mul n (Weight item) = Val w
    /\ ~ (upd_Type u = "Bike" /\ Item_Type item = "fragile").

Lemma excluded_false (vehicle_type item_type : string) :
  excluded vehicle_type item_type = false ->
  ~ (vehicle_type = "Bike" /\ item_type = "fragile").
Proof.
  unfold excluded. intros H [E1 E2]. subst.
  simpl in H. discriminate.
Qed.

Lemma vehicles_loop_records_load (items : list Item) (vs : list Vehicle)
    (fr : Frame) (ls : list Line) :
  Forall2 (records_load items) (updates fr) (stdout fr) ->
  let fr' := fst (state (vehicles_loop items vs fr ls)) in
  Forall2 (records_load items) (updates fr') (stdout fr').
Proof.
  intros H.
  pose (P := fun (_ : list Vehicle) (f : Frame) (_ : list Line) =>
               Forall2 (records_load items) (updates f) (stdout f)).
  destruct (vehicles_loop_invariant items P (fun _ => P)) with (vs := vs) (fr := fr) (ls := ls)
    as [vs' Hfin]; unfold P in *; auto.
  intros v rest f pre line post r Hinv Hcase.
  load_cases Hcase; simpl; try exact Hinv.
  subst fr1. simpl. apply Forall2_app; [ exact Hinv | ].
  constructor; [ | constructor ].
  exists n, (Item_ID line), it, w.
  simpl. repeat split; try assumption.
  intros [E1 E2]. eapply excluded_false; eauto.
Qed.

(** The records and the loads printed, in the frame that [select_vehicle]
    reaches. *)
Lemma select_vehicle_records_load (rows : list Vehicle) (items : list Item)
    (total_weight : Py.float) (item_count : Z) (lines : list Line) :
  let fr := fst (state (select_vehicle rows items total_weight item_count lines)) in
  exists loads,
    (stdout fr = loads \/ stdout fr = loads ++ [NotEnoughCapacity])
    /\ Forall2 (records_load items) (updates fr) loads.
Proof.
  intros fr.
  pose proof (vehicles_loop_records_load items (sort_vehicles rows)
                (initial_frame rows total_weight item_count) lines) as H.
  simpl in H. specialize (H (Forall2_nil _)).
  destruct (select_vehicle_state rows items total_weight item_count lines)
    as [_ [E | E]]; fold fr in E.
  - exists (stdout fr). rewrite E. split; [ left; reflexivity | exact H ].
  - set (f0 := fst (state (vehicles_loop items (sort_vehicles rows)
                      (initial_frame rows total_weight item_count) lines))) in *.
    exists (stdout f0).
    destruct (report_fields f0) as [_ [_ [Eu [_ Eo]]]].
    rewrite E, Eu. split; [ | exact H ].
    destruct Eo as [Eo | Eo]; rewrite Eo; auto.
Qed.

(** C2. Each allocation record is paired with the message printed for the
    load it records, which names the item loaded; in no such pair is the
    record's vehicle a Bike and the item fragile. *)
Theorem no_fragile_on_bike
    (rows : list Vehicle) (items : list Item) (total_weight : Py.float)
    (item_count : Z) (lines : list Line) :
  let fr := fst (state (select_vehicle rows items total_weight item_count lines)) in
  exists loads,
    (stdout fr = loads \/ stdout fr = loads ++ [NotEnoughCapacity])
    /\ Forall2 (records_load items) (updates fr) loads.
Proof.
  exact (select_vehicle_records_load rows items total_weight item_count lines).
Qed.

(** ** The sort *)

(** [key(a) <= key(b)]: not [key(b) < key(a)]. *)
Definition key_le (a b : Vehicle) : Prop := key_lt b a = false.

(** A vehicle whose maximum weight compares with every other: it is not NaN. *)
Definition comparable (v : Vehicle) : Prop :=
  Py.is_nan (Max_Capacity_Weight v) = false.

(** Ascending by item-count capacity, ties by ascending weight capacity. *)
Lemma key_le_spec (a b : Vehicle) :
  comparable a -> comparable b ->
  (key_le a b <->
   Max_Capacity_Item_Count a < Max_Capacity_Item_Count b
   \/ (Max_Capacity_Item_Count a = Max_Capacity_Item_Count b
       /\ Py.leb (Max_Capacity_Weight a) (Max_Capacity_Weight b) = true)).
Proof.
  intros Ha Hb. unfold key_le, key_lt.
  rewrite orb_false_iff, andb_false_iff, Z.ltb_ge, Z.eqb_neq.
  rewrite (not_ltb_leb _ _ Ha Hb). split.
  - intros [H1 [H2 | H2]].
    + left. lia.
    + destruct (Z.eq_dec (Max_Capacity_Item_Count a) (Max_Capacity_Item_Count b))
        as [E | E]; [ right; split; assumption | left; lia ].
  - intros [H | [E H]]; (split; [ lia | ]); [ left; lia | right; exact H ].
Qed.

Lemma key_le_trans (a b c : Vehicle) :
  comparable a -> comparable b -> comparable c ->
  key_le a b -> key_le b c -> key_le a c.
Proof.
  intros Ha Hb Hc. rewrite !key_le_spec by assumption.
  intros [H1 | [E1 W1]] [H2 | [E2 W2]]; try (left; lia).
  right. split; [ lia | apply leb_trans with (y := Max_Capacity_Weight b); assumption ].
Qed.

Lemma key_lt_le (a b : Vehicle) : key_lt a b = true -> key_le a b.
Proof.
  unfold key_le, key_lt.
  rewrite orb_true_iff, andb_true_iff, Z.ltb_lt, Z.eqb_eq.
  rewrite orb_false_iff, andb_false_iff, Z.ltb_ge, Z.eqb_neq.
  intros [H | [E H]]; (split; [ lia | ]); [ left; lia | right ].
  apply ltb_asym. exact H.
Qed.

Lemma insert_perm (x : Vehicle) (l : list Vehicle) :
  Permutation (insert x l) (x :: l).
Proof.
  induction l as [ | y l IH ]; simpl; [ reflexivity | ].
  destruct (key_lt y x); [ | reflexivity ].
  rewrite IH. apply perm_swap.
Qed.

Lemma sort_vehicles_perm (l : list Vehicle) : Permutation (sort_vehicles l) l.
Proof.
  induction l as [ | x l IH ]; simpl; [ reflexivity | ].
  rewrite insert_perm. constructor. exact IH.
Qed.

Lemma sort_vehicles_incl (l : list Vehicle) : incl (sort_vehicles l) l.
Proof.
  intros v Hv. apply (Permutation_in _ (sort_vehicles_perm l)). exact Hv.
Qed.

Lemma sort_vehicles_comparable (l : list Vehicle) :
  Forall comparable l -> Forall comparable (sort_vehicles l).
Proof.
  intros H. rewrite Forall_forall in *. intros v Hv.
  apply H, sort_vehicles_incl, Hv.
Qed.

Lemma insert_sorted (x : Vehicle) (l : list Vehicle) :
  comparable x -> Forall comparable l ->
  StronglySorted key_le l -> StronglySorted key_le (insert x l).
Proof.
  intros Hx.
  induction l as [ | y l IH ]; simpl; intros Hc Hs.
  - constructor; constructor.
  - inversion Hs as [ | y' l' Hs' Hall ]; subst.
    inversion Hc as [ | y' l' Hy Hl ]; subst.
    destruct (key_lt y x) eqn:Hyx.
    + constructor; [ apply IH; assumption | ].
      rewrite Forall_forall in *. intros z Hz.
      apply (Permutation_in _ (insert_perm x l)) in Hz.
      destruct Hz as [Hz | Hz]; [ subst z; apply key_lt_le; exact Hyx | auto ].
    + constructor; [ exact Hs | ].
      constructor; [ exact Hyx | ].
      rewrite Forall_forall in *. intros z Hz.
      apply key_le_trans with (b := y); auto.
Qed.

Lemma sort_vehicles_sorted (l : list Vehicle) :
  Forall comparable l -> StronglySorted key_le (sort_vehicles l).
Proof.
  induction 1 as [ | x l Hx Hl IH ]; simpl; [ constructor | ].
  apply insert_sorted;
    [ exact Hx | apply sort_vehicles_comparable; exact Hl | exact IH ].
Qed.

Lemma sort_vehicles_ids (l : list Vehicle) :
  NoDup (map Vehicle_ID l) -> NoDup (map Vehicle_ID (sort_vehicles l)).
Proof.
  intros H. eapply Permutation_NoDup; [ | exact H ].
  apply Permutation_map. symmetry. apply sort_vehicles_perm.
Qed.

(** ** The order in which vehicles are visited (claim C9) *)

(** A vehicle the outer loop does not skip. *)
Definition eligible (v : Vehicle) : bool := negb (skipped v).

(** Ascending by maximum item count, ties by ascending maximum weight. *)
Definition ascending (a b : Vehicle) : Prop :=
  Max_Capacity_Item_Count a < Max_Capacity_Item_Count b
  \/ (Max_Capacity_Item_Count a = Max_Capacity_Item_Count b
      /\ Py.leb (Max_Capacity_Weight a) (Max_Capacity_Weight b) = true).

(** The allocator run over a given sequence of vehicles, the store being
    [rows]: [select_vehicle] is this run over [sort_vehicles rows]. *)
Definition allocate_over (vehicles rows : list Vehicle) (items : list Item)
    (total_weight : Py.float) (item_count : Z) (lines : list Line)
  : result (Frame * list Line) :=
  match vehicles_loop items vehicles (initial_frame rows total_weight item_count)
                      lines with
  | Ok (fr, ls) => Ok (report fr, ls)
  | Raise e s => Raise e s
  end.

(** A frame without the two per-vehicle locals, which are dead between
    vehicles and after the loop. *)
Definition visible (fr : Frame)
  : Py.float * Z * list Update * list Vehicle * list Msg :=
  (remaining_weight fr, remaining_items fr, updates fr, vehicle_db fr, stdout fr).

(** All that a caller can see of a call: whether it raised, the counters,
    the records, the store, the output and the request lines. *)
Definition observable (r : result (Frame * list Line)) :=
  (raised r, visible (fst (state r)), snd (state r)).

Lemma enter_vehicle_visible (v : Vehicle) (fr fr' : Frame) :
  visible fr = visible fr' -> enter_vehicle v fr = enter_vehicle v fr'.
Proof.
  unfold visible, enter_vehicle. intros H. injection H as -> -> -> -> ->.
  reflexivity.
Qed.

Lemma exhausted_visible (fr fr' : Frame) :
  visible fr = visible fr' -> exhausted fr = exhausted fr'.
Proof.
  unfold visible, exhausted. intros H. injection H as -> -> _ _ _. reflexivity.
Qed.

Lemma vehicles_loop_exhausted (items : list Item) (vs : list Vehicle)
    (fr : Frame) (ls : list Line) :
  exhausted fr = true -> vehicles_loop items vs fr ls = Ok (fr, ls).
Proof. intros H. destruct vs; simpl; [ | rewrite H ]; reflexivity. Qed.

Lemma vehicles_loop_visible (items : list Item) (vs : list Vehicle)
    (fr fr' : Frame) (ls : list Line) :
  visible fr = visible fr' ->
  observable (vehicles_loop items vs fr ls)
  = observable (vehicles_loop items vs fr' ls).
Proof.
  intros H. destruct vs as [ | v vs ]; simpl.
  - unfold observable. simpl. rewrite H. reflexivity.
  - rewrite <- (exhausted_visible fr fr' H).
    destruct (exhausted fr).
    + unfold observable. simpl. rewrite H. reflexivity.
    + rewrite (enter_vehicle_visible v fr fr' H). reflexivity.
Qed.

Lemma vehicles_loop_filter (items : list Item) :
  forall vs fr ls,
    observable (vehicles_loop items vs fr ls)
    = observable (vehicles_loop items (filter eligible vs) fr ls).
Proof.
  induction vs as [ | v vs IH ]; intros fr ls; [ reflexivity | ].
  simpl filter. unfold eligible at 1.
  destruct (skipped v) eqn:Hsk; simpl negb; cbv iota.
  - simpl vehicles_loop. rewrite Hsk.
    destruct (exhausted fr) eqn:Hex.
    + rewrite vehicles_loop_exhausted by exact Hex. reflexivity.
    + rewrite IH. apply vehicles_loop_visible. reflexivity.
  - simpl vehicles_loop. rewrite Hsk.
    destruct (exhausted fr); [ reflexivity | ].
    destruct (lines_loop items v (enter_vehicle v fr) ls)
      as [[fr2 ls2] | e s]; [ apply IH | reflexivity ].
Qed.

Lemma insert_first (x : Vehicle) (l : list Vehicle) :
  Forall (key_le x) l -> insert x l = x :: l.
Proof.
  intros H. destruct l as [ | y l ]; [ reflexivity | ].
  simpl. inversion H as [ | y' l' Hy _ ]; subst.
  unfold key_le in Hy. rewrite Hy. reflexivity.
Qed.

Lemma filter_insert (p : Vehicle -> bool) (x : Vehicle) (l : list Vehicle) :
  comparable x -> Forall comparable l ->
  StronglySorted key_le l ->
  filter p (insert x l) = if p x then insert x (filter p l) else filter p l.
Proof.
  intros Hx.
  induction l as [ | y l IH ]; intros Hc Hs.
  - simpl. destruct (p x); reflexivity.
  - inversion Hs as [ | y' l' Hs' Hall ]; subst.
    inversion Hc as [ | y' l' Hy Hl ]; subst.
    simpl insert. destruct (key_lt y x) eqn:Hyx.
    + simpl filter. rewrite (IH Hl Hs').
      destruct (p x), (p y); try reflexivity.
      simpl. rewrite Hyx. reflexivity.
    + change (filter p (x :: y :: l))
        with (if p x then x :: filter p (y :: l) else filter p (y :: l)).
      destruct (p x); [ | reflexivity ].
      symmetry. apply insert_first.
      apply Forall_forall. intros z Hz. apply filter_In in Hz.
      destruct Hz as [[Hz | Hz] _].
      * subst z. exact Hyx.
      * rewrite Forall_forall in Hall, Hl.
        apply key_le_trans with (b := y); auto.
Qed.

Lemma filter_sort_vehicles (p : Vehicle -> bool) (l : list Vehicle) :
  Forall comparable l ->
  filter p (sort_vehicles l) = sort_vehicles (filter p l).
Proof.
  induction 1 as [ | x l Hx Hl IH ]; [ reflexivity | ].
  simpl. rewrite filter_insert;
    [ | exact Hx | apply sort_vehicles_comparable; exact Hl
      | apply sort_vehicles_sorted; exact Hl ].
  rewrite IH. destruct (p x); reflexivity.
Qed.

(** Two vehicles with the same sort key. *)
Definition same_key (a b : Vehicle) : bool :=
  negb (key_lt a b) && negb (key_lt b a).

Lemma same_key_not_lt (v x y : Vehicle) :
  comparable v -> comparable x -> comparable y ->
  same_key v x = true -> same_key v y = true -> key_lt y x = false.
Proof.
  unfold same_key. rewrite !andb_true_iff, !negb_true_iff.
  intros Hv Hx Hy [Hvx Hxv] [Hvy Hyv].
  apply key_le_trans with (b := v); assumption.
Qed.

Lemma sort_vehicles_fixed (l : list Vehicle) :
  (forall x y, In x l -> In y l -> key_lt y x = false) -> sort_vehicles l = l.
Proof.
  induction l as [ | x l IH ]; intros H; [ reflexivity | ].
  simpl. rewrite IH by (intros; apply H; right; assumption).
  apply insert_first. apply Forall_forall. intros y Hy.
  apply H; [ left; reflexivity | right; exact Hy ].
Qed.

Lemma filter_comparable (p : Vehicle -> bool) (l : list Vehicle) :
  Forall comparable l -> Forall comparable (filter p l).
Proof.
  intros H. rewrite Forall_forall in *. intros v Hv.
  apply filter_In in Hv. apply H, Hv.
Qed.

(** The sort is stable: vehicles with equal keys keep their order. *)
Lemma sort_vehicles_stable (v : Vehicle) (l : list Vehicle) :
  comparable v -> Forall comparable l ->
  filter (same_key v) (sort_vehicles l) = filter (same_key v) l.
Proof.
  intros Hv Hl.
  rewrite filter_sort_vehicles by exact Hl. apply sort_vehicles_fixed.
  intros x y Hx Hy. apply filter_In in Hx, Hy.
  rewrite Forall_forall in Hl.
  apply same_key_not_lt with (v := v); try tauto; apply Hl; tauto.
Qed.

Lemma sorted_ascending (l : list Vehicle) :
  Forall comparable l -> StronglySorted key_le l -> StronglySorted ascending l.
Proof.
  intros Hc. induction 1 as [ | x l Hs IH Hall ]; constructor.
  - apply IH. inversion Hc; assumption.
  - inversion Hc as [ | x' l' Hx Hl ]; subst.
    rewrite Forall_forall in *. intros y Hy.
    apply key_le_spec; auto.
Qed.

Lemma report_visible (fr fr' : Frame) :
  visible fr = visible fr' -> visible (report fr) = visible (report fr').
Proof.
  unfold visible, report. intros H. injection H as H1 H2 H3 H4 H5.
  rewrite H2. destruct (0 <? remaining_items fr'); simpl; congruence.
Qed.

(** C9. The vehicles visited are the eligible vehicles of the store sorted
    ascending by maximum item count, ties broken by ascending maximum weight:
    that sequence is a sorted rearrangement of the eligible vehicles in which
    vehicles with equal keys keep the order of the store (so it is determined
    by the store), and nothing a caller can observe distinguishes
    [select_vehicle] from the allocation run over it.  The maximum weights
    are numbers: none is NaN, on which no order is defined. *)
Theorem vehicles_visited_in_sorted_order
    (rows : list Vehicle) (items : list Item) (total_weight : Py.float)
    (item_count : Z) (lines : list Line) :
  Forall comparable rows ->
  let order := sort_vehicles (filter eligible rows) in
  Permutation order (filter eligible rows)
  /\ StronglySorted ascending order
  /\ (forall v, comparable v ->
        filter (same_key v) order = filter (same_key v) (filter eligible rows))
  /\ observable (select_vehicle rows items total_weight item_count lines)
     = observable (allocate_over order rows items total_weight item_count lines).
Proof.
  intros Hc order.
  pose proof (filter_comparable eligible rows Hc) as Hce.
  split; [ apply sort_vehicles_perm | ].
  split; [ apply sorted_ascending;
           [ apply sort_vehicles_comparable | apply sort_vehicles_sorted ];
           exact Hce | ].
  split; [ intros v Hv; apply sort_vehicles_stable; assumption | ].
  subst order. rewrite <- filter_sort_vehicles by exact Hc.
  unfold select_vehicle, allocate_over.
  pose proof (vehicles_loop_filter items (sort_vehicles rows)
                (initial_frame rows total_weight item_count) lines) as H.
  destruct (vehicles_loop items (sort_vehicles rows)
              (initial_frame rows total_weight item_count) lines)
    as [[fr ls] | e [fr ls]];
  destruct (vehicles_loop items (filter eligible (sort_vehicles rows))
              (initial_frame rows total_weight item_count) lines)
    as [[fr' ls'] | e' [fr' ls']];
  unfold observable in *; cbn [raised state fst snd] in *; try discriminate.
  - pose proof (f_equal (fun t => snd (fst t)) H) as Hv.
    pose proof (f_equal snd H) as Hl. cbn [fst snd] in Hv, Hl.
    rewrite (report_visible fr fr' Hv), Hl. reflexivity.
  - exact H.
Qed.

Lemma vehicles_visited_in_sorted_order_witness :
  let rows := [Scenario.ship; Scenario.truck; Scenario.bike] in
  let order := sort_vehicles (filter eligible rows) in
  order = [Scenario.bike; Scenario.truck; Scenario.ship]
  /\ StronglySorted ascending order
  /\ observable (select_vehicle rows Scenario.catalog (kg 6) 3 [mkLine "I1" 3])
     = observable (allocate_over order rows Scenario.catalog (kg 6) 3
                     [mkLine "I1" 3]).
Proof.
  intros rows order.
  destruct (vehicles_visited_in_sorted_order rows Scenario.catalog (kg 6) 3
              [mkLine "I1" 3]) as [_ [H1 [_ H2]]].
  - repeat constructor.
  - split; [ reflexivity | split; [ exact H1 | exact H2 ] ].
Defined.

(** Three free trucks of 100 items each are stored in this order: one of
    maximum weight 5 kg, one whose maximum weight is NaN, one of 3 kg.  No
    comparison with NaN holds, so the sort moves nothing: the truck of 5 kg
    is visited, and loaded, before the truck of 3 kg. *)
Lemma nan_weight_breaks_the_order :
  let v5 := mkVehicle "V5" "Truck" (kg 5) 100 (kg 5) 100 "Oslo, Norway" "free" in
  let vn := mkVehicle "VN" "Truck" S754_nan 100 (kg 5) 100 "Oslo, Norway" "free" in
  let v3 := mkVehicle "V3" "Truck" (kg 3) 100 (kg 3) 100 "Oslo, Norway" "free" in
  let rows := [v5; vn; v3] in
  let order := sort_vehicles (filter eligible rows) in
  order = [v5; vn; v3]
  /\ Max_Capacity_Item_Count v3 = Max_Capacity_Item_Count v5
  /\ Py.ltb (Max_Capacity_Weight v3) (Max_Capacity_Weight v5) = true
  /\ ~ StronglySorted ascending order
  /\ returned (select_vehicle rows Scenario.catalog (kg 2) 1 [mkLine "I1" 1])
     = Some [mkUpdate "V5" "Truck" "in_use" (kg 3) 99].
Proof.
  intros v5 vn v3 rows order.
  assert (E : order = [v5; vn; v3]) by (vm_compute; reflexivity).
  split; [ exact E | ].
  split; [ reflexivity | ].
  split; [ vm_compute; reflexivity | ].
  split; [ | vm_compute; reflexivity ].
  rewrite E. intros H. inversion H as [ | x l _ Hall ].
  inversion Hall as [ | y l' [Hlt | [_ Hle]] _ ].
  - simpl in Hlt. lia.
  - vm_compute in Hle. discriminate.
Qed.

(** ** The capacity invariant (claim C3) *)

(** The data model's invariant on a row. *)
Definition in_range (v : Vehicle) : Prop :=
  Py.leb Py.zero (Remaining_Capacity_Weight v) = true
  /\ Py.leb (Remaining_Capacity_Weight v) (Max_Capacity_Weight v) = true
  /\ 0 <= Remaining_Capacity_Item_Count v
  /\ Remaining_Capacity_Item_Count v <= Max_Capacity_Item_Count v.

(** Its part on the item counts, for a row and for a record of vehicle [v]. *)
Definition items_in_range (v : Vehicle) : Prop :=
  0 <= Remaining_Capacity_Item_Count v
  /\ Remaining_Capacity_Item_Count v <= Max_Capacity_Item_Count v.

Definition record_items_in_range (u : Update) (v : Vehicle) : Prop :=
  0 <= upd_Remaining_Capacity_Item_Count u
  /\ upd_Remaining_Capacity_Item_Count u <= Max_Capacity_Item_Count v.

(** A row of known contents is within range: by computation. *)
Ltac in_range_holds :=
  unfold in_range;
  repeat split; vm_compute; solve [ reflexivity | discriminate ].

Lemma in_range_items (v : Vehicle) : in_range v -> items_in_range v.
Proof. intros [_ [_ H]]. exact H. Qed.

Lemma NoDup_map_eq {A B : Type} (f : A -> B) (l : list A) (a b : A) :
  NoDup (map f l) -> In a l -> In b l -> f a = f b -> a = b.
Proof.
  induction l as [ | x l IH ]; simpl; intros Hnd Ha Hb E; [ contradiction | ].
  inversion Hnd as [ | y l' Hnin Hnd' ]; subst.
  destruct Ha as [Ha | Ha], Hb as [Hb | Hb]; subst.
  - reflexivity.
  - exfalso. apply Hnin. rewrite E. apply in_map. exact Hb.
  - exfalso. apply Hnin. rewrite <- E. apply in_map. exact Ha.
  - apply IH; assumption.
Qed.

Section Capacity.

Variable rows : list Vehicle.
Variable items : list Item.
Hypothesis ids_unique : NoDup (map Vehicle_ID rows).
Hypothesis rows_in_range : Forall items_in_range rows.

(** The store keeps each vehicle's maximum item count, all its rows are in
    range, and so are the records emitted so far. *)
Definition store_ok (fr : Frame) : Prop :=
  (forall row v, In row (vehicle_db fr) -> In v rows ->
                 Vehicle_ID row = Vehicle_ID v ->
                 Max_Capacity_Item_Count row = Max_Capacity_Item_Count v)
  /\ Forall items_in_range (vehicle_db fr)
  /\ Forall (fun u => forall v, In v rows -> Vehicle_ID v = upd_Vehicle_ID u ->
                                record_items_in_range u v) (updates fr).

Definition capacity_between (vs : list Vehicle) (fr : Frame) (_ : list Line) : Prop :=
  store_ok fr /\ incl vs rows.

Definition capacity_inside (v : Vehicle) (vs : list Vehicle) (fr : Frame)
    (_ : list Line) : Prop :=
  store_ok fr /\ incl vs rows /\ In v rows
  /\ 0 <= remaining_item_capacity fr
  /\ remaining_item_capacity fr <= Max_Capacity_Item_Count v.

Lemma capacity_step (v : Vehicle) (rest : list Vehicle) (fr : Frame)
    (pre : list Line) (line : Line) (post : list Line) (r : result (Frame * Line)) :
  capacity_inside v rest fr (pre ++ line :: post) ->
  load_case items v fr line r ->
  capacity_inside v rest (fst (state r)) (pre ++ snd (state r) :: post).
Proof.
  intros Hinv Hcase.
  load_cases Hcase;
    simpl; try exact Hinv.
  - (* a load written to the store *)
    destruct Hinv as [[Hmax [Hdb Hup]] [Hincl [Hv [Hi0 Hi1]]]].
    destruct (loadable_le_capacity _ _ _ _ Hn) as [_ [_ Hcap]].
    assert (Hrange : 0 <= remaining_item_capacity fr1
                     /\ remaining_item_capacity fr1 <= Max_Capacity_Item_Count v).
    { subst fr1. simpl. lia. }
    assert (Hmax' : forall row v0,
               In row (map (write_row (Vehicle_ID v) (update_for v fr1)) (vehicle_db fr)) ->
               In v0 rows -> Vehicle_ID row = Vehicle_ID v0 ->
               Max_Capacity_Item_Count row = Max_Capacity_Item_Count v0).
    { intros row v0 Hrow Hv0 Eid.
      apply in_map_iff in Hrow. destruct Hrow as [row0 [E Hrow0]]. subst row.
      rewrite write_row_id in Eid by reflexivity.
      pose proof (Hmax row0 v0 Hrow0 Hv0 Eid) as M.
      unfold write_row. destruct (String.eqb _ _); simpl; assumption. }
    assert (Hdb' : Forall items_in_range
               (map (write_row (Vehicle_ID v) (update_for v fr1)) (vehicle_db fr))).
    { rewrite Forall_forall in *. intros row' Hrow'.
      apply in_map_iff in Hrow'. destruct Hrow' as [row0 [E Hrow0]]. subst row'.
      unfold write_row.
      destruct (String.eqb (Vehicle_ID row0) (Vehicle_ID v)) eqn:Hid;
        [ | apply Hdb; exact Hrow0 ].
      apply String.eqb_eq in Hid.
      pose proof (Hmax row0 v Hrow0 Hv Hid) as M.
      unfold items_in_range. simpl. rewrite M. exact Hrange. }
    assert (Hup' : Forall (fun u => forall v0, In v0 rows ->
                              Vehicle_ID v0 = upd_Vehicle_ID u ->
                              record_items_in_range u v0)
                          (updates fr1 ++ [update_for v fr1])).
    { apply Forall_app. split; [ subst fr1; exact Hup | ].
      constructor; [ | constructor ].
      intros v' Hv' Eid. simpl in Eid.
      assert (v' = v) by (eapply NoDup_map_eq; eauto). subst v'.
      unfold record_items_in_range. simpl. exact Hrange. }
    unfold capacity_inside, store_ok. simpl.
    split; [ split; [ exact Hmax' | split; [ exact Hdb' | exact Hup' ] ] | ].
    split; [ exact Hincl | split; [ exact Hv | exact Hrange ] ].
  - (* the write failed: only the counters moved *)
    destruct Hinv as [Hst [Hincl [Hv [Hi0 Hi1]]]].
    destruct (loadable_le_capacity _ _ _ _ Hn) as [_ [_ Hcap]].
    unfold capacity_inside. simpl.
    split; [ exact Hst | ].
    split; [ exact Hincl | split; [ exact Hv | lia ] ].
Qed.

Lemma capacity_loop (total_weight : Py.float) (item_count : Z) (lines : list Line) :
  store_ok (fst (state (vehicles_loop items (sort_vehicles rows)
                          (initial_frame rows total_weight item_count) lines))).
Proof.
  assert (Hinit : capacity_between (sort_vehicles rows)
                    (initial_frame rows total_weight item_count) lines).
  { split; [ | apply sort_vehicles_incl ].
    unfold store_ok. simpl. split; [ | split; [ exact rows_in_range | constructor ] ].
    intros row v Hrow Hv E.
    assert (row = v) by (eapply NoDup_map_eq; eauto). subst. reflexivity. }
  destruct (vehicles_loop_invariant items capacity_between capacity_inside)
    with (vs := sort_vehicles rows)
         (fr := initial_frame rows total_weight item_count) (ls := lines)
    as [vs' [Hfin _]].
  - intros v rest f ls [Hst Hincl] _ _.
    split; [ exact Hst | ]. intros x Hx. apply Hincl. right. exact Hx.
  - intros v rest f ls [Hst Hincl] _ Hsk.
    assert (Hv : In v rows) by (apply Hincl; left; reflexivity).
    pose proof rows_in_range as Hr. rewrite Forall_forall in Hr.
    destruct (Hr v Hv) as [C D].
    unfold capacity_inside. simpl.
    split; [ exact Hst | ].
    split; [ intros x Hx; apply Hincl; right; exact Hx | ].
    split; [ exact Hv | auto ].
  - intros. eapply capacity_step; eauto.
  - intros v rest f ls [Hst [Hincl _]]. split; assumption.
  - exact Hinit.
  - exact Hfin.
Qed.

End Capacity.

Lemma select_vehicle_items_in_range (rows : list Vehicle) (items : list Item)
    (total_weight : Py.float) (item_count : Z) (lines : list Line) :
  NoDup (map Vehicle_ID rows) ->
  Forall items_in_range rows ->
  store_ok rows
    (fst (state (select_vehicle rows items total_weight item_count lines))).
Proof.
  intros Hnd Hrange.
  apply select_vehicle_reaches.
  - intros fr H. destruct (report_fields fr) as [_ [_ [Eu [Ed _]]]].
    unfold store_ok. rewrite Eu, Ed. exact H.
  - apply capacity_loop; assumption.
Qed.




(** ** What the list of records holds (claim C5) *)

(** The last record of [us] that names the vehicle [vehicle_id]. *)
Definition last_update_for (vehicle_id : string) (us : list Update) : option Update :=
  find (fun u => String.eqb (upd_Vehicle_ID u) vehicle_id) (rev us).

(** A row after the records [us] were written to the store. *)
Definition apply_last (us : list Update) (row : Vehicle) : Vehicle :=
  match last_update_for (Vehicle_ID row) us with
  | Some u => row_update u row
  | None => row
  end.

Lemma apply_last_id (us : list Update) (row : Vehicle) :
  Vehicle_ID (apply_last us row) = Vehicle_ID row.
Proof.
  unfold apply_last, last_update_for.
  destruct (find _ (rev us)) as [u | ] eqn:Hf; [ | reflexivity ].
  apply find_some in Hf. destruct Hf as [_ E].
  apply String.eqb_eq in E. exact E.
Qed.

Lemma apply_last_snoc (us : list Update) (u : Update) (row : Vehicle) :
  write_row (upd_Vehicle_ID u) u (apply_last us row) = apply_last (us ++ [u]) row.
Proof.
  unfold write_row. rewrite apply_last_id.
  unfold apply_last, last_update_for.
  rewrite rev_app_distr. simpl.
  rewrite (String.eqb_sym (upd_Vehicle_ID u) (Vehicle_ID row)).
  destruct (String.eqb (Vehicle_ID row) (upd_Vehicle_ID u)); [ | reflexivity ].
  destruct (find _ (rev us)); reflexivity.
Qed.

Lemma apply_last_ids (us : list Update) (rows : list Vehicle) :
  map Vehicle_ID (map (apply_last us) rows) = map Vehicle_ID rows.
Proof. rewrite map_map. apply map_ext. intros row. apply apply_last_id. Qed.

Lemma vehicles_loop_store (items : list Item) (rows vs : list Vehicle)
    (fr : Frame) (ls : list Line) :
  vehicle_db fr = map (apply_last (updates fr)) rows ->
  let fr' := fst (state (vehicles_loop items vs fr ls)) in
  vehicle_db fr' = map (apply_last (updates fr')) rows.
Proof.
  intros H.
  pose (P := fun (_ : list Vehicle) (f : Frame) (_ : list Line) =>
               vehicle_db f = map (apply_last (updates f)) rows).
  destruct (vehicles_loop_invariant items P (fun _ => P))
    with (vs := vs) (fr := fr) (ls := ls) as [vs' Hfin]; unfold P in *; auto.
  intros v rest f pre line post r Hinv Hcase.
  load_cases Hcase; simpl; try exact Hinv.
  subst fr1. simpl. rewrite Hinv, map_map. apply map_ext. intros row.
  apply (apply_last_snoc (updates f)
           (update_for v (counters_after f n w)) row).
Qed.

(** The store that [select_vehicle] leaves, from the records it emitted. *)
Lemma select_vehicle_store (rows : list Vehicle) (items : list Item)
    (total_weight : Py.float) (item_count : Z) (lines : list Line) :
  let fr := fst (state (select_vehicle rows items total_weight item_count lines)) in
  vehicle_db fr = map (apply_last (updates fr)) rows.
Proof.
  apply (select_vehicle_reaches
           (fun fr => vehicle_db fr = map (apply_last (updates fr)) rows)).
  - intros fr H. destruct (report_fields fr) as [_ [_ [Eu [Ed _]]]].
    rewrite Eu, Ed. exact H.
  - apply vehicles_loop_store. simpl.
    rewrite <- (map_id rows) at 1. apply map_ext. reflexivity.
Qed.

Definition sumZ (l : list Z) : Z := fold_right Z.add 0 l.

Lemma sumZ_app (a b : list Z) : sumZ (a ++ b) = sumZ a + sumZ b.
Proof. induction a as [ | x a IH ]; simpl; lia. Qed.

(** The units and the weight of a load printed. *)
Definition load_of (m : Msg) : list (Z * Py.float) :=
  match m with
  | Loaded _ _ n _ w => [(n, w)]
  | NotEnoughCapacity => []
  end.

(** The loads printed, and those printed for the vehicle [vehicle_id]. *)
Definition all_loads (ms : list Msg) : list (Z * Py.float) :=
  flat_map load_of ms.

Definition loads_on (vehicle_id : string) (ms : list Msg) : list (Z * Py.float) :=
  flat_map (fun m => match m with
                     | Loaded vid _ _ _ _ =>
                         if String.eqb vid vehicle_id then load_of m else []
                     | NotEnoughCapacity => []
                     end) ms.

Definition units (loads : list (Z * Py.float)) : Z := sumZ (map fst loads).

(** [c] after the weights of [loads] were subtracted from it in turn. *)
Definition less (c : Py.float) (loads : list (Z * Py.float)) : Py.float :=
  fold_left Py.sub (map snd loads) c.

Lemma units_app (a b : list (Z * Py.float)) : units (a ++ b) = units a + units b.
Proof. unfold units. rewrite map_app. apply sumZ_app. Qed.

Lemma less_app (c : Py.float) (a b : list (Z * Py.float)) :
  less c (a ++ b) = less (less c a) b.
Proof. unfold less. rewrite map_app. apply fold_left_app. Qed.

(** [ledger rows items us ms]: the records [us] were emitted with the
    messages [ms], one record per load, and each record carries the
    remaining capacities of its vehicle after its load: what the vehicle had
    left before it -- in its previous record if it has one, in its row
    otherwise -- less the units loaded and the weight loaded. *)
Inductive ledger (rows : list Vehicle) (items : list Item)
  : list Update -> list Msg -> Prop :=
| ledger_nil : ledger rows items [] []
| ledger_load us ms v n item_id item w :
    ledger rows items us ms ->
    In v rows ->
    0 < n ->
    find_item items item_id = Some item ->
    Py.int_mul n (Weight item) = Val w ->
    ledger rows items
      (us ++ [{| upd_Vehicle_ID := Vehicle_ID v;
                 upd_Type := Vehicle_Type v;
                 upd_Status := "in_use";
                 upd_Remaining_Capacity_Weight :=
                   Py.sub (Remaining_Capacity_Weight (apply_last us v)) w;
                 upd_Remaining_Capacity_Item_Count :=
                   Remaining_Capacity_Item_Count (apply_last us v) - n |}])
      (ms ++ [Loaded (Vehicle_ID v) (Vehicle_Type v) n item_id w]).

(** With unique ids, the capacities that the last record of a vehicle
    carries are cumulative: those of its row less all its loads. *)
Lemma ledger_cumulative (rows : list Vehicle) (items : list Item)
    (us : list Update) (ms : list Msg) :
  NoDup (map Vehicle_ID rows) ->
  ledger rows items us ms ->
  forall v, In v rows ->
    Remaining_Capacity_Item_Count (apply_last us v)
    = Remaining_Capacity_Item_Count v - units (loads_on (Vehicle_ID v) ms)
    /\ Remaining_Capacity_Weight (apply_last us v)
       = less (Remaining_Capacity_Weight v) (loads_on (Vehicle_ID v) ms).
Proof.
  intros Hnd. induction 1 as [ | us ms v0 n item_id item w Hl IH Hv0 Hn Hf Hw ];
    intros v Hv.
  - change (apply_last [] v) with v. split; [ unfold units; simpl; lia | reflexivity ].
  - rewrite <- apply_last_snoc. simpl upd_Vehicle_ID.
    unfold loads_on. rewrite flat_map_app. fold (loads_on (Vehicle_ID v) ms).
    simpl flat_map. rewrite app_nil_r.
    unfold write_row. rewrite apply_last_id.
    destruct (IH v Hv) as [IHi IHw].
    destruct (String.eqb (Vehicle_ID v) (Vehicle_ID v0)) eqn:E.
    + apply String.eqb_eq in E.
      assert (v = v0) by (eapply NoDup_map_eq; eauto). subst v0.
      rewrite String.eqb_refl. simpl.
      rewrite units_app, less_app. unfold units at 2, less at 1. simpl.
      rewrite IHi, IHw. split; [ lia | reflexivity ].
    + rewrite String.eqb_sym, E. rewrite app_nil_r. split; assumption.
Qed.

Lemma ledger_records_load (rows : list Vehicle) (items : list Item)
    (us : list Update) (ms : list Msg) :
  ledger rows items us ms ->
  Forall (fun m => exists vid vt n item_id item w,
                     m = Loaded vid vt n item_id w /\ 0 < n
                     /\ In item items
                     /\ Py.int_mul n (Weight item) = Val w) ms.
Proof.
  induction 1 as [ | us ms v0 n item_id item w Hl IH Hv0 Hn Hf Hw ];
    [ constructor | ].
  apply Forall_app. split; [ exact IH | ].
  constructor; [ | constructor ].
  exists (Vehicle_ID v0), (Vehicle_Type v0), n, item_id, item, w.
  repeat split; try assumption.
  apply find_some in Hf. apply Hf.
Qed.

Lemma last_update_for_None (vid : string) (us : list Update) :
  last_update_for vid us = None <-> ~ In vid (map upd_Vehicle_ID us).
Proof.
  unfold last_update_for. split.
  - intros H Hin. apply in_map_iff in Hin. destruct Hin as [u [E Hu]].
    apply in_rev in Hu. pose proof (find_none _ _ H u Hu) as Hn. simpl in Hn.
    apply String.eqb_neq in Hn. contradiction.
  - intros H. destruct (find _ (rev us)) as [u | ] eqn:Hf; [ | reflexivity ].
    apply find_some in Hf. destruct Hf as [Hu E]. apply String.eqb_eq in E.
    exfalso. apply H. rewrite <- E. apply in_map. apply in_rev. exact Hu.
Qed.

Section Ledger.

Variable rows : list Vehicle.
Variable items : list Item.
Variable total_weight : Py.float.
Variable item_count : Z.
Hypothesis ids_unique : NoDup (map Vehicle_ID rows).

(** The records, the output, the store and the two order counters agree. *)
Definition booked (fr : Frame) : Prop :=
  ledger rows items (updates fr) (stdout fr)
  /\ vehicle_db fr = map (apply_last (updates fr)) rows
  /\ remaining_weight fr = less total_weight (all_loads (stdout fr))
  /\ remaining_items fr = item_count - units (all_loads (stdout fr)).

Definition ledger_between (vs : list Vehicle) (fr : Frame) (_ : list Line) : Prop :=
  booked fr
  /\ incl vs rows
  /\ NoDup (map Vehicle_ID vs)
  /\ forall v', In v' vs -> ~ In (Vehicle_ID v') (map upd_Vehicle_ID (updates fr)).

Definition ledger_inside (v : Vehicle) (vs : list Vehicle) (fr : Frame)
    (_ : list Line) : Prop :=
  booked fr
  /\ incl vs rows
  /\ NoDup (map Vehicle_ID vs)
  /\ (forall v', In v' vs ->
        ~ In (Vehicle_ID v') (map upd_Vehicle_ID (updates fr))
        /\ Vehicle_ID v' <> Vehicle_ID v)
  /\ In v rows
  /\ remaining_weight_capacity fr
     = Remaining_Capacity_Weight (apply_last (updates fr) v)
  /\ remaining_item_capacity fr
     = Remaining_Capacity_Item_Count (apply_last (updates fr) v).

Lemma all_loads_app (a b : list Msg) : all_loads (a ++ b) = all_loads a ++ all_loads b.
Proof. apply flat_map_app. Qed.

Lemma ledger_step (v : Vehicle) (rest : list Vehicle) (fr : Frame)
    (pre : list Line) (line : Line) (post : list Line) (r : result (Frame * Line)) :
  ledger_inside v rest fr (pre ++ line :: post) ->
  load_case items v fr line r ->
  ledger_inside v rest (fst (state r)) (pre ++ snd (state r) :: post).
Proof.
  intros Hinv Hcase.
  load_cases Hcase; simpl; try exact Hinv.
  - destruct Hinv as [[Hl [Hdb [Hrw Hri]]] [Hincl [Hnd [Hrest [Hv [Ew Ei]]]]]].
    set (u := update_for v fr1).
    assert (Eu : u = {| upd_Vehicle_ID := Vehicle_ID v;
                        upd_Type := Vehicle_Type v;
                        upd_Status := "in_use";
                        upd_Remaining_Capacity_Weight :=
                          Py.sub (Remaining_Capacity_Weight
                                    (apply_last (updates fr) v)) w;
                        upd_Remaining_Capacity_Item_Count :=
                          Remaining_Capacity_Item_Count
                            (apply_last (updates fr) v) - n |}).
    { unfold u, update_for. subst fr1. simpl. rewrite Ew, Ei. reflexivity. }
    assert (Elast : apply_last (updates fr ++ [u]) v = row_update u v).
    { rewrite <- apply_last_snoc. unfold write_row.
      rewrite apply_last_id. unfold u at 1. simpl. rewrite String.eqb_refl.
      unfold apply_last. destruct (last_update_for _ _); reflexivity. }
    unfold ledger_inside, booked. subst fr1. simpl. fold u.
    split; [ split; [ | split; [ | split ] ] | ].
    + rewrite Eu.
      apply (ledger_load rows items (updates fr) (stdout fr) v n (Item_ID line)
               it w); assumption.
    + rewrite Hdb, map_map. apply map_ext. intros row.
      apply (apply_last_snoc (updates fr) u row).
    + rewrite all_loads_app, less_app, <- Hrw. reflexivity.
    + rewrite all_loads_app, units_app, Hri. unfold units at 3. simpl. lia.
    + split; [ exact Hincl | split; [ exact Hnd | ] ].
      split; [ | split; [ exact Hv | ] ].
      * intros v' Hv'. destruct (Hrest v' Hv') as [Hno Hne].
        split; [ | exact Hne ].
        rewrite map_app, in_app_iff. simpl. intros [H | [H | []]]; auto.
      * rewrite Elast. split; reflexivity.
  - exfalso. destruct Hinv as [[_ [Hdb _]] [_ [_ [_ [Hv _]]]]].
    apply Hnin. rewrite Hdb, apply_last_ids. apply in_map. exact Hv.
Qed.

Lemma ledger_loop (lines : list Line) :
  booked (fst (state (vehicles_loop items (sort_vehicles rows)
                        (initial_frame rows total_weight item_count) lines))).
Proof.
  destruct (vehicles_loop_invariant items ledger_between ledger_inside)
    with (vs := sort_vehicles rows)
         (fr := initial_frame rows total_weight item_count) (ls := lines)
    as [vs' [Hfin _]].
  - intros v rest f ls [Hb [Hincl [Hnd Hno]]] _ _.
    split; [ exact Hb | ].
    split; [ intros x Hx; apply Hincl; right; exact Hx | ].
    split; [ simpl in Hnd; inversion Hnd; assumption | ].
    intros v' Hv'. apply Hno. right. exact Hv'.
  - intros v rest f ls [Hb [Hincl [Hnd Hno]]] _ _.
    simpl in Hnd. inversion Hnd as [ | x l Hnin Hnd' ]; subst.
    assert (Hnone : apply_last (updates f) v = v).
    { unfold apply_last.
      rewrite (proj2 (last_update_for_None _ _) (Hno v (or_introl eq_refl))).
      reflexivity. }
    split; [ exact Hb | ].
    split; [ intros x Hx; apply Hincl; right; exact Hx | ].
    split; [ exact Hnd' | ].
    split; [ | split; [ apply Hincl; left; reflexivity | ] ].
    + intros v' Hv'. split; [ apply Hno; right; exact Hv' | ].
      intros E. apply Hnin. rewrite <- E. apply in_map. exact Hv'.
    + simpl. rewrite Hnone. split; reflexivity.
  - intros. eapply ledger_step; eauto.
  - intros v rest f ls [Hb [Hincl [Hnd [Hrest _]]]].
    split; [ exact Hb | ]. split; [ exact Hincl | ]. split; [ exact Hnd | ].
    intros v' Hv'. apply Hrest. exact Hv'.
  - split; [ | split; [ apply sort_vehicles_incl | split ] ].
    + unfold booked. simpl.
      split; [ constructor | ].
      split; [ rewrite <- (map_id rows) at 1; apply map_ext; reflexivity | ].
      split; [ reflexivity | unfold units; simpl; lia ].
    + apply sort_vehicles_ids. exact ids_unique.
    + intros v' _ [].
  - exact Hfin.
Qed.

End Ledger.

(** The frame that [select_vehicle] reaches, its final message apart. *)
Lemma select_vehicle_booked (rows : list Vehicle) (items : list Item)
    (total_weight : Py.float) (item_count : Z) (lines : list Line) :
  NoDup (map Vehicle_ID rows) ->
  let fr := fst (state (select_vehicle rows items total_weight item_count lines)) in
  exists loads,
    (stdout fr = loads \/ stdout fr = loads ++ [NotEnoughCapacity])
    /\ ledger rows items (updates fr) loads
    /\ remaining_weight fr = less total_weight (all_loads loads)
    /\ remaining_items fr = item_count - units (all_loads loads).
Proof.
  intros Hnd fr.
  destruct (ledger_loop rows items total_weight item_count Hnd lines)
    as [Hl [_ [Hw Hi]]].
  set (f0 := fst (state (vehicles_loop items (sort_vehicles rows)
                    (initial_frame rows total_weight item_count) lines))) in *.
  exists (stdout f0).
  destruct (report_fields f0) as [Ew [Ei [Eu [_ Eo]]]].
  destruct (select_vehicle_state rows items total_weight item_count lines)
    as [_ [E | E]]; fold fr f0 in E; rewrite E.
  - split; [ left; reflexivity | ]. split; [ exact Hl | split; assumption ].
  - rewrite Eu, Ew, Ei.
    split; [ destruct Eo as [Eo | Eo]; rewrite Eo; auto | ].
    split; [ exact Hl | split; assumption ].
Qed.

(** C5, as the code has it.  With unique vehicle ids, the list returned
    holds one record per load of at least one unit, that is one per (vehicle,
    request line) pair that moved units, each paired with the message printed
    for that load; each record carries the remaining capacities of its
    vehicle after its load -- what the previous record of the vehicle, or
    its row if there is none, had left, less this load -- so that the last
    record naming a vehicle carries its cumulative remaining capacities: its
    row's less all its loads; and the store after the call is the store
    before it in which every row took the values of the last record naming
    its vehicle, while a row that no record names is unchanged. *)
Theorem records_per_load_last_is_cumulative
    (rows : list Vehicle) (items : list Item) (total_weight : Py.float)
    (item_count : Z) (lines : list Line) :
  NoDup (map Vehicle_ID rows) ->
  let fr := fst (state (select_vehicle rows items total_weight item_count lines)) in
  exists loads,
    (stdout fr = loads \/ stdout fr = loads ++ [NotEnoughCapacity])
    /\ Forall2 (records_load items) (updates fr) loads
    /\ ledger rows items (updates fr) loads
    /\ (forall v u,
          In v rows -> last_update_for (Vehicle_ID v) (updates fr) = Some u ->
          upd_Remaining_Capacity_Item_Count u
          = Remaining_Capacity_Item_Count v - units (loads_on (Vehicle_ID v) loads)
          /\ upd_Remaining_Capacity_Weight u
             = less (Remaining_Capacity_Weight v) (loads_on (Vehicle_ID v) loads))
    /\ vehicle_db fr = map (apply_last (updates fr)) rows.
Proof.
  intros Hnd fr.
  destruct (select_vehicle_booked rows items total_weight item_count lines Hnd)
    as [loads [Hout [Hl _]]].
  fold fr in Hout, Hl.
  exists loads. split; [ exact Hout | ].
  split.
  { destruct (select_vehicle_records_load rows items total_weight item_count lines)
      as [loads' [Hout' Hrl]]. fold fr in Hout', Hrl.
    assert (loads' = loads); [ | subst; exact Hrl ].
    pose proof (Forall2_length Hrl) as L1.
    assert (L2 : List.length (updates fr) = List.length loads).
    { clear - Hl. induction Hl; [ reflexivity | ].
      rewrite !length_app. simpl. lia. }
    destruct Hout as [E | E], Hout' as [E' | E']; rewrite E in E'.
    - symmetry. exact E'.
    - exfalso. apply (f_equal (@List.length Msg)) in E'.
      rewrite length_app in E'. simpl in E'. lia.
    - exfalso. apply (f_equal (@List.length Msg)) in E'.
      rewrite length_app in E'. simpl in E'. lia.
    - apply app_inj_tail in E'. symmetry. apply E'. }
  split; [ exact Hl | ].
  split; [ | apply select_vehicle_store ].
  intros v u Hv Hlast.
  destruct (ledger_cumulative rows items _ _ Hnd Hl v Hv) as [Hi Hw].
  unfold apply_last in Hi, Hw. rewrite Hlast in Hi, Hw. simpl in Hi, Hw.
  split; assumption.
Qed.

Lemma records_per_load_last_is_cumulative_witness :
  let rows := [Scenario.truck] in
  let fr := fst (state (select_vehicle rows Scenario.catalog (kg 8) 5
                          [mkLine "I1" 3; mkLine "I2" 2])) in
  exists loads,
    (stdout fr = loads \/ stdout fr = loads ++ [NotEnoughCapacity])
    /\ Forall2 (records_load Scenario.catalog) (updates fr) loads
    /\ ledger rows Scenario.catalog (updates fr) loads
    /\ (forall v u,
          In v rows -> last_update_for (Vehicle_ID v) (updates fr) = Some u ->
          upd_Remaining_Capacity_Item_Count u
          = Remaining_Capacity_Item_Count v - units (loads_on (Vehicle_ID v) loads)
          /\ upd_Remaining_Capacity_Weight u
             = less (Remaining_Capacity_Weight v) (loads_on (Vehicle_ID v) loads))
    /\ vehicle_db fr = map (apply_last (updates fr)) rows.
Proof.
  apply (records_per_load_last_is_cumulative [Scenario.truck] Scenario.catalog
           (kg 8) 5 [mkLine "I1" 3; mkLine "I2" 2]).
  repeat constructor. simpl. tauto.
Defined.

(** One truck loaded from two request lines gets two records, the first of
    which does not hold its final capacities.  And when a bike and a truck
    bear the same id, the last record that names the id holds what the truck
    has left after its own load of 3 units, 97 items, not what its row had
    less all the loads printed for the id, 5 units. *)
Lemma two_records_for_one_vehicle :
  let r := returned (select_vehicle [Scenario.truck] Scenario.catalog (kg 8) 5
                       [mkLine "I1" 3; mkLine "I2" 2]) in
  let fr' := fst (state (select_vehicle Scenario.twins Scenario.catalog (kg 10) 5
                           [mkLine "I1" 5])) in
  (r = Some [mkUpdate "T1" "Truck" "in_use" (kg 2994) 97;
             mkUpdate "T1" "Truck" "in_use" (kg 2992) 95]
   /\ forall us, r = Some us -> ~ NoDup (map upd_Vehicle_ID us))
  /\ (stdout fr' = [Loaded "V1" "Bike" 2 "I1" (kg 4);
                    Loaded "V1" "Truck" 3 "I1" (kg 6)]
      /\ last_update_for "V1" (updates fr')
         = Some (mkUpdate "V1" "Truck" "in_use" (kg 2994) 97)
      /\ 100 - units (loads_on "V1" (stdout fr')) = 95).
Proof.
  split; [ | vm_compute; repeat split ].
  split; [ vm_compute; reflexivity | ].
  intros us E Hnd. vm_compute in E. injection E as E. subst us.
  simpl in Hnd. inversion Hnd as [ | x l Hnin _ ]. apply Hnin. left. reflexivity.
Qed.

(** ** Vehicles that are skipped (claim C4) *)


Lemma write_row_other (vid : string) (u : Update) (row : Vehicle) :
  Vehicle_ID row <> vid -> write_row vid u row = row.
Proof.
  intros H. unfold write_row.
  destruct (String.eqb (Vehicle_ID row) vid) eqn:E; [ | reflexivity ].
  apply String.eqb_eq in E. contradiction.
Qed.






(** ** A request line whose item is not in the catalog (claim C7) *)

(** The list [ls] with [x] put at position [n]. *)
Definition put_at {A : Type} (n : nat) (x : A) (ls : list A) : list A :=
  firstn n ls ++ x :: skipn n ls.

(** The same outcome, the request lines transformed by [f]. *)
Definition on_lines (f : list Line -> list Line) (r : result (Frame * list Line))
  : result (Frame * list Line) :=
  match r with
  | Ok (fr, ls) => Ok (fr, f ls)
  | Raise e (fr, ls) => Raise e (fr, f ls)
  end.

Lemma load_item_unresolved (items : list Item) (v : Vehicle) (fr : Frame)
    (line : Line) :
  find_item items (Item_ID line) = None ->
  load_item items v fr line = Ok (fr, line).
Proof. intros H. unfold load_item. rewrite H. reflexivity. Qed.

Lemma lines_loop_length (items : list Item) (v : Vehicle) :
  forall ls fr,
    List.length (snd (state (lines_loop items v fr ls))) = List.length ls.
Proof.
  induction ls as [ | l ls IH ]; intros fr; simpl; [ reflexivity | ].
  destruct (load_item items v fr l) as [[fr' l'] | e [fr' l']]; simpl;
    [ | reflexivity ].
  specialize (IH fr').
  destruct (lines_loop items v fr' ls) as [[fr'' ls'] | e [fr'' ls']];
    simpl in *; congruence.
Qed.

Lemma vehicles_loop_length (items : list Item) :
  forall vs fr ls,
    List.length (snd (state (vehicles_loop items vs fr ls))) = List.length ls.
Proof.
  induction vs as [ | v vs IH ]; intros fr ls; simpl; [ reflexivity | ].
  destruct (exhausted fr); [ reflexivity | ].
  destruct (skipped v); [ apply IH | ].
  pose proof (lines_loop_length items v ls (enter_vehicle v fr)) as Hl.
  destruct (lines_loop items v (enter_vehicle v fr) ls)
    as [[fr2 ls2] | e [fr2 ls2]]; simpl in *; [ | exact Hl ].
  rewrite IH. exact Hl.
Qed.

Lemma lines_loop_put_at (items : list Item) (v : Vehicle) (bad : Line) :
  find_item items (Item_ID bad) = None ->
  forall n ls fr,
    (n <= List.length ls)%nat ->
    lines_loop items v fr (put_at n bad ls)
    = on_lines (put_at n bad) (lines_loop items v fr ls).
Proof.
  intros Hbad. unfold put_at.
  induction n as [ | n IH ]; intros ls fr Hn.
  - simpl. rewrite (load_item_unresolved _ _ _ _ Hbad).
    destruct (lines_loop items v fr ls) as [[fr' ls'] | e [fr' ls']]; reflexivity.
  - destruct ls as [ | l ls ]; [ simpl in Hn; lia | ].
    simpl in Hn. simpl.
    destruct (load_item items v fr l) as [[fr' l'] | e [fr' l']]; simpl;
      [ | reflexivity ].
    rewrite IH by lia.
    destruct (lines_loop items v fr' ls) as [[fr'' ls'] | e [fr'' ls']];
      reflexivity.
Qed.

Lemma vehicles_loop_put_at (items : list Item) (bad : Line) (n : nat) :
  find_item items (Item_ID bad) = None ->
  forall vs ls fr,
    (n <= List.length ls)%nat ->
    vehicles_loop items vs fr (put_at n bad ls)
    = on_lines (put_at n bad) (vehicles_loop items vs fr ls).
Proof.
  intros Hbad.
  induction vs as [ | v vs IH ]; intros ls fr Hn; simpl; [ reflexivity | ].
  destruct (exhausted fr); [ reflexivity | ].
  destruct (skipped v); [ apply IH; exact Hn | ].
  rewrite (lines_loop_put_at items v bad Hbad n ls _ Hn).
  pose proof (lines_loop_length items v ls (enter_vehicle v fr)) as Hl.
  destruct (lines_loop items v (enter_vehicle v fr) ls)
    as [[fr2 ls2] | e [fr2 ls2]]; simpl in *; [ | reflexivity ].
  apply IH. lia.
Qed.

Lemma put_at_length {A : Type} (pre post : list A) (x : A) :
  put_at (List.length pre) x (pre ++ post) = pre ++ x :: post.
Proof.
  unfold put_at.
  rewrite firstn_app, skipn_app, Nat.sub_diag, firstn_all, skipn_all. simpl.
  rewrite app_nil_r. reflexivity.
Qed.

(** C7. A request line whose item id is not in the catalog changes nothing:
    the call with that line inserted anywhere among the others ends the same
    way (it raises exactly when the call without the line does), reaches the
    same frame -- same counters, records, store and output -- and leaves the
    other lines as the call without it does, the line itself untouched at its
    place. *)
Theorem unresolved_line_is_skipped
    (rows : list Vehicle) (items : list Item) (total_weight : Py.float)
    (item_count : Z) (pre post : list Line) (bad : Line) :
  find_item items (Item_ID bad) = None ->
  let r := select_vehicle rows items total_weight item_count (pre ++ bad :: post) in
  let r0 := select_vehicle rows items total_weight item_count (pre ++ post) in
  raised r = raised r0
  /\ fst (state r) = fst (state r0)
  /\ snd (state r) = put_at (List.length pre) bad (snd (state r0)).
Proof.
  intros Hbad r r0. subst r r0. unfold select_vehicle.
  rewrite <- (put_at_length pre post bad).
  rewrite (vehicles_loop_put_at items bad (List.length pre) Hbad)
    by (rewrite length_app; lia).
  destruct (vehicles_loop items (sort_vehicles rows)
              (initial_frame rows total_weight item_count) (pre ++ post))
    as [[fr ls] | e [fr ls]]; simpl; auto.
Qed.

Lemma unresolved_line_is_skipped_witness :
  let r := select_vehicle Scenario.fleet Scenario.catalog (kg 6) 3
             ([mkLine "I1" 2] ++ mkLine "I9" 4 :: [mkLine "I1" 1]) in
  let r0 := select_vehicle Scenario.fleet Scenario.catalog (kg 6) 3
              ([mkLine "I1" 2] ++ [mkLine "I1" 1]) in
  raised r = raised r0
  /\ fst (state r) = fst (state r0)
  /\ snd (state r) = put_at 1 (mkLine "I9" 4) (snd (state r0)).
Proof.
  exact (unresolved_line_is_skipped Scenario.fleet Scenario.catalog (kg 6) 3
           [mkLine "I1" 2] [mkLine "I1" 1] (mkLine "I9" 4) eq_refl).
Defined.

(** ** Conservation (claim C8) *)

Definition total_quantity (lines : list Line) : Z := sumZ (map Quantity lines).

Definition total_items (rows : list Vehicle) : Z :=
  sumZ (map Remaining_Capacity_Item_Count rows).

(** Sum, row by row, of the decrease of the remaining item count. *)
Definition item_decrements (rows rows' : list Vehicle) : Z :=
  sumZ (map (fun p => Remaining_Capacity_Item_Count (fst p)
                      - Remaining_Capacity_Item_Count (snd p))
            (combine rows rows')).

(** Sum, line by line, of the units consumed. *)
Definition units_consumed (lines lines' : list Line) : Z :=
  sumZ (map (fun p => Quantity (fst p) - Quantity (snd p)) (combine lines lines')).

(** [sum(...)] of floats: the additions are made from the left, starting
    at 0. *)
Definition sum_float (l : list Py.float) : Py.float := fold_left Py.add l Py.zero.

(** The unit weight of a line's item; a line whose item does not resolve is
    never consumed and weighs nothing here. *)
Definition unit_weight (items : list Item) (line : Line) : Py.float :=
  match find_item items (Item_ID line) with
  | Some item => Weight item
  | None => Py.zero
  end.

(** Sum, row by row, of the decrease of the remaining weight capacity. *)
Definition weight_decrements (rows rows' : list Vehicle) : Py.float :=
  sum_float (map (fun p => Py.sub (Remaining_Capacity_Weight (fst p))
                                  (Remaining_Capacity_Weight (snd p)))
                 (combine rows rows')).

(** Sum, line by line, of the units consumed times the unit weight. *)
Definition weight_consumed (items : list Item) (lines lines' : list Line)
  : Py.float :=
  sum_float (map (fun p => Py.mul (Py.of_Z (Quantity (fst p) - Quantity (snd p)))
                                  (unit_weight items (fst p)))
                 (combine lines lines')).

Lemma item_decrements_total (rows rows' : list Vehicle) :
  List.length rows = List.length rows' ->
  item_decrements rows rows' = total_items rows - total_items rows'.
Proof.
  unfold item_decrements, total_items.
  revert rows'. induction rows as [ | r rows IH ]; intros [ | r' rows' ] Hlen;
    simpl in *; try discriminate; [ reflexivity | ].
  rewrite IH by congruence. lia.
Qed.

Lemma units_consumed_total (lines lines' : list Line) :
  List.length lines = List.length lines' ->
  units_consumed lines lines' = total_quantity lines - total_quantity lines'.
Proof.
  unfold units_consumed, total_quantity.
  revert lines'. induction lines as [ | l lines IH ]; intros [ | l' lines' ] Hlen;
    simpl in *; try discriminate; [ reflexivity | ].
  rewrite IH by congruence. lia.
Qed.

Lemma total_quantity_take (pre post : list Line) (line : Line) (n : Z) :
  total_quantity (pre ++ take line n :: post)
  = total_quantity (pre ++ line :: post) - n.
Proof.
  unfold total_quantity. rewrite !map_app, !sumZ_app. simpl. lia.
Qed.

Lemma total_write (db : list Vehicle) (row : Vehicle) (u : Update) :
  NoDup (map Vehicle_ID db) -> In row db ->
  total_items (map (write_row (Vehicle_ID row) u) db)
  = total_items db - Remaining_Capacity_Item_Count row
    + upd_Remaining_Capacity_Item_Count u.
Proof.
  unfold total_items.
  induction db as [ | x db IH ]; simpl; intros Hnd Hin; [ contradiction | ].
  inversion Hnd as [ | y l Hnin Hnd' ]; subst.
  destruct Hin as [E | Hin].
  - subst x. unfold write_row at 1. rewrite String.eqb_refl. simpl.
    assert (Hrest : map (write_row (Vehicle_ID row) u) db = db).
    { rewrite <- (map_id db) at 2. apply map_ext_in. intros r Hr.
      apply write_row_other. intros E. apply Hnin. rewrite <- E.
      apply in_map. exact Hr. }
    rewrite Hrest. lia.
  - rewrite write_row_other.
    + rewrite IH by assumption. lia.
    + intros E. apply Hnin. rewrite E. apply in_map. exact Hin.
Qed.

Section Conservation.

Variable rows : list Vehicle.
Variable items : list Item.
Variable lines0 : list Line.
Hypothesis ids_unique : NoDup (map Vehicle_ID rows).

(** The item capacity that the store lost is the units that the lines lost;
    ids are kept on both sides. *)
Definition conserved (fr : Frame) (ls : list Line) : Prop :=
  total_items rows - total_items (vehicle_db fr)
  = total_quantity lines0 - total_quantity ls
  /\ map Vehicle_ID (vehicle_db fr) = map Vehicle_ID rows
  /\ List.length ls = List.length lines0.

Definition conservation_between (vs : list Vehicle) (fr : Frame) (ls : list Line)
  : Prop :=
  conserved fr ls
  /\ NoDup (map Vehicle_ID vs)
  /\ forall v', In v' vs -> In v' (vehicle_db fr).

Definition conservation_inside (v : Vehicle) (vs : list Vehicle) (fr : Frame)
    (ls : list Line) : Prop :=
  conserved fr ls
  /\ NoDup (map Vehicle_ID vs)
  /\ (forall v', In v' vs -> In v' (vehicle_db fr) /\ Vehicle_ID v' <> Vehicle_ID v)
  /\ exists row, In row (vehicle_db fr)
                 /\ Vehicle_ID row = Vehicle_ID v
                 /\ Remaining_Capacity_Item_Count row = remaining_item_capacity fr.

Lemma conservation_step (v : Vehicle) (rest : list Vehicle) (fr : Frame)
    (pre : list Line) (line : Line) (post : list Line) (r : result (Frame * Line)) :
  conservation_inside v rest fr (pre ++ line :: post) ->
  load_case items v fr line r ->
  conservation_inside v rest (fst (state r)) (pre ++ snd (state r) :: post).
Proof.
  intros Hinv Hcase.
  load_cases Hcase;
    simpl; try exact Hinv.
  - destruct Hinv as [[Heq [Hids Hlen]] [Hnd [Hrest [row [Hrow [Eid Erem]]]]]].
    assert (Hnd_db : NoDup (map Vehicle_ID (vehicle_db fr)))
      by (rewrite Hids; exact ids_unique).
    pose proof (total_write (vehicle_db fr) row (update_for v fr1) Hnd_db Hrow)
      as Htot.
    rewrite Eid in Htot.
    split; [ split; [ | split ] | split; [ exact Hnd | split ] ].
    + simpl. rewrite Htot, total_quantity_take. subst fr1. simpl. lia.
    + simpl. rewrite write_rows_ids by reflexivity. exact Hids.
    + rewrite <- Hlen. rewrite !length_app. reflexivity.
    + intros v' Hv'. destruct (Hrest v' Hv') as [Hin' Hne].
      split; [ | exact Hne ]. simpl.
      apply in_map_iff. exists v'. split; [ | exact Hin' ].
      apply write_row_other. exact Hne.
    + exists (write_row (Vehicle_ID v) (update_for v fr1) row). simpl.
      split; [ apply in_map; exact Hrow | ].
      unfold write_row. rewrite Eid, String.eqb_refl. simpl. auto.
  - exfalso. destruct Hinv as [_ [_ [_ [row [Hrow [Eid _]]]]]].
    apply Hnin. rewrite <- Eid. apply in_map. exact Hrow.
Qed.

Lemma conservation_loop (total_weight : Py.float) (item_count : Z) :
  let s := state (vehicles_loop items (sort_vehicles rows)
                    (initial_frame rows total_weight item_count) lines0) in
  conserved (fst s) (snd s).
Proof.
  destruct (vehicles_loop_invariant items conservation_between conservation_inside)
    with (vs := sort_vehicles rows)
         (fr := initial_frame rows total_weight item_count) (ls := lines0)
    as [vs' [Hfin _]].
  - intros v rest f ls [Hc [Hnd Hun]] _ _.
    split; [ exact Hc | ]. simpl in Hnd. inversion Hnd; subst.
    split; [ assumption | ]. intros v' Hv'. apply Hun. right. exact Hv'.
  - intros v rest f ls [Hc [Hnd Hun]] _ _.
    simpl in Hnd. inversion Hnd as [ | x l Hnin Hnd' ]; subst.
    split; [ exact Hc | ]. split; [ exact Hnd' | ]. split.
    + intros v' Hv'. split; [ apply Hun; right; exact Hv' | ].
      intros E. apply Hnin. rewrite <- E. apply in_map. exact Hv'.
    + exists v. split; [ apply Hun; left; reflexivity | ]. split; reflexivity.
  - intros. eapply conservation_step; eauto.
  - intros v rest f ls [Hc [Hnd [Hun _]]].
    split; [ exact Hc | ]. split; [ exact Hnd | ].
    intros v' Hv'. apply Hun. exact Hv'.
  - split; [ | split ].
    + unfold conserved. simpl. split; [ lia | split; reflexivity ].
    + apply sort_vehicles_ids. exact ids_unique.
    + intros v' Hv'. simpl. apply sort_vehicles_incl. exact Hv'.
  - exact Hfin.
Qed.

End Conservation.

Lemma Forall2_map_right {A B : Type} (R : A -> B -> Prop) (f : A -> B)
    (l : list A) :
  (forall a, In a l -> R a (f a)) -> Forall2 R l (map f l).
Proof.
  induction l as [ | a l IH ]; intros H; simpl; constructor.
  - apply H. left. reflexivity.
  - apply IH. intros b Hb. apply H. right. exact Hb.
Qed.

Lemma no_load_units (vs : list Vehicle) :
  sumZ (map (fun v => units (loads_on (Vehicle_ID v) [])) vs) = 0.
Proof. induction vs as [ | v vs IH ]; simpl; [ reflexivity | exact IH ]. Qed.

(** One more load adds its units to the loads of the one vehicle it names. *)
Lemma one_more_load (ms : list Msg) (vid vt : string) (n : Z) (item_id : string)
    (w : Py.float) (vs : list Vehicle) :
  NoDup (map Vehicle_ID vs) ->
  sumZ (map (fun v => units (loads_on (Vehicle_ID v)
                               (ms ++ [Loaded vid vt n item_id w]))) vs)
  = sumZ (map (fun v => units (loads_on (Vehicle_ID v) ms)) vs)
    + (if in_dec string_dec vid (map Vehicle_ID vs) then n else 0).
Proof.
  induction vs as [ | v vs IHv ]; intros Hndv; [ reflexivity | ].
  simpl in Hndv. inversion Hndv as [ | x l Hnin Hndv' ]; subst.
  simpl map. simpl sumZ. rewrite (IHv Hndv').
  unfold loads_on at 1. rewrite flat_map_app.
  fold (loads_on (Vehicle_ID v) ms). rewrite units_app.
  simpl flat_map. rewrite app_nil_r.
  assert (Hone : units [(n, w)] = n) by (unfold units; simpl; lia).
  assert (Hnone : units (@nil (Z * Py.float)) = 0) by reflexivity.
  destruct (String.eqb vid (Vehicle_ID v)) eqn:E;
    [ apply String.eqb_eq in E | apply String.eqb_neq in E ];
    destruct (in_dec string_dec vid (map Vehicle_ID vs)) as [Hin | Hnot];
    destruct (in_dec string_dec vid (Vehicle_ID v :: map Vehicle_ID vs))
      as [Hin' | Hnot'];
    rewrite ?Hone, ?Hnone; try lia; exfalso;
    solve [ apply Hnin; rewrite <- E; exact Hin
          | apply Hnot'; right; exact Hin
          | apply Hnot'; left; symmetry; exact E
          | destruct Hin' as [Hin' | Hin']; [ congruence | contradiction ] ].
Qed.

(** With unique ids, the loads of the vehicles add up to all the loads. *)
Lemma ledger_units (rows : list Vehicle) (items : list Item)
    (us : list Update) (ms : list Msg) :
  NoDup (map Vehicle_ID rows) ->
  ledger rows items us ms ->
  sumZ (map (fun v => units (loads_on (Vehicle_ID v) ms)) rows)
  = units (all_loads ms).
Proof.
  intros Hnd.
  induction 1 as [ | us ms v0 n item_id item w Hl IH Hv0 Hn Hf Hw ].
  - apply no_load_units.
  - rewrite (one_more_load ms _ _ n item_id w rows Hnd), IH.
    unfold all_loads. rewrite flat_map_app. fold (all_loads ms).
    rewrite units_app. unfold units at 3. simpl.
    destruct (in_dec string_dec (Vehicle_ID v0) (map Vehicle_ID rows))
      as [Hin | Hnot]; [ lia | ].
    exfalso. apply Hnot. apply in_map. exact Hv0.
Qed.

Lemma items_lost_sum (us : list Update) (ms : list Msg) (vs : list Vehicle) :
  (forall v, In v vs ->
     Remaining_Capacity_Item_Count (apply_last us v)
     = Remaining_Capacity_Item_Count v - units (loads_on (Vehicle_ID v) ms)) ->
  total_items vs - total_items (map (apply_last us) vs)
  = sumZ (map (fun v => units (loads_on (Vehicle_ID v) ms)) vs).
Proof.
  induction vs as [ | v vs IH ]; intros Hcum; [ reflexivity | ].
  unfold total_items in *. simpl.
  rewrite (Hcum v (or_introl eq_refl)).
  specialize (IH (fun x Hx => Hcum x (or_intror Hx))). lia.
Qed.

(** With unique ids, the item capacity that the rows lose to the records is
    the units of the loads. *)
Lemma ledger_items_lost (rows : list Vehicle) (items : list Item)
    (us : list Update) (ms : list Msg) :
  NoDup (map Vehicle_ID rows) ->
  ledger rows items us ms ->
  total_items rows - total_items (map (apply_last us) rows)
  = units (all_loads ms).
Proof.
  intros Hnd Hl.
  rewrite <- (ledger_units rows items us ms Hnd Hl).
  apply items_lost_sum. intros v Hv.
  apply (ledger_cumulative rows items us ms Hnd Hl v Hv).
Qed.

(** C8, as the code has it.  With unique vehicle ids, units are conserved:
    the sum over the rows of the store of the decrease of the remaining item
    count equals the sum over the request lines of the units consumed, which
    is the number of units of the loads printed.  Weights are floats: each
    load weighs the product, rounded, of its units and the unit weight of
    its item (converted to a float), and that one number is subtracted, with
    rounding, from the order's weight counter and from the remaining weight
    capacity of the vehicle loaded; so the order's weight counter is the
    total weight less every load in turn, and the remaining weight capacity
    of each row is what it was less, in turn, the loads of its vehicle. *)
Theorem units_conserved_weights_subtracted
    (rows : list Vehicle) (items : list Item) (total_weight : Py.float)
    (item_count : Z) (lines : list Line) :
  NoDup (map Vehicle_ID rows) ->
  let s := state (select_vehicle rows items total_weight item_count lines) in
  item_decrements rows (vehicle_db (fst s)) = units_consumed lines (snd s)
  /\ exists loads,
       (stdout (fst s) = loads \/ stdout (fst s) = loads ++ [NotEnoughCapacity])
       /\ Forall2 (records_load items) (updates (fst s)) loads
       /\ units (all_loads loads) = units_consumed lines (snd s)
       /\ remaining_weight (fst s) = less total_weight (all_loads loads)
       /\ Forall2 (fun row row' =>
                     Remaining_Capacity_Weight row'
                     = less (Remaining_Capacity_Weight row)
                            (loads_on (Vehicle_ID row) loads))
                  rows (vehicle_db (fst s)).
Proof.
  intros Hnd s.
  pose proof (conservation_loop rows items lines Hnd total_weight item_count)
    as [Heq [Hids Hlen]].
  set (s0 := state (vehicles_loop items (sort_vehicles rows)
                      (initial_frame rows total_weight item_count) lines)) in *.
  assert (Hs : snd s = snd s0 /\ vehicle_db (fst s) = vehicle_db (fst s0)
               /\ remaining_items (fst s) = remaining_items (fst s0)).
  { destruct (select_vehicle_state rows items total_weight item_count lines)
      as [E1 [E2 | E2]]; fold s s0 in E1, E2; rewrite E1, E2;
      [ auto | ].
    destruct (report_fields (fst s0)) as [_ [Ei [_ [Ed _]]]]. auto. }
  destruct Hs as [Hs1 [Hs2 Hs3]].
  assert (Hunits : item_decrements rows (vehicle_db (fst s))
                   = units_consumed lines (snd s)).
  { rewrite Hs1, Hs2.
    rewrite item_decrements_total, units_consumed_total.
    - exact Heq.
    - symmetry. exact Hlen.
    - rewrite <- (length_map Vehicle_ID rows), <- Hids, length_map. reflexivity. }
  split; [ exact Hunits | ].
  destruct (select_vehicle_booked rows items total_weight item_count lines Hnd)
    as [loads [Hout [Hl [Hw Hi]]]].
  fold s in Hout, Hl, Hw, Hi.
  exists loads. split; [ exact Hout | ].
  split.
  { destruct (select_vehicle_records_load rows items total_weight item_count lines)
      as [loads' [Hout' Hrl]]. fold s in Hout', Hrl.
    assert (loads' = loads); [ | subst; exact Hrl ].
    pose proof (Forall2_length Hrl) as L1.
    assert (L2 : List.length (updates (fst s)) = List.length loads).
    { clear - Hl. induction Hl; [ reflexivity | ].
      rewrite !length_app. simpl. lia. }
    destruct Hout as [E | E], Hout' as [E' | E']; rewrite E in E'.
    - symmetry. exact E'.
    - exfalso. apply (f_equal (@List.length Msg)) in E'.
      rewrite length_app in E'. simpl in E'. lia.
    - exfalso. apply (f_equal (@List.length Msg)) in E'.
      rewrite length_app in E'. simpl in E'. lia.
    - apply app_inj_tail in E'. symmetry. apply E'. }
  split; [ | split; [ exact Hw | ] ].
  - (* the units of the loads are the units that the lines lost *)
    rewrite <- Hunits, Hs2.
    rewrite item_decrements_total
      by (rewrite <- (length_map Vehicle_ID rows), <- Hids, length_map;
          reflexivity).
    pose proof (select_vehicle_store rows items total_weight item_count lines)
      as Hdb.
    simpl in Hdb. fold s in Hdb. rewrite <- Hs2, Hdb.
    symmetry. apply (ledger_items_lost rows items _ _ Hnd Hl).
  - pose proof (select_vehicle_store rows items total_weight item_count lines)
      as Hdb.
    simpl in Hdb. fold s in Hdb. rewrite Hdb.
    apply Forall2_map_right. intros v Hv.
    apply (ledger_cumulative rows items _ _ Hnd Hl v Hv).
Qed.

Lemma units_conserved_weights_subtracted_witness :
  let s := state (select_vehicle Scenario.fleet Scenario.catalog (kg 6) 3
                    [mkLine "I1" 3]) in
  item_decrements Scenario.fleet (vehicle_db (fst s))
  = units_consumed [mkLine "I1" 3] (snd s)
  /\ units_consumed [mkLine "I1" 3] (snd s) = 3
  /\ exists loads,
       units (all_loads loads) = 3
       /\ remaining_weight (fst s) = less (kg 6) (all_loads loads).
Proof.
  intros s.
  destruct (units_conserved_weights_subtracted Scenario.fleet Scenario.catalog
              (kg 6) 3 [mkLine "I1" 3]) as [H1 [loads [_ [_ [Hu [Hw _]]]]]].
  - repeat constructor; simpl; intuition discriminate.
  - fold s in H1, Hu, Hw.
    assert (E : units_consumed [mkLine "I1" 3] (snd s) = 3)
      by (vm_compute; reflexivity).
    split; [ exact H1 | split; [ exact E | ] ].
    exists loads. split; [ rewrite Hu; exact E | exact Hw ].
Defined.

(** A truck takes three letters of 0.1 kg.  The weight consumed from the
    request line, 3 * 0.1, is 0.30000000000000004; the remaining weight
    capacity of the truck goes from 3000 to 2999.7, the float nearest to
    3000 - 0.30000000000000004, so that it decreases by 0.3000000000001819:
    the weight taken off the vehicle is not the weight taken off the line.
    And when a bike and a truck bear the same id, the 5 units consumed from
    the request line are not the decrease of the remaining item counts: the
    record of the truck is written to both rows, whose counts go from 2 and
    100 to 97 and 97. *)
Lemma weight_decrement_is_not_weight_consumed :
  let rows := [Scenario.truck] in
  let items := [Scenario.letter] in
  let lines := [mkLine "I6" 3] in
  let s := state (select_vehicle rows items (Py.mul (kg 3) (Weight Scenario.letter))
                    3 lines) in
  let lines' := [mkLine "I1" 5] in
  let s' := state (select_vehicle Scenario.twins Scenario.catalog (kg 10) 5
                     lines') in
  (NoDup (map Vehicle_ID rows)
   /\ snd s = [mkLine "I6" 0]
   /\ weight_consumed items lines (snd s) = S754_finite false 5404319552844596 (-54)
   /\ weight_decrements rows (vehicle_db (fst s))
      = S754_finite false 5404319552847872 (-54)
   /\ Py.ltb (weight_consumed items lines (snd s))
             (weight_decrements rows (vehicle_db (fst s))) = true)
  /\ (units_consumed lines' (snd s') = 5
      /\ item_decrements Scenario.twins (vehicle_db (fst s')) = -92).
Proof.
  split; [ | vm_compute; repeat split ].
  split; [ repeat constructor; simpl; tauto | ].
  vm_compute. repeat split.
Qed.

(** ** When the allocation raises (claims C10 and C6) *)

(** An item that a line of [ids] would load on a vehicle of [rows] has a zero
    unit weight. *)
Definition zero_weight_reached (rows : list Vehicle) (items : list Item)
    (ids : list string) : Prop :=
  exists item_id item v,
    In item_id ids /\ find_item items item_id = Some item /\ In v rows
    /\ excluded (Vehicle_Type v) (Item_Type item) = false
    /\ Py.is_zero (Weight item) = true.

(** What it takes for [select_vehicle] to raise [e]: a zero unit weight for
    [ZeroDivisionError]; [OverflowError] and the [ValueError] of [int] come
    from a quotient that is infinite or NaN; the [ValueError] of the store
    is never raised. *)
Definition raise_cause (rows : list Vehicle) (items : list Item)
    (ids : list string) (e : exn) : Prop :=
  match e with
  | ZeroDivisionError => zero_weight_reached rows items ids
  | OverflowError | ValueError_NaN => True
  | ValueError _ => False
  end.

Lemma raise_cause_incl (rows : list Vehicle) (items : list Item)
    (ids ids' : list string) (e : exn) :
  incl ids ids' -> raise_cause rows items ids e -> raise_cause rows items ids' e.
Proof.
  intros Hincl. destruct e; simpl; auto.
  intros [i [it [v [Hi H]]]]. exists i, it, v. split; [ apply Hincl, Hi | exact H ].
Qed.

Lemma lines_loop_outcome (rows : list Vehicle) (items : list Item) (v : Vehicle) :
  In v rows ->
  forall ls fr,
    In (Vehicle_ID v) (map Vehicle_ID (vehicle_db fr)) ->
    match lines_loop items v fr ls with
    | Ok (fr', ls') =>
        map Vehicle_ID (vehicle_db fr') = map Vehicle_ID (vehicle_db fr)
        /\ map Item_ID ls' = map Item_ID ls
    | Raise e _ => raise_cause rows items (map Item_ID ls) e
    end.
Proof.
  intros Hv.
  induction ls as [ | line ls IH ]; intros fr Hdb; simpl; [ auto | ].
  assert (Hstep : match load_item items v fr line with
                  | Ok (fr1, line1) =>
                      map Vehicle_ID (vehicle_db fr1) = map Vehicle_ID (vehicle_db fr)
                      /\ Item_ID line1 = Item_ID line
                  | Raise e _ => raise_cause rows items [Item_ID line] e
                  end).
  { load_cases (load_item_case items v fr line); auto.
    - destruct (loadable_exc _ _ _ _ Herr) as [[-> Hz] | [-> | ->]]; simpl; auto.
      exists (Item_ID line), it, v. simpl. auto.
    - rewrite (int_mul_exc _ _ _ Herr). exact I.
    - simpl. split; [ apply write_rows_ids; reflexivity | reflexivity ].
    - contradiction. }
  destruct (load_item items v fr line) as [[fr1 line1] | e [fr1 line1]].
  - destruct Hstep as [Hids1 Hid1].
    specialize (IH fr1). rewrite Hids1 in IH. specialize (IH Hdb).
    destruct (lines_loop items v fr1 ls) as [[fr2 ls2] | e [fr2 ls2]].
    + destruct IH as [Hids2 Hitems2]. split; [ exact Hids2 | ].
      simpl. congruence.
    + eapply raise_cause_incl; [ | exact IH ]. intros x Hx. right. exact Hx.
  - eapply raise_cause_incl; [ | exact Hstep ].
    intros x [<- | []]. left. reflexivity.
Qed.

Lemma vehicles_loop_outcome (rows : list Vehicle) (items : list Item) :
  forall vs fr ls,
    incl vs rows ->
    map Vehicle_ID (vehicle_db fr) = map Vehicle_ID rows ->
    forall e, raised (vehicles_loop items vs fr ls) = Some e ->
              raise_cause rows items (map Item_ID ls) e.
Proof.
  induction vs as [ | v vs IH ]; intros fr ls Hincl Hids e; simpl;
    [ discriminate | ].
  destruct (exhausted fr); [ discriminate | ].
  assert (Hvs : incl vs rows) by (intros x Hx; apply Hincl; right; exact Hx).
  destruct (skipped v); [ apply IH; assumption | ].
  assert (Hv : In v rows) by (apply Hincl; left; reflexivity).
  pose proof (lines_loop_outcome rows items v Hv ls (enter_vehicle v fr)) as Hl.
  simpl in Hl. rewrite Hids in Hl. specialize (Hl (in_map _ _ _ Hv)).
  destruct (lines_loop items v (enter_vehicle v fr) ls)
    as [[fr2 ls2] | e' [fr2 ls2]].
  - destruct Hl as [Hids2 Hitems2]. rewrite <- Hitems2.
    apply IH; [ exact Hvs | exact Hids2 ].
  - simpl. intros E. injection E as <-. exact Hl.
Qed.

Lemma select_vehicle_raises (rows : list Vehicle) (items : list Item)
    (total_weight : Py.float) (item_count : Z) (lines : list Line) (e : exn) :
  raised (select_vehicle rows items total_weight item_count lines) = Some e ->
  raise_cause rows items (map Item_ID lines) e.
Proof.
  unfold select_vehicle. intros H.
  apply (vehicles_loop_outcome rows items (sort_vehicles rows)
           (initial_frame rows total_weight item_count) lines);
    [ apply sort_vehicles_incl | reflexivity | ].
  destruct (vehicles_loop items (sort_vehicles rows)
              (initial_frame rows total_weight item_count) lines)
    as [[fr ls] | e' s]; [ discriminate | exact H ].
Qed.

(** C10, as the code has it.  If every catalog item that a request line
    refers to, and that the fragile-on-Bike rule does not exclude from a
    vehicle of the store, has a strictly positive unit weight, then the
    division of the loadable computation is defined: [select_vehicle] raises
    no [ZeroDivisionError] (and never the [ValueError] of the store); what it
    can still raise is what [int] raises on the quotient, [OverflowError] or
    [ValueError].  And there is an input with such an item of unit weight 0
    on which it raises [ZeroDivisionError]. *)
Theorem division_defined_for_positive_weights :
  (forall rows items total_weight item_count lines,
     (forall line item v,
        In line lines -> find_item items (Item_ID line) = Some item ->
        In v rows -> excluded (Vehicle_Type v) (Item_Type item) = false ->
        Py.ltb Py.zero (Weight item) = true) ->
     let r := select_vehicle rows items total_weight item_count lines in
     raised r = None \/ raised r = Some OverflowError
     \/ raised r = Some ValueError_NaN)
  /\ (exists rows items total_weight item_count lines line item v,
        In line lines /\ find_item items (Item_ID line) = Some item
        /\ In v rows /\ excluded (Vehicle_Type v) (Item_Type item) = false
        /\ Py.is_zero (Weight item) = true
        /\ raised (select_vehicle rows items total_weight item_count lines)
           = Some ZeroDivisionError).
Proof.
  split.
  - intros rows items total_weight item_count lines Hpos r.
    destruct (raised r) as [e | ] eqn:Hr; [ | left; reflexivity ].
    apply select_vehicle_raises in Hr.
    destruct e; simpl in Hr; auto; [ | contradiction ].
    exfalso. destruct Hr as [item_id [item [v [Hid [Hf [Hv [Hex Hz]]]]]]].
    apply in_map_iff in Hid. destruct Hid as [line [E Hline]]. subst item_id.
    pose proof (positive_not_zero _ (Hpos line item v Hline Hf Hv Hex)).
    congruence.
  - exists [Scenario.truck], [Scenario.weightless], (kg 0), 1, [mkLine "I3" 1],
           (mkLine "I3" 1), Scenario.weightless, Scenario.truck.
    vm_compute. repeat split; auto.
Qed.

Lemma division_defined_for_positive_weights_witness :
  let r := select_vehicle Scenario.fleet Scenario.catalog (kg 6) 3
             [mkLine "I1" 3] in
  raised r = None \/ raised r = Some OverflowError
  \/ raised r = Some ValueError_NaN.
Proof.
  apply (proj1 division_defined_for_positive_weights).
  intros line item v [E | []] Hf _ _. subst line.
  injection Hf as <-. reflexivity.
Defined.

(** One unit of 5e-324 kg is asked of a free truck: the unit weight is
    strictly positive, the quotient 1 / 5e-324 is infinite, and [int] raises
    [OverflowError]. *)
Lemma positive_weight_overflows :
  let rows := [Scenario.truck] in
  let items := [Scenario.speck] in
  let lines := [mkLine "I5" 1] in
  (forall line item v,
     In line lines -> find_item items (Item_ID line) = Some item ->
     In v rows -> excluded (Vehicle_Type v) (Item_Type item) = false ->
     Py.ltb Py.zero (Weight item) = true)
  /\ Py.div (Py.min (kg 1) (Remaining_Capacity_Weight Scenario.truck))
            (Weight Scenario.speck) = Val (S754_infinity false)
  /\ raised (select_vehicle rows items (kg 1) 1 lines) = Some OverflowError.
Proof.
  split; [ | vm_compute; split; reflexivity ].
  intros line item v [E | []] Hf _ _. subst line.
  injection Hf as <-. reflexivity.
Qed.

(** ** The shortfall (claim C6) *)

(** Item capacity that the loop can use: that of the vehicles it does not skip. *)
Definition usable_items (v : Vehicle) : Z :=
  if eligible v then Remaining_Capacity_Item_Count v else 0.

Definition fleet_item_capacity (vs : list Vehicle) : Z :=
  sumZ (map usable_items vs).

Lemma sumZ_perm (a b : list Z) : Permutation a b -> sumZ a = sumZ b.
Proof. induction 1; simpl; lia. Qed.

Lemma usable_items_nonneg (v : Vehicle) : 0 <= usable_items v.
Proof.
  unfold usable_items, eligible, skipped.
  destruct (Py.leb (Remaining_Capacity_Weight v) Py.zero); simpl; [ lia | ].
  destruct (Remaining_Capacity_Item_Count v <=? 0) eqn:E; simpl; [ lia | ].
  apply Z.leb_gt in E.
  destruct (String.eqb (Status v) "in_use"); simpl; lia.
Qed.

Lemma fleet_item_capacity_nonneg (vs : list Vehicle) : 0 <= fleet_item_capacity vs.
Proof.
  unfold fleet_item_capacity.
  induction vs as [ | v vs IH ]; simpl; [ lia | ].
  pose proof (usable_items_nonneg v). lia.
Qed.

Lemma vehicles_loop_shortfall (items : list Item) (vs : list Vehicle)
    (fr : Frame) (ls : list Line) :
  remaining_items fr
  - fleet_item_capacity vs
  <= remaining_items (fst (state (vehicles_loop items vs fr ls))).
Proof.
  pose (bound := remaining_items fr - fleet_item_capacity vs).
  pose (B := fun (vs' : list Vehicle) (f : Frame) (_ : list Line) =>
               bound <= remaining_items f - fleet_item_capacity vs').
  pose (I := fun (_ : Vehicle) (vs' : list Vehicle) (f : Frame) (_ : list Line) =>
               bound <= remaining_items f - remaining_item_capacity f
                        - fleet_item_capacity vs'
               /\ 0 <= remaining_item_capacity f).
  destruct (vehicles_loop_invariant items B I) with (vs := vs) (fr := fr) (ls := ls)
    as [vs' Hfin]; unfold B, I in *.
  - intros v rest f l H _ Hsk. simpl.
    unfold fleet_item_capacity in H. simpl in H.
    unfold usable_items at 1, eligible in H. rewrite Hsk in H. simpl in H.
    exact H.
  - intros v rest f l H _ Hsk. simpl.
    unfold fleet_item_capacity in H. simpl in H.
    unfold usable_items at 1, eligible in H. rewrite Hsk in H. simpl in H.
    fold (fleet_item_capacity rest) in H.
    pose proof (usable_items_nonneg v) as Hn.
    unfold usable_items, eligible in Hn. rewrite Hsk in Hn. simpl in Hn.
    split; [ lia | exact Hn ].
  - intros v rest f pre line post r [H1 H2] Hcase.
    load_cases Hcase;
      simpl; try (split; assumption);
      destruct (loadable_le_capacity _ _ _ _ Hn) as [_ [_ Hcap]];
      try subst fr1; simpl; split; lia.
  - intros v rest f l [H1 H2]. lia.
  - unfold bound. lia.
  - pose proof (fleet_item_capacity_nonneg vs'). unfold bound in Hfin. lia.
Qed.

Lemma records_load_not_shortfall (items : list Item) (us : list Update)
    (ms : list Msg) :
  Forall2 (records_load items) us ms -> ~ In NotEnoughCapacity ms.
Proof.
  induction 1 as [ | u m us ms Hum _ IH ]; simpl; [ tauto | ].
  intros [E | Hin]; [ | exact (IH Hin) ].
  destruct Hum as [n [i [it [w [Em _]]]]]. congruence.
Qed.

Lemma select_vehicle_shortfall (rows : list Vehicle) (items : list Item)
    (total_weight : Py.float) (item_count : Z) (lines : list Line) :
  item_count - fleet_item_capacity rows
  <= remaining_items (fst (state (select_vehicle rows items total_weight
                                    item_count lines))).
Proof.
  apply (select_vehicle_reaches
           (fun fr => item_count - fleet_item_capacity rows <= remaining_items fr)).
  - intros fr H. destruct (report_fields fr) as [_ [Ei _]]. rewrite Ei. exact H.
  - pose proof (vehicles_loop_shortfall items (sort_vehicles rows)
                  (initial_frame rows total_weight item_count) lines) as H.
    simpl in H.
    assert (Hcap : fleet_item_capacity (sort_vehicles rows)
                   = fleet_item_capacity rows).
    { unfold fleet_item_capacity. apply sumZ_perm, Permutation_map.
      apply sort_vehicles_perm. }
    rewrite Hcap in H. exact H.
Qed.

Lemma shortfall_printed_iff (rows : list Vehicle) (items : list Item)
    (total_weight : Py.float) (item_count : Z) (lines : list Line) :
  raised (select_vehicle rows items total_weight item_count lines) = None ->
  let fr := fst (state (select_vehicle rows items total_weight item_count lines)) in
  (0 < remaining_items fr -> exists loads, stdout fr = loads ++ [NotEnoughCapacity])
  /\ (In NotEnoughCapacity (stdout fr) -> 0 < remaining_items fr).
Proof.
  intros Hr fr. subst fr. unfold select_vehicle in *.
  pose proof (vehicles_loop_records_load items (sort_vehicles rows)
                (initial_frame rows total_weight item_count) lines
                (Forall2_nil _)) as Hloads.
  destruct (vehicles_loop items (sort_vehicles rows)
              (initial_frame rows total_weight item_count) lines)
    as [[fr ls] | e s]; simpl in *; [ | discriminate ].
  apply records_load_not_shortfall in Hloads.
  unfold report. destruct (0 <? remaining_items fr) eqn:E; simpl.
  - apply Z.ltb_lt in E.
    split; [ intros _; exists (stdout fr); reflexivity | intros _; exact E ].
  - apply Z.ltb_ge in E. split; [ lia | intros H; contradiction ].
Qed.

Lemma returned_of_ok (r : result (Frame * list Line)) :
  raised r = None -> returned r = Some (updates (fst (state r))).
Proof. destruct r as [[fr ls] | e s]; simpl; [ reflexivity | discriminate ]. Qed.

(** C6, as the code has it.  A shortfall of capacity raises nothing and is
    not retried: the only exceptions that [select_vehicle] raises are those
    of the loadable computation -- [ZeroDivisionError] for a zero unit
    weight, [OverflowError] or [ValueError] when [int] is applied to a
    quotient that is infinite or NaN.  When it returns, it returns the list
    of records alone; the shortfall is signalled by printing: the
    not-enough-capacity message is printed, last, exactly when the order's
    item counter is still positive at the end.  That counter is at least the
    item count asked for minus the item capacity of the vehicles that are
    not skipped, so it is positive when that capacity is insufficient. *)
Theorem shortfall_is_printed_not_returned
    (rows : list Vehicle) (items : list Item) (total_weight : Py.float)
    (item_count : Z) (lines : list Line) :
  let r := select_vehicle rows items total_weight item_count lines in
  let fr := fst (state r) in
  (forall e, raised r = Some e ->
             e = ZeroDivisionError \/ e = OverflowError \/ e = ValueError_NaN)
  /\ (raised r = None ->
      returned r = Some (updates fr)
      /\ (0 < remaining_items fr ->
          exists loads, stdout fr = loads ++ [NotEnoughCapacity])
      /\ (In NotEnoughCapacity (stdout fr) -> 0 < remaining_items fr))
  /\ item_count - fleet_item_capacity rows <= remaining_items fr.
Proof.
  intros r fr. split; [ | split ].
  - intros e He. apply select_vehicle_raises in He.
    destruct e; simpl in He; auto. contradiction.
  - intros Hr. split; [ apply returned_of_ok; exact Hr | ].
    apply shortfall_printed_iff. exact Hr.
  - apply select_vehicle_shortfall.
Qed.

(** The bike of scenario C, in use. *)
Definition bike_in_use : Vehicle :=
  mkVehicle "B1" "Bike" (kg 10) 2 (kg 10) 2 "Oslo, Norway" "in_use".

(** Two calls that leave different numbers of units unallocated return the
    same value: the remainder is not part of what is returned.  And a call
    that asks a free bike, which holds 2 items, for 5 units of an item of
    unit weight 0 raises [ZeroDivisionError] and returns nothing. *)
Lemma remainder_is_not_returned :
  let r1 := select_vehicle [bike_in_use] Scenario.catalog (kg 2) 1
              [mkLine "I1" 1] in
  let r5 := select_vehicle [bike_in_use] Scenario.catalog (kg 10) 5
              [mkLine "I1" 5] in
  let r0 := select_vehicle [Scenario.bike] [Scenario.weightless] (kg 0) 5
              [mkLine "I3" 5] in
  (returned r1 = Some [] /\ returned r5 = Some []
   /\ remaining_items (fst (state r1)) = 1
   /\ remaining_items (fst (state r5)) = 5)
  /\ (fleet_item_capacity [Scenario.bike] = 2
      /\ raised r0 = Some ZeroDivisionError /\ returned r0 = None).
Proof. vm_compute. repeat split. Qed.

Lemma shortfall_is_printed_not_returned_witness :
  let r := select_vehicle [bike_in_use] Scenario.catalog (kg 2) 1
             [mkLine "I1" 1] in
  returned r = Some []
  /\ stdout (fst (state r)) = [] ++ [NotEnoughCapacity]
  /\ 1 - fleet_item_capacity [bike_in_use] <= remaining_items (fst (state r)).
Proof.
  intros r.
  destruct (shortfall_is_printed_not_returned [bike_in_use] Scenario.catalog
              (kg 2) 1 [mkLine "I1" 1]) as [_ [H1 H2]].
  fold r in H1, H2.
  destruct (H1 eq_refl) as [Hret _].
  split; [ rewrite Hret; reflexivity | ].
  split; [ reflexivity | exact H2 ].
Defined.

(** * The rest of the vehicle life cycle

    The other operations on the vehicle store ([MyCSV.add_data],
    [MyCSV.remove_data], [Vehicle.add_vehicle], [Vehicle.remove_vehicle],
    [Vehicle.find_vehicle_by_id]), the functions of src/main.py that create,
    remove and release vehicles, and the part of [add_item_to_order] that
    calls [select_vehicle]. *)

(** ** The store, with any dictionary of columns *)

Module Store.

(** A dictionary whose keys are columns of the vehicle file: [None] for a
    key that is absent. *)
Record Patch : Type := mkPatch {
  set_Vehicle_ID : option string;
  set_Type : option string;
  set_Max_Capacity_Weight : option Py.float;
  set_Max_Capacity_Item_Count : option Z;
  set_Remaining_Capacity_Weight : option Py.float;
  set_Remaining_Capacity_Item_Count : option Z;
  set_Current_Position : option string;
  set_Status : option string
}.

Definition or_else {A : Type} (o : option A) (a : A) : A :=
  match o with Some x => x | None => a end.

(** [row.update(update_data)] *)
Definition row_update (p : Patch) (row : Vehicle) : Vehicle :=
  {| Vehicle_ID := or_else (set_Vehicle_ID p) (Vehicle_ID row);
     Vehicle_Type := or_else (set_Type p) (Vehicle_Type row);
     Max_Capacity_Weight :=
       or_else (set_Max_Capacity_Weight p) (Max_Capacity_Weight row);
     Max_Capacity_Item_Count :=
       or_else (set_Max_Capacity_Item_Count p) (Max_Capacity_Item_Count row);
     Remaining_Capacity_Weight :=
       or_else (set_Remaining_Capacity_Weight p) (Remaining_Capacity_Weight row);
     Remaining_Capacity_Item_Count :=
       or_else (set_Remaining_Capacity_Item_Count p)
               (Remaining_Capacity_Item_Count row);
     Current_Position := or_else (set_Current_Position p) (Current_Position row);
     Status := or_else (set_Status p) (Status row) |}.

(** [MyCSV.add_data]: the row is appended to the file. *)
Definition add_data (rows : list Vehicle) (new_entry : Vehicle) : list Vehicle :=
  rows ++ [new_entry].

(** [MyCSV.remove_data('Vehicle ID', search_value)]: the rows that do not
    match are written back; the flag tells whether one matched. *)
Fixpoint remove_data (rows : list Vehicle) (search_value : string)
  : list Vehicle * bool :=
  match rows with
  | [] => ([], false)
  | row :: rest =>
      let (rest', removed) := remove_data rest search_value in
      if negb (String.eqb (Vehicle_ID row) search_value)
      then (row :: rest', removed)
      else (rest', true)
  end.

(** [MyCSV.update_data('Vehicle ID', search_value, update_data)] *)
Fixpoint update_data (rows : list Vehicle) (search_value : string) (p : Patch)
  : list Vehicle * bool :=
  match rows with
  | [] => ([], false)
  | row :: rest =>
      let (rest', updated) := update_data rest search_value p in
      if String.eqb (Vehicle_ID row) search_value
      then (row_update p row :: rest', true)
      else (row :: rest', updated)
  end.

(** [Vehicle.add_vehicle] *)
Definition add_vehicle (rows : list Vehicle) (vehicle_data : Vehicle)
  : list Vehicle :=
  add_data rows vehicle_data.

(** [Vehicle.update_vehicle]: the file is rewritten, then [ValueError] is
    raised if no row matched. *)
Definition update_vehicle (rows : list Vehicle) (vehicle_id : string) (p : Patch)
  : result (list Vehicle) :=
  let (rows', updated) := update_data rows vehicle_id p in
  if updated then Ok rows' else Raise (ValueError vehicle_id) rows'.

(** [Vehicle.remove_vehicle] *)
Definition remove_vehicle (rows : list Vehicle) (vehicle_id : string)
  : result (list Vehicle) :=
  let (rows', removed) := remove_data rows vehicle_id in
  if removed then Ok rows' else Raise (ValueError vehicle_id) rows'.

(** [Vehicle.find_vehicle_by_id] *)
Definition find_vehicle_by_id (rows : list Vehicle) (vehicle_id : string)
  : option Vehicle :=
  find (fun vehicle => String.eqb (Vehicle_ID vehicle) vehicle_id) rows.

End Store.

(** The dictionary that [select_vehicle] builds, as a [Store.Patch]. *)
Definition patch_of_update (u : Update) : Store.Patch :=
  {| Store.set_Vehicle_ID := Some (upd_Vehicle_ID u);
     Store.set_Type := Some (upd_Type u);
     Store.set_Max_Capacity_Weight := None;
     Store.set_Max_Capacity_Item_Count := None;
     Store.set_Remaining_Capacity_Weight := Some (upd_Remaining_Capacity_Weight u);
     Store.set_Remaining_Capacity_Item_Count :=
       Some (upd_Remaining_Capacity_Item_Count u);
     Store.set_Current_Position := None;
     Store.set_Status := Some (upd_Status u) |}.

(** ** Releasing vehicles: [update_vehicle_status], [reset_vehicle_status]
       and the loops of [update_order_status] over the order's vehicles *)

(** What these functions print. *)
Inductive Notice : Type :=
| Position_and_capacities_reset (vehicle_id delivery_location : string)
| Capacities_reset (vehicle_id : string)
| No_vehicle_found (vehicle_id : string).

(** The vehicle store and the output. *)
Record Desk : Type := mkDesk {
  store : list Vehicle;
  printed : list Notice
}.

(** [update_vehicle_status(vehicle_entry, delivery_location)] *)
Definition update_vehicle_status (vehicle_entry : Update)
    (delivery_location : string) (w : Desk) : result Desk :=
  let vehicle_id := upd_Vehicle_ID vehicle_entry in
  match Store.find_vehicle_by_id (store w) vehicle_id with
  | Some vehicle_data =>
      let update_vehicle_data :=
        {| Store.set_Vehicle_ID := None;
           Store.set_Type := None;
           Store.set_Max_Capacity_Weight := None;
           Store.set_Max_Capacity_Item_Count := None;
           Store.set_Remaining_Capacity_Weight :=
             Some (Max_Capacity_Weight vehicle_data);
           Store.set_Remaining_Capacity_Item_Count :=
             Some (Max_Capacity_Item_Count vehicle_data);
           Store.set_Current_Position := Some delivery_location;
           Store.set_Status := Some "free" |} in
      match Store.update_vehicle (store w) vehicle_id update_vehicle_data with
      | Ok rows' =>
          Ok {| store := rows';
                printed := printed w ++
                  [Position_and_capacities_reset vehicle_id delivery_location] |}
      | Raise e rows' => Raise e {| store := rows'; printed := printed w |}
      end
  | None =>
      Ok {| store := store w;
            printed := printed w ++ [No_vehicle_found vehicle_id] |}
  end.

(** [reset_vehicle_status(vehicle_entry)] *)
Definition reset_vehicle_status (vehicle_entry : Update) (w : Desk)
  : result Desk :=
  let vehicle_id := upd_Vehicle_ID vehicle_entry in
  match Store.find_vehicle_by_id (store w) vehicle_id with
  | Some vehicle_data =>
      let update_vehicle_data :=
        {| Store.set_Vehicle_ID := None;
           Store.set_Type := None;
           Store.set_Max_Capacity_Weight := None;
           Store.set_Max_Capacity_Item_Count := None;
           Store.set_Remaining_Capacity_Weight :=
             Some (Max_Capacity_Weight vehicle_data);
           Store.set_Remaining_Capacity_Item_Count :=
             Some (Max_Capacity_Item_Count vehicle_data);
           Store.set_Current_Position := None;
           Store.set_Status := Some "free" |} in
      match Store.update_vehicle (store w) vehicle_id update_vehicle_data with
      | Ok rows' =>
          Ok {| store := rows';
                printed := printed w ++ [Capacities_reset vehicle_id] |}
      | Raise e rows' => Raise e {| store := rows'; printed := printed w |}
      end
  | None =>
      Ok {| store := store w;
            printed := printed w ++ [No_vehicle_found vehicle_id] |}
  end.

(** An element of the list kept in the order's 'Vehicle' column: a record,
    or a list of records. *)
Inductive Entry : Type :=
| Single (vehicle_entry : Update)
| Nested (vehicle_entry : list Update).

(** [for x in xs: f(x)], stopping at the first exception. *)
Fixpoint for_each {A S : Type} (f : A -> S -> result S) (xs : list A) (s : S)
  : result S :=
  match xs with
  | [] => Ok s
  | x :: rest =>
      match f x s with
      | Ok s' => for_each f rest s'
      | Raise e s' => Raise e s'
      end
  end.

(** The two branches of [update_order_status] that walk over
    [vehicles_in_order], the list read from the order; any other status
    leaves the vehicles alone. *)
Definition update_order_status_vehicles (new_status delivery_location : string)
    (vehicles_in_order : list Entry) (w : Desk) : result Desk :=
  if String.eqb new_status "delivered" then
    for_each (fun vehicle_entry =>
                match vehicle_entry with
                | Nested nested =>
                    for_each (fun nested_vehicle =>
                                update_vehicle_status nested_vehicle delivery_location)
                             nested
                | Single entry => update_vehicle_status entry delivery_location
                end)
             vehicles_in_order w
  else if String.eqb new_status "canceled" then
    for_each (fun vehicle_entry =>
                match vehicle_entry with
                | Nested nested => for_each reset_vehicle_status nested
                | Single entry => reset_vehicle_status entry
                end)
             vehicles_in_order w
  else Ok w.

(** ** Creating and removing vehicles: [add_bike], [add_truck], [add_ship],
       [remove_vehicles] *)

(** [repr(Location(city, country))] *)
Definition Location_repr (city country : string) : string :=
  (city ++ "/" ++ country)%string.

(** [add_bike], for the id generated and the position entered. *)
Definition add_bike (rows : list Vehicle) (vehicle_id city country : string)
  : list Vehicle :=
  let max_capacity_weight := kg 10 in
  let max_capacity_items := 2 in
  Store.add_vehicle rows
    {| Vehicle_ID := vehicle_id;
       Vehicle_Type := "Bike";
       Max_Capacity_Weight := max_capacity_weight;
       Max_Capacity_Item_Count := max_capacity_items;
       Remaining_Capacity_Weight := max_capacity_weight;
       Remaining_Capacity_Item_Count := max_capacity_items;
       Current_Position := Location_repr city country;
       Status := "free" |}.

(** [add_truck] *)
Definition add_truck (rows : list Vehicle) (vehicle_id city country : string)
  : list Vehicle :=
  let max_capacity_weight := kg 3000 in
  let max_capacity_items := 100 in
  Store.add_vehicle rows
    {| Vehicle_ID := vehicle_id;
       Vehicle_Type := "Truck";
       Max_Capacity_Weight := max_capacity_weight;
       Max_Capacity_Item_Count := max_capacity_items;
       Remaining_Capacity_Weight := max_capacity_weight;
       Remaining_Capacity_Item_Count := max_capacity_items;
       Current_Position := Location_repr city country;
       Status := "free" |}.

(** [add_ship] *)
Definition add_ship (rows : list Vehicle) (vehicle_id city country : string)
  : list Vehicle :=
  let max_capacity_weight := kg 100000 in
  let max_capacity_items := 10000 in
  Store.add_vehicle rows
    {| Vehicle_ID := vehicle_id;
       Vehicle_Type := "Ship";
       Max_Capacity_Weight := max_capacity_weight;
       Max_Capacity_Item_Count := max_capacity_items;
       Remaining_Capacity_Weight := max_capacity_weight;
       Remaining_Capacity_Item_Count := max_capacity_items;
       Current_Position := Location_repr city country;
       Status := "free" |}.

(** What [remove_vehicles] prints. *)
Inductive Removal_notice : Type :=
| No_vehicles_available
| Vehicle_table (vehicles : list Vehicle)
| Cannot_remove_in_use (vehicle_id : string)
| Vehicle_removed (vehicle_id : string)
| Removal_error (e : exn)
| No_vehicle_with_id (vehicle_id : string).

(** [remove_vehicles], for the id entered at the prompt.  The loop over the
    vehicles stops at the first one that bears the id. *)
Definition remove_vehicles (rows : list Vehicle) (vehicle_id : string)
  : list Vehicle * list Removal_notice :=
  let vehicles := rows in
  match vehicles with
  | [] => (rows, [No_vehicles_available])
  | _ :: _ =>
      match find (fun vehicle => String.eqb (Vehicle_ID vehicle) vehicle_id)
                 vehicles with
      | Some vehicle =>
          if String.eqb (Status vehicle) "in_use"
          then (rows, [Vehicle_table vehicles; Cannot_remove_in_use vehicle_id])
          else
            match Store.remove_vehicle rows vehicle_id with
            | Ok rows' =>
                (rows', [Vehicle_table vehicles; Vehicle_removed vehicle_id])
            | Raise e rows' => (rows', [Vehicle_table vehicles; Removal_error e])
            end
      | None => (rows, [Vehicle_table vehicles; No_vehicle_with_id vehicle_id])
      end
  end.

(** ** The order's items and the call of [select_vehicle] in
       [add_item_to_order] *)

(** The dictionary [new_item]. *)
Record Order_item : Type := mkOrder_item {
  oi_Item_ID : string;
  oi_Quantity : Z;
  oi_Weight : Py.float;
  oi_Price_per_kg : Py.float
}.

(** [Item.find_item_by_id] *)
Definition find_item_by_id (items : list Item) (item_id : string) : option Item :=
  find (fun item => String.eqb (ID item) item_id) items.

(** The loop that builds [order_items]: each choice is the item id entered
    and the quantity entered for it; the quantity is asked only when the item
    is found, and a choice whose item is not found is passed over.  The
    product [quantity * float(weight)] raises [OverflowError] when the
    quantity is too large for a float. *)
Fixpoint choose_items (items : list Item) (choices : list (string * Z))
  : value (list Order_item) :=
  match choices with
  | [] => Val []
  | (item_choice, quantity) :: rest =>
      match find_item_by_id items item_choice with
      | None => choose_items items rest
      | Some selected_item =>
          Py.bind (Py.int_mul quantity (Weight selected_item)) (fun item_weight =>
          Py.bind (choose_items items rest) (fun order_items =>
          Val ({| oi_Item_ID := ID selected_item;
                  oi_Quantity := quantity;
                  oi_Weight := item_weight;
                  oi_Price_per_kg := Price_per_kg selected_item |}
               :: order_items)))
      end
  end.

(** [sum(...)] of ints: the additions are made from the left, starting at 0. *)
Definition sum_int (l : list Z) : Z := fold_left Z.add l 0.

(** From the computation of the totals to the append to [order_vehicles]:
    the outcome of [select_vehicle] and the new [order_vehicles]. *)
Definition allocate_order_items (rows : list Vehicle) (items : list Item)
    (order_items : list Order_item) (order_vehicles : list Entry)
  : result (Frame * list Line) * list Entry :=
  let total_weight := sum_float (map oi_Weight order_items) in
  let total_item_count := sum_int (map oi_Quantity order_items) in
  let items_ids_and_quantities :=
    map (fun item => {| Item_ID := oi_Item_ID item; Quantity := oi_Quantity item |})
        order_items in
  let r := select_vehicle rows items total_weight total_item_count
                          items_ids_and_quantities in
  match returned r with
  | Some (u :: us) => (r, order_vehicles ++ [Nested (u :: us)])
  | _ => (r, order_vehicles)
  end.

(** ** Properties of the store operations *)

Definition write_patch (vehicle_id : string) (p : Store.Patch) (row : Vehicle)
  : Vehicle :=
  if String.eqb (Vehicle_ID row) vehicle_id then Store.row_update p row else row.

Definition has_id (vehicle_id : string) (row : Vehicle) : bool :=
  String.eqb (Vehicle_ID row) vehicle_id.

Lemma store_update_data_fst (rows : list Vehicle) (vid : string) (p : Store.Patch) :
  fst (Store.update_data rows vid p) = map (write_patch vid p) rows.
Proof.
  induction rows as [ | row rest IH ]; simpl; [ reflexivity | ].
  destruct (Store.update_data rest vid p) as [rest' b]; simpl in IH; subst rest'.
  unfold write_patch.
  destruct (String.eqb (Vehicle_ID row) vid); simpl; reflexivity.
Qed.

Lemma store_update_data_snd (rows : list Vehicle) (vid : string) (p : Store.Patch) :
  snd (Store.update_data rows vid p) = existsb (has_id vid) rows.
Proof.
  induction rows as [ | row rest IH ]; simpl; [ reflexivity | ].
  destruct (Store.update_data rest vid p) as [rest' b]; simpl in IH; subst b.
  unfold has_id.
  destruct (String.eqb (Vehicle_ID row) vid); simpl; reflexivity.
Qed.

Lemma store_remove_data_fst (rows : list Vehicle) (vid : string) :
  fst (Store.remove_data rows vid) = filter (fun row => negb (has_id vid row)) rows.
Proof.
  induction rows as [ | row rest IH ]; simpl; [ reflexivity | ].
  destruct (Store.remove_data rest vid) as [rest' b]; simpl in IH; subst rest'.
  unfold has_id.
  destruct (String.eqb (Vehicle_ID row) vid); simpl; reflexivity.
Qed.

Lemma store_remove_data_snd (rows : list Vehicle) (vid : string) :
  snd (Store.remove_data rows vid) = existsb (has_id vid) rows.
Proof.
  induction rows as [ | row rest IH ]; simpl; [ reflexivity | ].
  destruct (Store.remove_data rest vid) as [rest' b]; simpl in IH; subst b.
  unfold has_id.
  destruct (String.eqb (Vehicle_ID row) vid); simpl; reflexivity.
Qed.

Lemma existsb_has_id (rows : list Vehicle) (vid : string) :
  existsb (has_id vid) rows = true <-> In vid (map Vehicle_ID rows).
Proof.
  rewrite existsb_exists, in_map_iff. unfold has_id.
  split; intros [row [H1 H2]]; exists row.
  - apply String.eqb_eq in H2. tauto.
  - split; [ tauto | apply String.eqb_eq; tauto ].
Qed.

Lemma find_has_id_None (rows : list Vehicle) (vid : string) :
  Store.find_vehicle_by_id rows vid = None <-> ~ In vid (map Vehicle_ID rows).
Proof.
  unfold Store.find_vehicle_by_id. split.
  - intros H Hin. apply in_map_iff in Hin. destruct Hin as [row [E Hrow]].
    pose proof (find_none _ _ H row Hrow) as Hn. simpl in Hn.
    apply String.eqb_neq in Hn. contradiction.
  - intros H. destruct (find _ rows) as [row | ] eqn:Hf; [ | reflexivity ].
    apply find_some in Hf. destruct Hf as [Hrow E]. apply String.eqb_eq in E.
    exfalso. apply H. rewrite <- E. apply in_map. exact Hrow.
Qed.

(** [select_vehicle]'s own writes go through the same [update_data]. *)
Lemma update_data_as_patch (rows : list Vehicle) (vid : string) (u : Update) :
  Store.update_data rows vid (patch_of_update u) = update_data rows vid u.
Proof.
  induction rows as [ | row rest IH ]; simpl; [ reflexivity | ].
  rewrite IH. destruct (update_data rest vid u) as [rest' b].
  destruct (String.eqb (Vehicle_ID row) vid); reflexivity.
Qed.

(** X1. [Vehicle.remove_vehicle] raises [ValueError] exactly when no row bears
    the id, and then leaves the rows as they were; otherwise it removes every
    row that bears the id and no other: afterwards the id is not found, and
    looking up any other id gives what it gave before. *)
Theorem remove_vehicle_removes_exactly (rows : list Vehicle) (vid : string) :
  let r := Store.remove_vehicle rows vid in
  (raised r = None <-> In vid (map Vehicle_ID rows))
  /\ (raised r <> None -> raised r = Some (ValueError vid) /\ state r = rows)
  /\ state r = filter (fun row => negb (has_id vid row)) rows
  /\ Store.find_vehicle_by_id (state r) vid = None
  /\ (forall other, other <> vid ->
        Store.find_vehicle_by_id (state r) other
        = Store.find_vehicle_by_id rows other).
Proof.
  intros r. subst r. unfold Store.remove_vehicle.
  pose proof (store_remove_data_fst rows vid) as Hf.
  pose proof (store_remove_data_snd rows vid) as Hs.
  destruct (Store.remove_data rows vid) as [rows' b]; simpl in Hf, Hs. subst rows'.
  assert (Hstate : forall e, state (if b then Ok (filter (fun row => negb (has_id vid row)) rows)
                                    else Raise e (filter (fun row => negb (has_id vid row)) rows))
                             = filter (fun row => negb (has_id vid row)) rows)
    by (intros e; destruct b; reflexivity).
  rewrite Hstate.
  split; [ | split; [ | split; [ reflexivity | split ] ] ].
  - rewrite <- existsb_has_id, <- Hs. destruct b; simpl; split; congruence.
  - destruct b; simpl; [ congruence | ]. intros _. split; [ reflexivity | ].
    symmetry in Hs. clear Hstate.
    induction rows as [ | row rest IH ]; [ reflexivity | ].
    simpl in *. apply orb_false_iff in Hs. destruct Hs as [H1 H2].
    rewrite H1. simpl. f_equal. apply IH. exact H2.
  - apply find_has_id_None. intros Hin. apply in_map_iff in Hin.
    destruct Hin as [row [E Hrow]]. apply filter_In in Hrow.
    destruct Hrow as [_ Hn]. unfold has_id in Hn. rewrite E in Hn.
    rewrite String.eqb_refl in Hn. discriminate.
  - intros other Hne. unfold Store.find_vehicle_by_id. clear Hs Hstate.
    induction rows as [ | row rest IH ]; [ reflexivity | ].
    simpl. unfold has_id at 1.
    destruct (String.eqb (Vehicle_ID row) vid) eqn:E1; simpl.
    + apply String.eqb_eq in E1.
      destruct (String.eqb (Vehicle_ID row) other) eqn:E2; [ | exact IH ].
      apply String.eqb_eq in E2. congruence.
    + destruct (String.eqb (Vehicle_ID row) other); [ reflexivity | exact IH ].
Qed.

(** X2. Looking up an id after [Vehicle.add_vehicle]: a row that already bore
    the id is still the one found -- the added vehicle is shadowed -- and
    otherwise the added vehicle is found exactly under its own id. *)
Theorem find_after_add_vehicle (rows : list Vehicle) (v : Vehicle) (vid : string) :
  Store.find_vehicle_by_id (Store.add_vehicle rows v) vid
  = match Store.find_vehicle_by_id rows vid with
    | Some row => Some row
    | None => if String.eqb (Vehicle_ID v) vid then Some v else None
    end.
Proof.
  unfold Store.find_vehicle_by_id, Store.add_vehicle, Store.add_data.
  induction rows as [ | row rest IH ]; simpl.
  - destruct (String.eqb (Vehicle_ID v) vid); reflexivity.
  - destruct (String.eqb (Vehicle_ID row) vid); [ reflexivity | exact IH ].
Qed.

(** ** Properties of the release of vehicles *)

(** A row released: free, remaining capacities back to the maxima of
    [vehicle_data], and moved to [position] if there is one. *)
Definition released_as (vehicle_data : Vehicle) (position : option string)
    (row : Vehicle) : Vehicle :=
  {| Vehicle_ID := Vehicle_ID row;
     Vehicle_Type := Vehicle_Type row;
     Max_Capacity_Weight := Max_Capacity_Weight row;
     Max_Capacity_Item_Count := Max_Capacity_Item_Count row;
     Remaining_Capacity_Weight := Max_Capacity_Weight vehicle_data;
     Remaining_Capacity_Item_Count := Max_Capacity_Item_Count vehicle_data;
     Current_Position := Store.or_else position (Current_Position row);
     Status := "free" |}.

(** The row released to its own maxima. *)
Definition release_row (position : option string) (row : Vehicle) : Vehicle :=
  released_as row position row.

(** The store once [reset_vehicle_status] (no position) or
    [update_vehicle_status] (a position) was called for [vehicle_id]. *)
Definition store_released (position : option string) (vehicle_id : string)
    (rows : list Vehicle) : list Vehicle :=
  match Store.find_vehicle_by_id rows vehicle_id with
  | Some vehicle_data =>
      map (fun row => if has_id vehicle_id row
                      then released_as vehicle_data position row else row) rows
  | None => rows
  end.

Lemma store_update_vehicle_found (rows : list Vehicle) (vid : string)
    (p : Store.Patch) (v : Vehicle) :
  Store.find_vehicle_by_id rows vid = Some v ->
  Store.update_vehicle rows vid p = Ok (map (write_patch vid p) rows).
Proof.
  intros Hf. unfold Store.update_vehicle.
  pose proof (store_update_data_fst rows vid p) as H1.
  pose proof (store_update_data_snd rows vid p) as H2.
  destruct (Store.update_data rows vid p) as [rows' b]; simpl in H1, H2.
  subst rows'.
  assert (Hb : b = true).
  { rewrite H2. apply existsb_has_id.
    destruct (in_dec string_dec vid (map Vehicle_ID rows)) as [Hin | Hnin];
      [ exact Hin | ].
    apply find_has_id_None in Hnin. congruence. }
  rewrite Hb. reflexivity.
Qed.

Lemma reset_vehicle_status_store (e : Update) (w : Desk) :
  raised (reset_vehicle_status e w) = None
  /\ store (state (reset_vehicle_status e w))
     = store_released None (upd_Vehicle_ID e) (store w).
Proof.
  unfold reset_vehicle_status, store_released.
  destruct (Store.find_vehicle_by_id (store w) (upd_Vehicle_ID e)) as [v | ] eqn:Hf;
    [ | split; reflexivity ].
  rewrite (store_update_vehicle_found _ _ _ v Hf). simpl.
  split; [ reflexivity | ].
  apply map_ext. intros row. unfold write_patch, has_id.
  destruct (String.eqb (Vehicle_ID row) (upd_Vehicle_ID e)); reflexivity.
Qed.

Lemma update_vehicle_status_store (e : Update) (loc : string) (w : Desk) :
  raised (update_vehicle_status e loc w) = None
  /\ store (state (update_vehicle_status e loc w))
     = store_released (Some loc) (upd_Vehicle_ID e) (store w).
Proof.
  unfold update_vehicle_status, store_released.
  destruct (Store.find_vehicle_by_id (store w) (upd_Vehicle_ID e)) as [v | ] eqn:Hf;
    [ | split; reflexivity ].
  rewrite (store_update_vehicle_found _ _ _ v Hf). simpl.
  split; [ reflexivity | ].
  apply map_ext. intros row. unfold write_patch, has_id.
  destruct (String.eqb (Vehicle_ID row) (upd_Vehicle_ID e)); reflexivity.
Qed.

Lemma find_map_keeping_id (f : Vehicle -> Vehicle) (rows : list Vehicle)
    (vid : string) :
  (forall row, Vehicle_ID (f row) = Vehicle_ID row) ->
  Store.find_vehicle_by_id (map f rows) vid
  = option_map f (Store.find_vehicle_by_id rows vid).
Proof.
  intros Hid. unfold Store.find_vehicle_by_id.
  induction rows as [ | row rest IH ]; simpl; [ reflexivity | ].
  rewrite Hid. destruct (String.eqb (Vehicle_ID row) vid); [ reflexivity | exact IH ].
Qed.

Lemma store_released_twice (position : option string) (vid : string)
    (rows : list Vehicle) :
  store_released position vid (store_released position vid rows)
  = store_released position vid rows.
Proof.
  unfold store_released.
  destruct (Store.find_vehicle_by_id rows vid) as [v | ] eqn:Hf;
    [ | rewrite Hf; reflexivity ].
  rewrite find_map_keeping_id, Hf
    by (intros row; destruct (has_id vid row); reflexivity).
  simpl.
  assert (Hv : has_id vid v = true).
  { apply find_some in Hf. apply Hf. }
  rewrite Hv, map_map. apply map_ext. intros row.
  destruct (has_id vid row) eqn:Hrow.
  - unfold has_id in *. simpl. rewrite Hrow. unfold released_as. simpl.
    destruct position; reflexivity.
  - rewrite Hrow. reflexivity.
Qed.

(** X3. Releasing a vehicle twice is the same as releasing it once, for
    [reset_vehicle_status] and for [update_vehicle_status] with the same
    delivery location, whatever the store holds (also rows sharing an id);
    and neither raises. *)
Theorem release_is_idempotent (e : Update) (loc : string) (w : Desk) :
  raised (reset_vehicle_status e w) = None
  /\ raised (update_vehicle_status e loc w) = None
  /\ store (state (reset_vehicle_status e (state (reset_vehicle_status e w))))
     = store (state (reset_vehicle_status e w))
  /\ store (state (update_vehicle_status e loc
                     (state (update_vehicle_status e loc w))))
     = store (state (update_vehicle_status e loc w)).
Proof.
  split; [ apply reset_vehicle_status_store | ].
  split; [ apply update_vehicle_status_store | ].
  split.
  - rewrite !(proj2 (reset_vehicle_status_store _ _)).
    apply store_released_twice.
  - rewrite !(proj2 (update_vehicle_status_store _ _ _)).
    apply store_released_twice.
Qed.

(** The vehicle ids that the order's list names, nested or not. *)
Definition entry_ids (e : Entry) : list string :=
  match e with
  | Single u => [upd_Vehicle_ID u]
  | Nested us => map upd_Vehicle_ID us
  end.

Definition named (entries : list Entry) : list string :=
  flat_map entry_ids entries.

(** A row released if its id is among [ids], left alone otherwise. *)
Definition release_named (position : option string) (ids : list string)
    (row : Vehicle) : Vehicle :=
  if existsb (fun vid => has_id vid row) ids
  then release_row position row else row.

Lemma release_named_id (position : option string) (ids : list string)
    (row : Vehicle) :
  Vehicle_ID (release_named position ids row) = Vehicle_ID row.
Proof. unfold release_named. destruct (existsb _ ids); reflexivity. Qed.

Lemma release_named_ids (position : option string) (ids : list string)
    (rows : list Vehicle) :
  map Vehicle_ID (map (release_named position ids) rows) = map Vehicle_ID rows.
Proof.
  rewrite map_map. apply map_ext. intros row. apply release_named_id.
Qed.

Lemma release_named_app (position : option string) (ids1 ids2 : list string)
    (row : Vehicle) :
  release_named position ids2 (release_named position ids1 row)
  = release_named position (ids1 ++ ids2) row.
Proof.
  unfold release_named at 1 3. rewrite existsb_app.
  unfold has_id. rewrite release_named_id. fold (has_id) .
  unfold release_named.
  destruct (existsb (fun vid => String.eqb (Vehicle_ID row) vid) ids1) eqn:E1;
    unfold has_id; rewrite E1; simpl.
  - destruct (existsb _ ids2); [ | reflexivity ].
    unfold release_row, released_as. simpl. destruct position; reflexivity.
  - reflexivity.
Qed.

Lemma store_released_unique (position : option string) (vid : string)
    (rows : list Vehicle) :
  NoDup (map Vehicle_ID rows) ->
  store_released position vid rows = map (release_named position [vid]) rows.
Proof.
  intros Hnd. unfold store_released.
  destruct (Store.find_vehicle_by_id rows vid) as [v | ] eqn:Hf.
  - apply find_some in Hf. destruct Hf as [Hv Hid].
    apply map_ext_in. intros row Hrow. unfold release_named. simpl.
    rewrite orb_false_r.
    destruct (has_id vid row) eqn:E; [ | reflexivity ].
    assert (row = v).
    { apply (NoDup_map_eq Vehicle_ID rows); try assumption.
      unfold has_id in *. apply String.eqb_eq in E, Hid. congruence. }
    subst row. reflexivity.
  - rewrite <- (map_id rows) at 1. apply map_ext_in. intros row Hrow.
    unfold release_named. simpl. rewrite orb_false_r.
    destruct (has_id vid row) eqn:E; [ | reflexivity ].
    exfalso. apply find_has_id_None in Hf. apply Hf.
    unfold has_id in E. apply String.eqb_eq in E. rewrite <- E.
    apply in_map. exact Hrow.
Qed.

(** What the loops of [update_order_status] do with one element of the list. *)
Definition release_entry (release : Update -> Desk -> result Desk) (e : Entry)
  : Desk -> result Desk :=
  match e with
  | Nested nested => for_each release nested
  | Single entry => release entry
  end.

Section Release_all.

Variable position : option string.
Variable release : Update -> Desk -> result Desk.
Hypothesis release_store : forall e w,
  raised (release e w) = None
  /\ store (state (release e w))
     = store_released position (upd_Vehicle_ID e) (store w).

Lemma release_each (us : list Update) :
  forall w,
    NoDup (map Vehicle_ID (store w)) ->
    raised (for_each release us w) = None
    /\ store (state (for_each release us w))
       = map (release_named position (map upd_Vehicle_ID us)) (store w).
Proof.
  induction us as [ | u us IH ]; intros w Hnd; simpl.
  - split; [ reflexivity | ].
    rewrite <- (map_id (store w)) at 1. apply map_ext. reflexivity.
  - destruct (release_store u w) as [Hr Hs].
    destruct (release u w) as [w1 | e w1]; simpl in Hr, Hs; [ | discriminate ].
    rewrite store_released_unique in Hs by exact Hnd.
    destruct (IH w1) as [Hr' Hs'].
    { rewrite Hs, release_named_ids. exact Hnd. }
    split; [ exact Hr' | ].
    rewrite Hs', Hs, map_map. apply map_ext. intros row.
    apply (release_named_app position [upd_Vehicle_ID u]).
Qed.

Lemma release_entries (es : list Entry) :
  forall w,
    NoDup (map Vehicle_ID (store w)) ->
    raised (for_each (release_entry release) es w) = None
    /\ store (state (for_each (release_entry release) es w))
       = map (release_named position (named es)) (store w).
Proof.
  induction es as [ | e es IH ]; intros w Hnd; simpl.
  - split; [ reflexivity | ].
    rewrite <- (map_id (store w)) at 1. apply map_ext. reflexivity.
  - assert (Hstep :
      raised (release_entry release e w) = None
      /\ store (state (release_entry release e w))
         = map (release_named position (entry_ids e)) (store w)).
    { destruct e as [u | us]; simpl.
      - destruct (release_store u w) as [Hr Hs]. split; [ exact Hr | ].
        rewrite Hs. apply store_released_unique. exact Hnd.
      - apply release_each. exact Hnd. }
    destruct Hstep as [Hr Hs].
    destruct (release_entry release e w) as [w1 | ex w1]; simpl in Hr, Hs;
      [ | discriminate ].
    destruct (IH w1) as [Hr' Hs'].
    { rewrite Hs, release_named_ids. exact Hnd. }
    split; [ exact Hr' | ].
    rewrite Hs', Hs, map_map. apply map_ext. intros row.
    apply release_named_app.
Qed.

End Release_all.

(** X4. With unique vehicle ids, the loops of [update_order_status] over
    [vehicles_in_order], the list already read from the order, never raise
    and release exactly the vehicles that the list names, whether the records
    are nested in lists or not: each such row becomes free with its remaining
    capacities back at its maxima -- and, when the new status is delivered,
    is moved to the delivery location -- while every other row is left as it
    is.  Any other status leaves the store alone. *)
Theorem order_release_releases_named
    (new_status delivery_location : string) (vehicles_in_order : list Entry)
    (w : Desk) :
  NoDup (map Vehicle_ID (store w)) ->
  let r := update_order_status_vehicles new_status delivery_location
             vehicles_in_order w in
  raised r = None
  /\ store (state r)
     = if String.eqb new_status "delivered"
       then map (release_named (Some delivery_location) (named vehicles_in_order))
                (store w)
       else if String.eqb new_status "canceled"
       then map (release_named None (named vehicles_in_order)) (store w)
       else store w.
Proof.
  intros Hnd r. subst r. unfold update_order_status_vehicles.
  destruct (String.eqb new_status "delivered").
  - exact (release_entries (Some delivery_location)
             (fun e => update_vehicle_status e delivery_location)
             (fun e w' => update_vehicle_status_store e delivery_location w')
             vehicles_in_order w Hnd).
  - destruct (String.eqb new_status "canceled").
    + exact (release_entries None reset_vehicle_status
               reset_vehicle_status_store vehicles_in_order w Hnd).
    + split; reflexivity.
Qed.

Lemma order_release_releases_named_witness :
  let w := mkDesk [mkVehicle "T1" "Truck" (kg 3000) 100 (kg 2998) 99 "Oslo/Norway" "in_use";
                   Scenario.bike] [] in
  let r := update_order_status_vehicles "delivered" "Lund/Sweden"
             [Nested [mkUpdate "T1" "Truck" "in_use" (kg 2998) 99]] w in
  raised r = None
  /\ store (state r)
     = [mkVehicle "T1" "Truck" (kg 3000) 100 (kg 3000) 100 "Lund/Sweden" "free";
        Scenario.bike].
Proof.
  intros w.
  apply (order_release_releases_named "delivered" "Lund/Sweden"
           [Nested [mkUpdate "T1" "Truck" "in_use" (kg 2998) 99]] w).
  repeat constructor; simpl; intuition discriminate.
Defined.

(** ** The well-formed fleet and the operations that keep it *)

(** A vehicle is either in use, or free with all its capacity. *)
Definition settled (row : Vehicle) : Prop :=
  Status row = "in_use"
  \/ (Status row = "free"
      /\ Remaining_Capacity_Weight row = Max_Capacity_Weight row
      /\ Remaining_Capacity_Item_Count row = Max_Capacity_Item_Count row).

Definition fleet_ok (rows : list Vehicle) : Prop :=
  NoDup (map Vehicle_ID rows) /\ Forall in_range rows /\ Forall settled rows.

(** Where a record comes from: a vehicle of the list visited that was not
    skipped, of which it bears the id and the type; and it says in_use. *)
Definition record_from (vs : list Vehicle) (u : Update) : Prop :=
  upd_Status u = "in_use"
  /\ exists v, In v vs /\ skipped v = false
               /\ upd_Vehicle_ID u = Vehicle_ID v /\ upd_Type u = Vehicle_Type v.

Lemma vehicles_loop_record_from (items : list Item) (all vs : list Vehicle)
    (fr : Frame) (ls : list Line) :
  incl vs all ->
  Forall (record_from all) (updates fr) ->
  Forall (record_from all)
         (updates (fst (state (vehicles_loop items vs fr ls)))).
Proof.
  intros Hincl H.
  pose (B := fun (vs' : list Vehicle) (f : Frame) (_ : list Line) =>
               Forall (record_from all) (updates f) /\ incl vs' all).
  pose (I := fun (v : Vehicle) (vs' : list Vehicle) (f : Frame) (l : list Line) =>
               B vs' f l /\ In v all /\ skipped v = false).
  destruct (vehicles_loop_invariant items B I) with (vs := vs) (fr := fr) (ls := ls)
    as [vs' [Hfin _]]; unfold B, I in *.
  - intros v rest f l [H1 H2] _ _. split; [ exact H1 | ].
    intros x Hx. apply H2. right. exact Hx.
  - intros v rest f l [H1 H2] _ Hsk. split; [ split | split ].
    + exact H1.
    + intros x Hx. apply H2. right. exact Hx.
    + apply H2. left. reflexivity.
    + exact Hsk.
  - intros v rest f pre line post r [[H1 H2] [Hv Hsk]] Hcase.
    destruct Hcase; simpl; try (split; [ split | split ]; assumption).
    subst. simpl. split; [ split | split ]; try assumption.
    apply Forall_app. split; [ exact H1 | ].
    constructor; [ | constructor ].
    split; [ reflexivity | ]. exists v. simpl. auto.
  - intros v rest f l [HB _]. exact HB.
  - split; assumption.
  - exact Hfin.
Qed.

Lemma select_vehicle_record_from (rows : list Vehicle) (items : list Item)
    (total_weight : Py.float) (item_count : Z) (lines : list Line) :
  Forall (record_from rows)
    (updates (fst (state (select_vehicle rows items total_weight item_count
                            lines)))).
Proof.
  pose proof (vehicles_loop_record_from items (sort_vehicles rows)
                (sort_vehicles rows)
                (initial_frame rows total_weight item_count) lines
                (incl_refl _) (Forall_nil _)) as H.
  assert (H' : Forall (record_from rows)
                 (updates (fst (state (vehicles_loop items (sort_vehicles rows)
                    (initial_frame rows total_weight item_count) lines))))).
  { eapply Forall_impl; [ | exact H ].
    intros u [Hs [v [Hv Hrest]]]. split; [ exact Hs | ].
    exists v. split; [ apply sort_vehicles_incl; exact Hv | exact Hrest ]. }
  destruct (select_vehicle_state rows items total_weight item_count lines)
    as [_ [E | E]]; rewrite E; [ exact H' | ].
  destruct (report_fields (fst (state (vehicles_loop items (sort_vehicles rows)
              (initial_frame rows total_weight item_count) lines))))
    as [_ [_ [Eu _]]].
  rewrite Eu. exact H'.
Qed.

(** The part of well-formedness that an allocation keeps: the weights that
    [select_vehicle] writes are differences of floats, which need not stay
    between 0 and the maximum. *)
Definition fleet_counts_ok (rows : list Vehicle) : Prop :=
  NoDup (map Vehicle_ID rows)
  /\ Forall items_in_range rows /\ Forall settled rows.

Lemma fleet_ok_counts (rows : list Vehicle) : fleet_ok rows -> fleet_counts_ok rows.
Proof.
  intros [Hnd [Hrange Hset]]. split; [ exact Hnd | split; [ | exact Hset ] ].
  eapply Forall_impl; [ | exact Hrange ]. exact in_range_items.
Qed.

(** X5. [select_vehicle] keeps the fleet well formed as far as ids, item
    counts and statuses go: if the vehicle ids are unique and every vehicle
    has its remaining item count between 0 and its maximum and is either in
    use or free with all its capacity, the same holds of the store it leaves,
    whether it returns or raises. *)
Theorem select_vehicle_keeps_fleet
    (rows : list Vehicle) (items : list Item) (total_weight : Py.float)
    (item_count : Z) (lines : list Line) :
  fleet_counts_ok rows ->
  fleet_counts_ok (vehicle_db (fst (state (select_vehicle rows items total_weight
                                             item_count lines)))).
Proof.
  intros [Hnd [Hrange Hset]].
  pose proof (select_vehicle_store rows items total_weight item_count lines) as Hdb.
  pose proof (select_vehicle_record_from rows items total_weight item_count lines)
    as Hrec.
  simpl in Hdb.
  split; [ | split ].
  - rewrite Hdb, map_map.
    rewrite (map_ext _ Vehicle_ID (apply_last_id _)). exact Hnd.
  - apply (select_vehicle_items_in_range rows items total_weight item_count lines
             Hnd Hrange).
  - rewrite Hdb. rewrite Forall_forall in *. intros row' Hrow'.
    apply in_map_iff in Hrow'. destruct Hrow' as [row [E Hrow]]. subst row'.
    unfold apply_last, last_update_for.
    destruct (find _ (rev _)) as [u | ] eqn:Hf; [ | apply Hset; exact Hrow ].
    apply find_some in Hf. destruct Hf as [Hu _]. apply in_rev in Hu.
    left. simpl. apply (Hrec u Hu).
Qed.

Lemma select_vehicle_keeps_fleet_witness :
  fleet_counts_ok (vehicle_db (fst (state (select_vehicle Scenario.fleet
                     Scenario.catalog (kg 6) 3 [mkLine "I1" 3])))).
Proof.
  apply (select_vehicle_keeps_fleet Scenario.fleet Scenario.catalog (kg 6) 3
           [mkLine "I1" 3]).
  split; [ | split ].
  - repeat constructor; simpl; intuition discriminate.
  - repeat constructor; simpl; lia.
  - repeat constructor; right; repeat split.
Defined.

Lemma release_row_ok (position : option string) (row : Vehicle) :
  in_range row -> in_range (release_row position row) /\ settled (release_row position row).
Proof.
  intros [A [B [C D]]]. split.
  - unfold in_range, release_row, released_as. simpl.
    split; [ exact (leb_trans _ _ _ A B) | ].
    split; [ apply leb_refl; apply (leb_not_nan _ _ B) | lia ].
  - right. repeat split.
Qed.

Lemma release_named_keeps_fleet (position : option string) (ids : list string)
    (rows : list Vehicle) :
  fleet_ok rows -> fleet_ok (map (release_named position ids) rows).
Proof.
  intros [Hnd [Hrange Hset]]. split; [ | split ].
  - rewrite release_named_ids. exact Hnd.
  - rewrite Forall_forall in *. intros row' Hrow'.
    apply in_map_iff in Hrow'. destruct Hrow' as [row [E Hrow]]. subst row'.
    unfold release_named. destruct (existsb _ ids); [ | auto ].
    apply release_row_ok. auto.
  - rewrite Forall_forall in *. intros row' Hrow'.
    apply in_map_iff in Hrow'. destruct Hrow' as [row [E Hrow]]. subst row'.
    unfold release_named. destruct (existsb _ ids); [ | auto ].
    apply release_row_ok. auto.
Qed.

Lemma order_release_store (new_status delivery_location : string)
    (vehicles_in_order : list Entry) (w : Desk) :
  NoDup (map Vehicle_ID (store w)) ->
  store (state (update_order_status_vehicles new_status delivery_location
                  vehicles_in_order w))
  = if String.eqb new_status "delivered"
    then map (release_named (Some delivery_location) (named vehicles_in_order))
             (store w)
    else if String.eqb new_status "canceled"
    then map (release_named None (named vehicles_in_order)) (store w)
    else store w.
Proof.
  intros Hnd. unfold update_order_status_vehicles.
  destruct (String.eqb new_status "delivered").
  - exact (proj2 (release_entries (Some delivery_location)
             (fun e => update_vehicle_status e delivery_location)
             (fun e w' => update_vehicle_status_store e delivery_location w')
             vehicles_in_order w Hnd)).
  - destruct (String.eqb new_status "canceled"); [ | reflexivity ].
    exact (proj2 (release_entries None reset_vehicle_status
                    reset_vehicle_status_store vehicles_in_order w Hnd)).
Qed.

(** X6. Marking an order delivered, canceled or anything else keeps the fleet
    well formed: unique ids, every vehicle within its capacities, and either
    in use or free with all its capacity. *)
Theorem order_release_keeps_fleet
    (new_status delivery_location : string) (vehicles_in_order : list Entry)
    (w : Desk) :
  fleet_ok (store w) ->
  fleet_ok (store (state (update_order_status_vehicles new_status
                            delivery_location vehicles_in_order w))).
Proof.
  intros Hok. rewrite order_release_store by apply Hok.
  destruct (String.eqb new_status "delivered");
    [ apply release_named_keeps_fleet; exact Hok | ].
  destruct (String.eqb new_status "canceled");
    [ apply release_named_keeps_fleet; exact Hok | exact Hok ].
Qed.

Lemma order_release_keeps_fleet_witness :
  fleet_ok (store (state (update_order_status_vehicles "canceled" "Lund/Sweden"
      [Nested [mkUpdate "T1" "Truck" "in_use" (kg 2998) 99]]
      (mkDesk [mkVehicle "T1" "Truck" (kg 3000) 100 (kg 2998) 99 "Oslo/Norway" "in_use"]
              [])))).
Proof.
  apply (order_release_keeps_fleet "canceled" "Lund/Sweden").
  split; [ | split ].
  - repeat constructor; simpl; intuition discriminate.
  - repeat constructor; in_range_holds.
  - constructor; [ left; reflexivity | constructor ].
Defined.

Lemma fleet_ok_add (rows : list Vehicle) (v : Vehicle) :
  fleet_ok rows -> ~ In (Vehicle_ID v) (map Vehicle_ID rows) ->
  in_range v -> settled v ->
  fleet_ok (Store.add_vehicle rows v).
Proof.
  intros [Hnd [Hrange Hset]] Hfresh Hv Hs.
  unfold Store.add_vehicle, Store.add_data. split; [ | split ].
  - rewrite map_app. simpl.
    apply NoDup_app; [ exact Hnd | repeat constructor; simpl; tauto | ].
    intros x Hx [E | []]. subst x. contradiction.
  - apply Forall_app. split; [ exact Hrange | ].
    constructor; [ exact Hv | constructor ].
  - apply Forall_app. split; [ exact Hset | ].
    constructor; [ exact Hs | constructor ].
Qed.

(** X7. A bike, truck or ship added under an id that no vehicle bears keeps
    the fleet well formed, and the new vehicle is one the allocator will not
    skip. *)
Theorem add_vehicles_keep_fleet (rows : list Vehicle)
    (vehicle_id city country : string) :
  fleet_ok rows ->
  ~ In vehicle_id (map Vehicle_ID rows) ->
  (fleet_ok (add_bike rows vehicle_id city country)
   /\ fleet_ok (add_truck rows vehicle_id city country)
   /\ fleet_ok (add_ship rows vehicle_id city country))
  /\ (forall added,
        In added [add_bike rows vehicle_id city country;
                  add_truck rows vehicle_id city country;
                  add_ship rows vehicle_id city country] ->
        exists v, added = rows ++ [v] /\ Vehicle_ID v = vehicle_id
                  /\ skipped v = false).
Proof.
  intros Hok Hfresh. split.
  - unfold add_bike, add_truck, add_ship.
    repeat split;
      (apply fleet_ok_add;
       [ exact Hok | exact Hfresh
       | in_range_holds
       | right; repeat split ]).
  - intros added [E | [E | [E | []]]]; subst added;
      eexists; (split; [ reflexivity | split; [ reflexivity | ] ]);
      vm_compute; reflexivity.
Qed.

Lemma add_vehicles_keep_fleet_witness :
  fleet_ok (add_bike [] "B1234" "Oslo" "Norway")
  /\ fleet_ok (add_truck [] "B1234" "Oslo" "Norway")
  /\ fleet_ok (add_ship [] "B1234" "Oslo" "Norway").
Proof.
  apply (add_vehicles_keep_fleet [] "B1234" "Oslo" "Norway").
  - repeat split; constructor.
  - simpl. tauto.
Defined.

(** Dropping rows keeps the ids unique. *)
Lemma kept_ids_unique (keep : Vehicle -> bool) (rows : list Vehicle) :
  NoDup (map Vehicle_ID rows) -> NoDup (map Vehicle_ID (filter keep rows)).
Proof.
  intros Hnd. induction rows as [ | row rest IH ]; simpl; [ constructor | ].
  simpl in Hnd. inversion Hnd as [ | y l' Hnin Hnd' ]; subst.
  destruct (keep row); simpl; [ | apply IH; exact Hnd' ].
  constructor; [ | apply IH; exact Hnd' ].
  intros Hin. apply Hnin. apply in_map_iff in Hin.
  destruct Hin as [a [E Ha]]. apply filter_In in Ha.
  apply in_map_iff. exists a. tauto.
Qed.

Lemma fleet_ok_filter (p : Vehicle -> bool) (rows : list Vehicle) :
  fleet_ok rows -> fleet_ok (filter p rows).
Proof.
  intros [Hnd [Hrange Hset]]. split; [ | split ].
  - apply kept_ids_unique. exact Hnd.
  - rewrite Forall_forall in *. intros v Hv. apply filter_In in Hv. apply Hrange, Hv.
  - rewrite Forall_forall in *. intros v Hv. apply filter_In in Hv. apply Hset, Hv.
Qed.

Lemma remove_vehicles_store (rows : list Vehicle) (vid : string) :
  fst (remove_vehicles rows vid)
  = match Store.find_vehicle_by_id rows vid with
    | Some vehicle =>
        if String.eqb (Status vehicle) "in_use" then rows
        else filter (fun row => negb (has_id vid row)) rows
    | None => rows
    end.
Proof.
  unfold remove_vehicles, Store.find_vehicle_by_id.
  destruct rows as [ | row0 rest ]; [ reflexivity | ].
  set (rows := row0 :: rest).
  destruct (find _ rows) as [v | ]; [ | reflexivity ].
  destruct (String.eqb (Status v) "in_use"); [ reflexivity | ].
  unfold Store.remove_vehicle.
  pose proof (store_remove_data_fst rows vid) as Hf.
  destruct (Store.remove_data rows vid) as [rows' b]; simpl in Hf. subst rows'.
  destruct b; reflexivity.
Qed.

(** X8. With a well-formed fleet, [remove_vehicles] never removes a vehicle
    that is in use, nor any vehicle bearing another id than the one entered;
    a vehicle that bears the id and is not in use is removed, so that the id
    is not found afterwards; and the fleet stays well formed. *)
Theorem remove_vehicles_spares_in_use (rows : list Vehicle) (vid : string) :
  fleet_ok rows ->
  let rows' := fst (remove_vehicles rows vid) in
  fleet_ok rows'
  /\ incl rows' rows
  /\ (forall v, In v rows -> Status v = "in_use" \/ Vehicle_ID v <> vid ->
                In v rows')
  /\ (forall v, In v rows -> Vehicle_ID v = vid -> Status v <> "in_use" ->
                Store.find_vehicle_by_id rows' vid = None).
Proof.
  intros Hok rows'. subst rows'. rewrite remove_vehicles_store.
  destruct Hok as [Hnd [Hrange Hset]].
  assert (Hok : fleet_ok rows) by (split; [ | split ]; assumption).
  destruct (Store.find_vehicle_by_id rows vid) as [found | ] eqn:Hf.
  - pose proof Hf as Hf'. apply find_some in Hf'. destruct Hf' as [Hfound Hid].
    apply String.eqb_eq in Hid.
    assert (Hsame : forall v, In v rows -> Vehicle_ID v = vid -> v = found).
    { intros v Hv E. apply (NoDup_map_eq Vehicle_ID rows); try assumption.
      congruence. }
    destruct (String.eqb (Status found) "in_use") eqn:Hst.
    + apply String.eqb_eq in Hst.
      split; [ exact Hok | ]. split; [ apply incl_refl | ].
      split; [ auto | ].
      intros v Hv E Hfree. rewrite (Hsame v Hv E) in Hfree. contradiction.
    + split; [ apply fleet_ok_filter; exact Hok | ].
      split; [ intros v Hv; apply filter_In in Hv; apply Hv | ].
      split.
      * intros v Hv [Hin_use | Hne].
        -- apply filter_In. split; [ exact Hv | ].
           unfold has_id. destruct (String.eqb (Vehicle_ID v) vid) eqn:E;
             [ | reflexivity ].
           apply String.eqb_eq in E. rewrite (Hsame v Hv E) in Hin_use.
           apply String.eqb_neq in Hst. contradiction.
        -- apply filter_In. split; [ exact Hv | ].
           unfold has_id. apply String.eqb_neq in Hne. rewrite Hne. reflexivity.
      * intros v Hv E Hfree. apply find_has_id_None. intros Hin.
        apply in_map_iff in Hin. destruct Hin as [row [Er Hrow]].
        apply filter_In in Hrow. destruct Hrow as [_ Hn].
        unfold has_id in Hn. rewrite Er, String.eqb_refl in Hn. discriminate.
  - split; [ exact Hok | ]. split; [ apply incl_refl | ].
    split; [ auto | ].
    intros v Hv E _. exfalso. apply find_has_id_None in Hf. apply Hf.
    rewrite <- E. apply in_map. exact Hv.
Qed.

Lemma remove_vehicles_spares_in_use_witness :
  let rows := [mkVehicle "T1" "Truck" (kg 3000) 100 (kg 2998) 99 "Oslo/Norway" "in_use";
               Scenario.bike] in
  let rows' := fst (remove_vehicles rows "T1") in
  fleet_ok rows'
  /\ incl rows' rows
  /\ (forall v, In v rows -> Status v = "in_use" \/ Vehicle_ID v <> "T1" ->
                In v rows')
  /\ (forall v, In v rows -> Vehicle_ID v = "T1" -> Status v <> "in_use" ->
                Store.find_vehicle_by_id rows' "T1" = None).
Proof.
  intros rows.
  apply (remove_vehicles_spares_in_use rows "T1").
  split; [ | split ].
  - repeat constructor; simpl; intuition discriminate.
  - repeat constructor; in_range_holds.
  - constructor; [ left; reflexivity | ].
    constructor; [ right; repeat split | constructor ].
Defined.

(** ** Allocating, then canceling *)

(** The store after the order holding [vehicles_in_order] is canceled. *)
Definition canceled_store (vehicles_in_order : list Entry) (rows : list Vehicle)
  : list Vehicle :=
  store (state (update_order_status_vehicles "canceled" ""
                  vehicles_in_order (mkDesk rows []))).

Lemma canceled_store_eq (es : list Entry) (rows : list Vehicle) :
  NoDup (map Vehicle_ID rows) ->
  canceled_store es rows = map (release_named None (named es)) rows.
Proof.
  intros Hnd. unfold canceled_store.
  rewrite order_release_store by exact Hnd. reflexivity.
Qed.

Lemma existsb_has_id_row (row : Vehicle) (ids : list string) :
  existsb (fun vid => has_id vid row) ids = true <-> In (Vehicle_ID row) ids.
Proof.
  rewrite existsb_exists. unfold has_id. split.
  - intros [vid [Hin E]]. apply String.eqb_eq in E. congruence.
  - intros H. exists (Vehicle_ID row). split; [ exact H | apply String.eqb_refl ].
Qed.

Lemma release_row_settled_free (row : Vehicle) :
  settled row -> Status row <> "in_use" -> release_row None row = row.
Proof.
  intros [Hin | [Hfree [Hw Hi]]] Hne; [ contradiction | ].
  destruct row; simpl in *. unfold release_row, released_as. simpl.
  congruence.
Qed.

Lemma not_skipped_not_in_use (v : Vehicle) :
  skipped v = false -> Status v <> "in_use".
Proof.
  unfold skipped. intros H E. rewrite E in H.
  rewrite orb_true_r in H. discriminate.
Qed.

(** The rows of a well-formed fleet after an allocation and the cancellation
    of what the order then holds: as after the cancellation alone. *)
Lemma cancel_after_select (rows : list Vehicle) (items : list Item)
    (total_weight : Py.float) (item_count : Z) (lines : list Line) (ids : list string) :
  fleet_ok rows ->
  let fr := fst (state (select_vehicle rows items total_weight item_count lines)) in
  map (release_named None (ids ++ map upd_Vehicle_ID (updates fr))) (vehicle_db fr)
  = map (release_named None ids) rows.
Proof.
  intros [Hnd [Hrange Hset]] fr.
  pose proof (select_vehicle_store rows items total_weight item_count lines) as Hdb.
  pose proof (select_vehicle_record_from rows items total_weight item_count lines)
    as Hrec.
  simpl in Hdb. fold fr in Hdb, Hrec. rewrite Hdb, map_map.
  apply map_ext_in. intros row Hrow.
  rewrite Forall_forall in Hset, Hrec.
  unfold apply_last.
  destruct (last_update_for (Vehicle_ID row) (updates fr)) as [u | ] eqn:Hlast.
  - (* the row was loaded: it was free with all its capacity *)
    unfold last_update_for in Hlast. apply find_some in Hlast.
    destruct Hlast as [Hu Eid]. apply in_rev in Hu. apply String.eqb_eq in Eid.
    destruct (Hrec u Hu) as [_ [v [Hv [Hsk [Ev Et]]]]].
    assert (v = row).
    { apply (NoDup_map_eq Vehicle_ID rows); try assumption. congruence. }
    subst v.
    pose proof (release_row_settled_free row (Hset row Hrow)
                  (not_skipped_not_in_use row Hsk)) as Hfree.
    assert (Hloaded : release_named None (ids ++ map upd_Vehicle_ID (updates fr))
                        (row_update u row) = row).
    { unfold release_named.
      assert (Hex : existsb (fun vid => has_id vid (row_update u row))
                      (ids ++ map upd_Vehicle_ID (updates fr)) = true).
      { apply existsb_has_id_row. apply in_or_app. right. simpl.
        apply in_map. exact Hu. }
      rewrite Hex. rewrite <- Hfree at 2.
      unfold release_row, released_as. simpl. rewrite Eid, Et. reflexivity. }
    rewrite Hloaded. unfold release_named.
    destruct (existsb _ ids); [ symmetry; exact Hfree | reflexivity ].
  - (* the row was not loaded *)
    apply last_update_for_None in Hlast.
    unfold release_named. rewrite existsb_app.
    assert (Hex : existsb (fun vid => has_id vid row)
                    (map upd_Vehicle_ID (updates fr)) = false).
    { destruct (existsb _ (map upd_Vehicle_ID (updates fr))) eqn:E;
        [ | reflexivity ].
      apply existsb_has_id_row in E. contradiction. }
    rewrite Hex, orb_false_r. reflexivity.
Qed.

(** X9. Canceling undoes allocating.  Take a well-formed fleet [rows] and an
    order that holds the list [order_vehicles].  If [add_item_to_order]
    allocates further items for the order and [select_vehicle] returns, then
    canceling the order afterwards leaves the store exactly as canceling it
    before the allocation would have; in particular, for a new order, the
    store is back to [rows]. *)
Theorem cancel_undoes_allocation
    (rows : list Vehicle) (items : list Item) (order_items : list Order_item)
    (order_vehicles : list Entry) :
  fleet_ok rows ->
  let r := fst (allocate_order_items rows items order_items order_vehicles) in
  let order_vehicles' :=
    snd (allocate_order_items rows items order_items order_vehicles) in
  raised r = None ->
  canceled_store order_vehicles' (vehicle_db (fst (state r)))
  = canceled_store order_vehicles rows
  /\ (order_vehicles = [] ->
      canceled_store order_vehicles' (vehicle_db (fst (state r))) = rows).
Proof.
  intros Hok r order_vehicles' Hr.
  assert (Hmain : canceled_store order_vehicles' (vehicle_db (fst (state r)))
                  = canceled_store order_vehicles rows).
  { subst r order_vehicles'. unfold allocate_order_items in *.
    set (sel := select_vehicle rows items
                  (sum_float (map oi_Weight order_items))
                  (sum_int (map oi_Quantity order_items))
                  (map (fun item => {| Item_ID := oi_Item_ID item;
                                       Quantity := oi_Quantity item |})
                       order_items)) in *.
    assert (Hsel : fst (match returned sel with
                        | Some (u :: us) => (sel, order_vehicles ++ [Nested (u :: us)])
                        | _ => (sel, order_vehicles)
                        end) = sel)
      by (destruct (returned sel) as [[ | u us] | ]; reflexivity).
    rewrite Hsel in *.
    pose proof (returned_of_ok sel Hr) as Hret.
    assert (Hnamed : named (snd (match returned sel with
                        | Some (u :: us) => (sel, order_vehicles ++ [Nested (u :: us)])
                        | _ => (sel, order_vehicles)
                        end))
                     = named order_vehicles
                       ++ map upd_Vehicle_ID (updates (fst (state sel)))).
    { rewrite Hret. destruct (updates (fst (state sel))) as [ | u us ]; simpl.
      - rewrite app_nil_r. reflexivity.
      - unfold named. rewrite flat_map_app. simpl. rewrite app_nil_r. reflexivity. }
    assert (Hnd' : NoDup (map Vehicle_ID (vehicle_db (fst (state sel))))).
    { unfold sel. rewrite select_vehicle_store, map_map.
      rewrite (map_ext _ Vehicle_ID (apply_last_id _)). apply Hok. }
    rewrite canceled_store_eq by exact Hnd'.
    rewrite canceled_store_eq by apply Hok.
    rewrite Hnamed. apply cancel_after_select. exact Hok. }
  split; [ exact Hmain | ].
  intros E. rewrite Hmain, E. reflexivity.
Qed.

Lemma cancel_undoes_allocation_witness :
  exists order_items,
    choose_items Scenario.catalog [("I1", 3); ("I9", 1); ("I2", 2)] = Val order_items
    /\ let a := allocate_order_items Scenario.fleet Scenario.catalog order_items [] in
       raised (fst a) = None
       /\ snd a <> []
       /\ vehicle_db (fst (state (fst a))) <> Scenario.fleet
       /\ canceled_store (snd a) (vehicle_db (fst (state (fst a)))) = Scenario.fleet.
Proof.
  eexists. split; [ vm_compute; reflexivity | ].
  intros a.
  assert (Hok : fleet_ok Scenario.fleet).
  { split; [ | split ].
    - repeat constructor; simpl; intuition discriminate.
    - repeat constructor; in_range_holds.
    - constructor; [ right; repeat split | ].
      constructor; [ right; repeat split | constructor ]. }
  assert (Hr : raised (fst a) = None) by (vm_compute; reflexivity).
  split; [ exact Hr | ].
  split; [ vm_compute; discriminate | ].
  split; [ vm_compute; discriminate | ].
  exact (proj2 (cancel_undoes_allocation Scenario.fleet Scenario.catalog
                  _ [] Hok Hr) eq_refl).
Defined.

(** ** The counters of [select_vehicle] and the request lines *)

(** The order's item counter and the lines lose the same units. *)
Definition in_step (ci : Z) (fr : Frame) (ls : list Line) : Prop :=
  remaining_items fr - total_quantity ls = ci.

Lemma vehicles_loop_in_step (items : list Item) (vs : list Vehicle) (fr : Frame)
    (ls : list Line) (ci : Z) :
  in_step ci fr ls ->
  in_step ci (fst (state (vehicles_loop items vs fr ls)))
             (snd (state (vehicles_loop items vs fr ls))).
Proof.
  intros H.
  destruct (vehicles_loop_invariant items
              (fun _ => in_step ci) (fun _ _ => in_step ci))
    with (vs := vs) (fr := fr) (ls := ls) as [vs' Hfin]; auto.
  intros v rest f pre line post r Hi Hcase.
  load_cases Hcase; simpl; try exact Hi;
    try subst fr1; unfold in_step in *; simpl;
    rewrite total_quantity_take; lia.
Qed.

Lemma select_vehicle_in_step (rows : list Vehicle) (items : list Item)
    (total_weight : Py.float) (item_count : Z) (lines : list Line) (ci : Z) :
  in_step ci (initial_frame rows total_weight item_count) lines ->
  let s := state (select_vehicle rows items total_weight item_count lines) in
  in_step ci (fst s) (snd s).
Proof.
  intros H s.
  pose proof (vehicles_loop_in_step items (sort_vehicles rows) _ _ _ H) as Hi.
  destruct (select_vehicle_state rows items total_weight item_count lines)
    as [E1 [E2 | E2]]; fold s in E1, E2; unfold in_step; rewrite E1, E2.
  - exact Hi.
  - destruct (report_fields (fst (state (vehicles_loop items (sort_vehicles rows)
                (initial_frame rows total_weight item_count) lines))))
      as [_ [Ei _]].
    rewrite Ei. exact Hi.
Qed.

(** X10. Whatever the input, [select_vehicle] takes from the order's item
    counter exactly the units it takes from the request lines: the counter
    minus what the lines still ask for is the same at the end as at the
    start, whether it returns or raises. *)
Theorem counters_follow_lines
    (rows : list Vehicle) (items : list Item) (total_weight : Py.float)
    (item_count : Z) (lines : list Line) :
  let s := state (select_vehicle rows items total_weight item_count lines) in
  remaining_items (fst s) - total_quantity (snd s)
  = item_count - total_quantity lines.
Proof.
  intros s.
  apply (select_vehicle_in_step rows items total_weight item_count lines
           (item_count - total_quantity lines)).
  reflexivity.
Qed.

(** ** The call made by [add_item_to_order] *)

Lemma sum_int_sumZ (l : list Z) : sum_int l = sumZ l.
Proof.
  unfold sum_int.
  assert (H : forall a, fold_left Z.add l a = a + sumZ l).
  { induction l as [ | x l IH ]; intros a; simpl; [ lia | rewrite IH; lia ]. }
  rewrite H. lia.
Qed.

(** The request lines built from [order_items]. *)
Definition lines_of (order_items : list Order_item) : list Line :=
  map (fun item => {| Item_ID := oi_Item_ID item; Quantity := oi_Quantity item |})
      order_items.

Lemma choose_items_cons (items : list Item) (item_choice : string) (quantity : Z)
    (rest : list (string * Z)) (order_items : list Order_item) :
  choose_items items ((item_choice, quantity) :: rest) = Val order_items ->
  (find_item_by_id items item_choice = None
   /\ choose_items items rest = Val order_items)
  \/ exists selected_item item_weight tail,
       find_item_by_id items item_choice = Some selected_item
       /\ Py.int_mul quantity (Weight selected_item) = Val item_weight
       /\ choose_items items rest = Val tail
       /\ order_items = {| oi_Item_ID := ID selected_item;
                           oi_Quantity := quantity;
                           oi_Weight := item_weight;
                           oi_Price_per_kg := Price_per_kg selected_item |} :: tail.
Proof.
  intros H. cbn [choose_items] in H.
  destruct (find_item_by_id items item_choice) as [it | ];
    [ | left; split; [ reflexivity | exact H ] ].
  destruct (Py.int_mul quantity (Weight it)) as [w | e] eqn:Hw;
    [ | discriminate H ].
  destruct (choose_items items rest) as [tail | e]; [ | discriminate H ].
  cbn [Py.bind] in H. injection H as H. right. exists it, w, tail.
  repeat split; [ exact Hw | symmetry; exact H ].
Qed.

Lemma choose_items_totals (items : list Item) (choices : list (string * Z))
    (order_items : list Order_item) :
  choose_items items choices = Val order_items ->
  sum_int (map oi_Quantity order_items) = total_quantity (lines_of order_items).
Proof.
  intros _. rewrite sum_int_sumZ. unfold total_quantity, lines_of.
  rewrite map_map. reflexivity.
Qed.

Lemma choose_items_positive (items : list Item) (choices : list (string * Z))
    (order_items : list Order_item) :
  Forall (fun c => 0 < snd c) choices ->
  choose_items items choices = Val order_items ->
  Forall (fun l => 0 <= Quantity l) (lines_of order_items).
Proof.
  unfold lines_of. intros Hpos. revert order_items.
  induction Hpos as [ | [choice q] rest Hq _ IH ]; intros order_items H.
  - simpl in H. injection H as H. subst. constructor.
  - apply choose_items_cons in H.
    destruct H as [[_ H] | [it [w [tail [_ [_ [H E]]]]]]]; [ exact (IH _ H) | ].
    subst order_items. simpl. constructor; [ simpl in *; lia | exact (IH _ H) ].
Qed.

Lemma vehicles_loop_quantities (items : list Item) (vs : list Vehicle)
    (fr : Frame) (ls : list Line) :
  Forall (fun l => 0 <= Quantity l) ls ->
  Forall (fun l => 0 <= Quantity l)
         (snd (state (vehicles_loop items vs fr ls))).
Proof.
  intros H.
  destruct (vehicles_loop_invariant items
              (fun _ _ l => Forall (fun x => 0 <= Quantity x) l)
              (fun _ _ _ l => Forall (fun x => 0 <= Quantity x) l))
    with (vs := vs) (fr := fr) (ls := ls) as [vs' Hfin]; auto.
  intros v rest f pre line post r Hall Hcase.
  apply Forall_app in Hall. destruct Hall as [Hpre Hrest].
  inversion Hrest as [ | x l Hline Hpost ]; subst.
  apply Forall_app. split; [ exact Hpre | ].
  constructor; [ | exact Hpost ].
  load_cases Hcase; simpl; try exact Hline;
    destruct (loadable_le_capacity _ _ _ _ Hn) as [Hq _]; lia.
Qed.

Lemma sumZ_positive (l : list Z) :
  Forall (fun x => 0 <= x) l -> (0 < sumZ l <-> Exists (fun x => 0 < x) l).
Proof.
  induction 1 as [ | x l Hx Hl IH ]; simpl.
  - split; [ lia | intros H; inversion H ].
  - assert (Hs : 0 <= sumZ l).
    { clear IH. induction Hl; simpl; lia. }
    split.
    + intros H. destruct (Z.lt_ge_cases 0 x) as [Hp | Hz].
      * left. exact Hp.
      * right. apply IH. lia.
    + intros H. inversion H as [y l' Hp | y l' He]; subst; [ lia | ].
      apply IH in He. lia.
Qed.

(** X11. In the call that [add_item_to_order] makes -- the items found in the
    catalog for the choices entered, with positive quantities, and the totals
    it computes from them -- if [select_vehicle] returns, the order's item
    counter is at the end the number of units that the request lines still
    ask for, and the not-enough-capacity message is printed exactly when some
    request line is left with units to load. *)
Theorem order_shortfall_is_unallocated_units
    (rows : list Vehicle) (items : list Item) (choices : list (string * Z))
    (order_items : list Order_item) (order_vehicles : list Entry) :
  Forall (fun c => 0 < snd c) choices ->
  choose_items items choices = Val order_items ->
  let r := fst (allocate_order_items rows items order_items order_vehicles) in
  raised r = None ->
  remaining_items (fst (state r)) = total_quantity (snd (state r))
  /\ (In NotEnoughCapacity (stdout (fst (state r)))
      <-> Exists (fun l => 0 < Quantity l) (snd (state r))).
Proof.
  intros Hpos Hchosen r Hr.
  assert (Er : r = select_vehicle rows items
                     (sum_float (map oi_Weight order_items))
                     (sum_int (map oi_Quantity order_items))
                     (lines_of order_items)).
  { subst r. unfold allocate_order_items. fold (lines_of order_items).
    destruct (returned _) as [[ | u us] | ]; reflexivity. }
  pose proof (choose_items_totals items choices order_items Hchosen) as Ti.
  pose proof (select_vehicle_in_step rows items
                (sum_float (map oi_Weight order_items))
                (sum_int (map oi_Quantity order_items))
                (lines_of order_items) 0) as Hstep.
  simpl in Hstep. rewrite <- Er in Hstep.
  assert (Hri : remaining_items (fst (state r)) = total_quantity (snd (state r))).
  { unfold in_step in Hstep. simpl in Hstep. specialize (Hstep ltac:(lia)). lia. }
  split; [ exact Hri | ].
  rewrite Er in Hr.
  pose proof (shortfall_printed_iff _ _ _ _ _ Hr) as [Hprint Hshort].
  simpl in Hprint, Hshort. rewrite <- Er in Hprint, Hshort.
  assert (Hq : Forall (fun l => 0 <= Quantity l) (snd (state r))).
  { rewrite Er.
    destruct (select_vehicle_state rows items
                (sum_float (map oi_Weight order_items))
                (sum_int (map oi_Quantity order_items)) (lines_of order_items))
      as [E1 _].
    rewrite E1. apply vehicles_loop_quantities.
    apply (choose_items_positive items choices); assumption. }
  assert (Hiff : 0 < total_quantity (snd (state r))
                 <-> Exists (fun l => 0 < Quantity l) (snd (state r))).
  { unfold total_quantity. rewrite sumZ_positive.
    - rewrite Exists_map. reflexivity.
    - rewrite Forall_map. exact Hq. }
  rewrite <- Hiff, <- Hri. split; [ exact Hshort | ].
  intros H. destruct (Hprint H) as [loads E]. rewrite E.
  apply in_or_app. right. left. reflexivity.
Qed.

Lemma order_shortfall_is_unallocated_units_witness :
  exists order_items,
    choose_items Scenario.catalog [("I1", 3)] = Val order_items
    /\ let r := fst (allocate_order_items [Scenario.bike] Scenario.catalog
                       order_items []) in
       remaining_items (fst (state r)) = total_quantity (snd (state r))
       /\ (In NotEnoughCapacity (stdout (fst (state r)))
           <-> Exists (fun l => 0 < Quantity l) (snd (state r))).
Proof.
  eexists. split; [ vm_compute; reflexivity | ].
  apply (order_shortfall_is_unallocated_units [Scenario.bike] Scenario.catalog
           [("I1", 3)] _ []).
  - repeat constructor.
  - vm_compute. reflexivity.
  - vm_compute. reflexivity.
Defined.

(** ** Bikes first, then trucks, then ships *)

(** A row with the type and the maxima that [add_bike], [add_truck] or
    [add_ship] writes. *)
Definition made (v : Vehicle) : Prop :=
  (Vehicle_Type v = "Bike" /\ Max_Capacity_Item_Count v = 2
   /\ Max_Capacity_Weight v = kg 10)
  \/ (Vehicle_Type v = "Truck" /\ Max_Capacity_Item_Count v = 100
      /\ Max_Capacity_Weight v = kg 3000)
  \/ (Vehicle_Type v = "Ship" /\ Max_Capacity_Item_Count v = 10000
      /\ Max_Capacity_Weight v = kg 100000).

Lemma made_comparable (v : Vehicle) : made v -> comparable v.
Proof.
  unfold comparable.
  intros [[_ [_ W]] | [[_ [_ W]] | [_ [_ W]]]]; rewrite W; vm_compute; reflexivity.
Qed.

Definition of_type (vehicle_type : string) (v : Vehicle) : bool :=
  String.eqb (Vehicle_Type v) vehicle_type.

Lemma made_key_le (x y : Vehicle) :
  made x -> made y -> key_le x y ->
  (of_type "Truck" x = true -> of_type "Bike" y = false)
  /\ (of_type "Ship" x = true -> of_type "Bike" y = false
                                 /\ of_type "Truck" y = false).
Proof.
  unfold of_type. intros Hx Hy Hle.
  apply key_le_spec in Hle; [ | apply made_comparable; assumption .. ].
  destruct Hx as [[Tx [Ix Wx]] | [[Tx [Ix Wx]] | [Tx [Ix Wx]]]];
  destruct Hy as [[Ty [Iy Wy]] | [[Ty [Iy Wy]] | [Ty [Iy Wy]]]];
    rewrite Tx, Ty; simpl; repeat split; intros; try discriminate;
    try reflexivity; exfalso; destruct Hle as [Hlt | [Heq _]]; lia.
Qed.

Lemma made_one_type (v : Vehicle) :
  made v ->
  (of_type "Bike" v = true /\ of_type "Truck" v = false /\ of_type "Ship" v = false)
  \/ (of_type "Bike" v = false /\ of_type "Truck" v = true /\ of_type "Ship" v = false)
  \/ (of_type "Bike" v = false /\ of_type "Truck" v = false /\ of_type "Ship" v = true).
Proof.
  unfold of_type.
  intros [[T _] | [[T _] | [T _]]]; rewrite T; simpl; auto.
Qed.

Lemma filter_none {A : Type} (p : A -> bool) (l : list A) :
  Forall (fun x => p x = false) l -> filter p l = [].
Proof.
  induction 1 as [ | x l Hx _ IH ]; simpl; [ reflexivity | ].
  rewrite Hx. exact IH.
Qed.

Lemma filter_all {A : Type} (p : A -> bool) (l : list A) :
  Forall (fun x => p x = true) l -> filter p l = l.
Proof.
  induction 1 as [ | x l Hx _ IH ]; simpl; [ reflexivity | ].
  rewrite Hx, IH. reflexivity.
Qed.

Lemma sorted_by_type (l : list Vehicle) :
  StronglySorted key_le l -> Forall made l ->
  l = filter (of_type "Bike") l ++ filter (of_type "Truck") l
      ++ filter (of_type "Ship") l.
Proof.
  induction 1 as [ | x l Hs IH Hall ]; intros Hmade; [ reflexivity | ].
  inversion Hmade as [ | x' l' Hx Hl ]; subst.
  specialize (IH Hl).
  assert (Hrel : Forall (fun y => made y /\ key_le x y) l).
  { rewrite Forall_forall in *. intros y Hy. split; auto. }
  simpl.
  destruct (made_one_type x Hx) as [[B [T S]] | [[B [T S]] | [B [T S]]]];
    rewrite B, T, S.
  - simpl. rewrite <- IH. reflexivity.
  - assert (Hb : filter (of_type "Bike") l = []).
    { apply filter_none. eapply Forall_impl; [ | exact Hrel ].
      intros y [Hy Hle]. exact (proj1 (made_key_le x y Hx Hy Hle) T). }
    rewrite Hb in *. simpl in *. rewrite <- IH. reflexivity.
  - assert (Hb : filter (of_type "Bike") l = []).
    { apply filter_none. eapply Forall_impl; [ | exact Hrel ].
      intros y [Hy Hle]. exact (proj1 (proj2 (made_key_le x y Hx Hy Hle) S)). }
    assert (Ht : filter (of_type "Truck") l = []).
    { apply filter_none. eapply Forall_impl; [ | exact Hrel ].
      intros y [Hy Hle]. exact (proj2 (proj2 (made_key_le x y Hx Hy Hle) S)). }
    rewrite Hb, Ht in *. simpl in *. rewrite <- IH. reflexivity.
Qed.

Lemma made_same_type_same_key (t : string) (x y : Vehicle) :
  made x -> made y -> of_type t x = true -> of_type t y = true ->
  key_lt y x = false.
Proof.
  unfold of_type. intros Hx Hy Tx Ty.
  apply String.eqb_eq in Tx, Ty. unfold key_lt.
  destruct Hx as [[Tx' [Ix Wx]] | [[Tx' [Ix Wx]] | [Tx' [Ix Wx]]]];
  destruct Hy as [[Ty' [Iy Wy]] | [[Ty' [Iy Wy]] | [Ty' [Iy Wy]]]];
    try (exfalso; congruence);
    rewrite Ix, Iy, Wx, Wy; vm_compute; reflexivity.
Qed.

(** X12. In a store whose rows have the types and maxima that [add_bike],
    [add_truck] and [add_ship] write, the order in which [select_vehicle]
    visits the vehicles is: all the bikes, then all the trucks, then all the
    ships, each group in the order of the store. *)
Theorem bikes_then_trucks_then_ships (rows : list Vehicle) :
  Forall made rows ->
  sort_vehicles rows
  = filter (of_type "Bike") rows ++ filter (of_type "Truck") rows
    ++ filter (of_type "Ship") rows.
Proof.
  intros Hmade.
  assert (Hcomp : Forall comparable rows)
    by (eapply Forall_impl; [ exact made_comparable | exact Hmade ]).
  assert (Hsorted : Forall made (sort_vehicles rows)).
  { rewrite Forall_forall in *. intros v Hv. apply Hmade.
    apply sort_vehicles_incl. exact Hv. }
  rewrite (sorted_by_type (sort_vehicles rows) (sort_vehicles_sorted rows Hcomp)
             Hsorted) at 1.
  rewrite !filter_sort_vehicles by exact Hcomp.
  assert (Hfix : forall t, sort_vehicles (filter (of_type t) rows)
                           = filter (of_type t) rows).
  { intros t. apply sort_vehicles_fixed. intros x y Hx Hy.
    apply filter_In in Hx, Hy. rewrite Forall_forall in Hmade.
    apply (made_same_type_same_key t); try tauto; apply Hmade; tauto. }
  rewrite !Hfix. reflexivity.
Qed.

Lemma bikes_then_trucks_then_ships_witness :
  let rows := add_bike (add_truck (add_ship (add_bike [] "B1" "Oslo" "Norway")
                                            "S1" "Oslo" "Norway")
                                  "T1" "Oslo" "Norway")
                       "B2" "Oslo" "Norway" in
  map Vehicle_ID (sort_vehicles rows) = ["B1"; "B2"; "T1"; "S1"].
Proof.
  intros rows.
  rewrite (bikes_then_trucks_then_ships rows); [ vm_compute; reflexivity | ].
  unfold rows, add_bike, add_truck, add_ship, Store.add_vehicle, Store.add_data.
  simpl.
  constructor; [ left; repeat split; reflexivity | ].
  constructor; [ right; right; repeat split; reflexivity | ].
  constructor; [ right; left; repeat split; reflexivity | ].
  constructor; [ left; repeat split; reflexivity | constructor ].
Defined.

(** ** The ids that [generate_unique_id] avoids *)

From Stdlib Require DecimalString.

(** A CSV file as [csv.DictReader] reads it: the names of its header line and
    the cells of each of its non-blank lines. *)
Record Csv_file : Type := mkCsv_file {
  fieldnames : list string;
  records : list (list string)
}.

(** The dictionary that [csv.DictReader] makes of a line: the header names
    paired with the cells, a name without a cell being given [None]. *)
Fixpoint dict_row (names : list string) (cells : list string)
  : list (string * option string) :=
  match names with
  | [] => []
  | name :: names' =>
      match cells with
      | [] => (name, None) :: dict_row names' []
      | cell :: cells' => (name, Some cell) :: dict_row names' cells'
      end
  end.

(** [row[key]] when [key in row]: the binding made last wins. *)
Definition dict_get (key : string) (row : list (string * option string))
  : option (option string) :=
  option_map snd (find (fun kv => String.eqb (fst kv) key) (rev row)).

(** [load_ids_from_csv(filename, id_column)], for a file that is read at the
    first encoding tried:
    [[row[id_column] for row in reader if id_column in row]]. *)
Definition load_ids_from_csv (file : Csv_file) (id_column : string)
  : list (option string) :=
  flat_map (fun cells =>
              match dict_get id_column (dict_row (fieldnames file) cells) with
              | Some v => [v]
              | None => []
              end)
           (records file).

(** [load_existing_ids]: the set is modelled by the list of what is put in it. *)
Definition load_existing_ids
    (user_db corporate_customer_db private_customer_db vehicle_db payment_db
       order_db : Csv_file) : list (option string) :=
  load_ids_from_csv user_db "ID"
  ++ load_ids_from_csv corporate_customer_db "ID"
  ++ load_ids_from_csv private_customer_db "ID"
  ++ load_ids_from_csv vehicle_db "ID"
  ++ load_ids_from_csv payment_db "ID"
  ++ load_ids_from_csv order_db "ID".

(** [unique_id not in existing_ids] *)
Definition not_in (unique_id : string) (existing_ids : list (option string))
  : bool :=
  negb (existsb (fun x => match x with
                          | Some s => String.eqb s unique_id
                          | None => false
                          end) existing_ids).

(** [generate_unique_id(id_type)], for the numbers that [random.randint]
    draws in turn: the first id that passes the test, [None] when none of the
    numbers given does. *)
Definition generate_unique_id (existing_ids : list (option string))
    (id_type : string) (draws : list Z) : option string :=
  find (fun unique_id => not_in unique_id existing_ids)
       (map (fun n => (id_type
                       ++ DecimalString.NilZero.string_of_int (Z.to_int n))%string)
            draws).

(** The header lines that [MyCSV] writes for the three files. *)
Definition Vehicle_DEFAULT_FIELDNAMES : list string :=
  ["Vehicle ID"; "Type"; "Max Capacity (Weight)"; "Max Capacity (Item Count)";
   "Remaining Capacity (Weight)"; "Remaining Capacity (Item Count)";
   "Current Position"; "Status"].

Definition Payment_DEFAULT_FIELDNAMES : list string :=
  ["Payment Method"; "Transaction ID"; "Currency"; "Amount"; "Payment Status";
   "Card Information"].

Definition Order_DEFAULT_FIELDNAMES : list string :=
  ["Order ID"; "Priority"; "Customer"; "Delivery Location"; "Payment Details";
   "Items"; "Total Weight"; "Order Status"; "Order Date"; "Delivery Date";
   "Vehicle"].

Lemma dict_row_keys (names cells : list string) :
  map fst (dict_row names cells) = names.
Proof.
  revert cells. induction names as [ | name names IH ]; intros cells;
    [ reflexivity | ].
  destruct cells as [ | cell cells ]; simpl; rewrite IH; reflexivity.
Qed.

Lemma dict_get_absent (key : string) (names cells : list string) :
  ~ In key names -> dict_get key (dict_row names cells) = None.
Proof.
  intros Hnin. unfold dict_get.
  destruct (find _ (rev (dict_row names cells))) as [[k v] | ] eqn:Hf;
    [ | reflexivity ].
  apply find_some in Hf. destruct Hf as [Hin E]. simpl in E.
  apply String.eqb_eq in E. subst k. exfalso. apply Hnin.
  rewrite <- (dict_row_keys names cells).
  apply in_rev in Hin. apply (in_map fst) in Hin. exact Hin.
Qed.

Lemma load_ids_absent_column (file : Csv_file) (id_column : string) :
  ~ In id_column (fieldnames file) -> load_ids_from_csv file id_column = [].
Proof.
  intros Hnin. unfold load_ids_from_csv.
  induction (records file) as [ | cells rest IH ]; [ reflexivity | ].
  simpl. rewrite dict_get_absent by exact Hnin. exact IH.
Qed.

(** X13. The vehicle, payment and order files, whose header lines have no
    column named 'ID', put nothing in the set of existing ids: that set is
    what the 'ID' column of the user and the two customer files holds, so the
    id that [generate_unique_id] returns does not depend on the vehicles,
    payments and orders stored -- an id that a vehicle already bears is
    not kept out. *)
Theorem existing_ids_ignore_vehicles
    (user_db corporate_customer_db private_customer_db vehicle_db payment_db
       order_db : Csv_file) (id_type : string) (draws : list Z) :
  fieldnames vehicle_db = Vehicle_DEFAULT_FIELDNAMES ->
  fieldnames payment_db = Payment_DEFAULT_FIELDNAMES ->
  fieldnames order_db = Order_DEFAULT_FIELDNAMES ->
  load_existing_ids user_db corporate_customer_db private_customer_db
                    vehicle_db payment_db order_db
  = load_ids_from_csv user_db "ID"
    ++ load_ids_from_csv corporate_customer_db "ID"
    ++ load_ids_from_csv private_customer_db "ID"
  /\ generate_unique_id
       (load_existing_ids user_db corporate_customer_db private_customer_db
                          vehicle_db payment_db order_db) id_type draws
     = generate_unique_id
         (load_ids_from_csv user_db "ID"
          ++ load_ids_from_csv corporate_customer_db "ID"
          ++ load_ids_from_csv private_customer_db "ID") id_type draws.
Proof.
  intros Hv Hp Ho.
  assert (E : load_existing_ids user_db corporate_customer_db private_customer_db
                vehicle_db payment_db order_db
              = load_ids_from_csv user_db "ID"
                ++ load_ids_from_csv corporate_customer_db "ID"
                ++ load_ids_from_csv private_customer_db "ID").
  { unfold load_existing_ids.
    rewrite (load_ids_absent_column vehicle_db "ID"),
            (load_ids_absent_column payment_db "ID"),
            (load_ids_absent_column order_db "ID").
    - rewrite !app_nil_r. reflexivity.
    - rewrite Ho. simpl. intuition discriminate.
    - rewrite Hp. simpl. intuition discriminate.
    - rewrite Hv. simpl. intuition discriminate. }
  split; [ exact E | rewrite E; reflexivity ].
Qed.

Lemma existing_ids_ignore_vehicles_witness :
  let user_db :=
    mkCsv_file ["ID"; "Full Name"; "Address"; "Mobile Number"; "Email"; "Password"]
               [["U1234"; "Mike Smith"; "St"; "0712345678"; "m@x.se"; "pw"]] in
  let empty names := mkCsv_file names [] in
  let vehicle_db :=
    mkCsv_file Vehicle_DEFAULT_FIELDNAMES
               [["B1234"; "Bike"; "10"; "2"; "10"; "2"; "Oslo/Norway"; "free"]] in
  generate_unique_id
    (load_existing_ids user_db (empty ["ID"]) (empty ["ID"]) vehicle_db
                       (empty Payment_DEFAULT_FIELDNAMES)
                       (empty Order_DEFAULT_FIELDNAMES)) "B" [1234]
  = Some "B1234"
  /\ generate_unique_id
       (load_existing_ids user_db (empty ["ID"]) (empty ["ID"]) vehicle_db
                          (empty Payment_DEFAULT_FIELDNAMES)
                          (empty Order_DEFAULT_FIELDNAMES)) "U" [1234; 1235]
     = Some "U1235".
Proof.
  intros user_db empty vehicle_db.
  split.
  - rewrite (proj2 (existing_ids_ignore_vehicles user_db (empty ["ID"])
                      (empty ["ID"]) vehicle_db
                      (empty Payment_DEFAULT_FIELDNAMES)
                      (empty Order_DEFAULT_FIELDNAMES) "B" [1234]
                      eq_refl eq_refl eq_refl)).
    reflexivity.
  - reflexivity.
Defined.

(** ** What an allocation never does to a vehicle *)

(** A load of some units of a catalog item: its weight is the product
    computed for them. *)
Definition load_from (items : list Item) (l : Z * Py.float) : Prop :=
  0 < fst l
  /\ exists item, In item items /\ Py.int_mul (fst l) (Weight item) = Val (snd l).

Lemma loads_on_from (rows : list Vehicle) (items : list Item) (us : list Update)
    (ms : list Msg) (vehicle_id : string) :
  ledger rows items us ms -> Forall (load_from items) (loads_on vehicle_id ms).
Proof.
  intros Hl. apply ledger_records_load in Hl.
  induction Hl as [ | m ms [vid [vt [n [item_id [item [w [E [Hn [Hin Hw]]]]]]]]] _ IH ];
    [ constructor | ].
  subst m. unfold loads_on. simpl.
  destruct (String.eqb vid vehicle_id); simpl; [ | exact IH ].
  constructor; [ | exact IH ].
  split; [ exact Hn | ]. exists item. split; assumption.
Qed.

Lemma units_from_nonneg (items : list Item) (loads : list (Z * Py.float)) :
  Forall (load_from items) loads -> 0 <= units loads.
Proof.
  unfold units. induction 1 as [ | l loads [Hn _] _ IH ]; simpl; lia.
Qed.

(** One row before and after an allocation: what identifies the vehicle is
    kept; the remaining capacities are those before less the loads put on the
    vehicle, the weights being subtracted in turn; and the row is untouched
    or in use. *)
Definition only_loaded (items : list Item) (before after : Vehicle) : Prop :=
  Vehicle_ID after = Vehicle_ID before
  /\ Vehicle_Type after = Vehicle_Type before
  /\ Max_Capacity_Weight after = Max_Capacity_Weight before
  /\ Max_Capacity_Item_Count after = Max_Capacity_Item_Count before
  /\ Current_Position after = Current_Position before
  /\ (exists loads,
        Forall (load_from items) loads
        /\ Remaining_Capacity_Weight after
           = less (Remaining_Capacity_Weight before) loads
        /\ Remaining_Capacity_Item_Count after
           = Remaining_Capacity_Item_Count before - units loads)
  /\ Remaining_Capacity_Item_Count after <= Remaining_Capacity_Item_Count before
  /\ (after = before \/ Status after = "in_use").

(** X14. With unique vehicle ids, [select_vehicle] adds, removes and reorders
    no row of the store, and in every row it leaves the id, the type, the
    maxima and the position as they were, never raises the remaining item
    count, leaves as remaining weight the one before less, in turn, the
    weight of each load put on the vehicle, and either leaves the row
    untouched or marks it in_use. *)
Theorem select_vehicle_only_loads
    (rows : list Vehicle) (items : list Item) (total_weight : Py.float)
    (item_count : Z) (lines : list Line) :
  NoDup (map Vehicle_ID rows) ->
  Forall2 (only_loaded items) rows
    (vehicle_db (fst (state (select_vehicle rows items total_weight item_count
                               lines)))).
Proof.
  intros Hnd.
  pose proof (select_vehicle_store rows items total_weight item_count lines) as Hdb.
  simpl in Hdb. rewrite Hdb.
  destruct (select_vehicle_booked rows items total_weight item_count lines Hnd)
    as [ms [_ [Hledger _]]].
  pose proof (select_vehicle_record_from rows items total_weight item_count lines)
    as Hfrom.
  set (us := updates (fst (state (select_vehicle rows items total_weight
                                    item_count lines)))) in *.
  clearbody us. clear Hdb.
  assert (Hall : forall row, In row rows ->
                             only_loaded items row (apply_last us row)).
  { intros row Hrow.
    destruct (ledger_cumulative rows items us ms Hnd Hledger row Hrow) as [Hi Hw].
    pose proof (loads_on_from rows items us ms (Vehicle_ID row) Hledger) as Hloads.
    pose proof (units_from_nonneg items _ Hloads) as Hunits.
    assert (Hkept : Vehicle_ID (apply_last us row) = Vehicle_ID row
                    /\ Vehicle_Type (apply_last us row) = Vehicle_Type row
                    /\ Max_Capacity_Weight (apply_last us row)
                       = Max_Capacity_Weight row
                    /\ Max_Capacity_Item_Count (apply_last us row)
                       = Max_Capacity_Item_Count row
                    /\ Current_Position (apply_last us row) = Current_Position row
                    /\ (apply_last us row = row
                        \/ Status (apply_last us row) = "in_use")).
    { unfold apply_last, last_update_for.
      destruct (find _ (rev us)) as [u | ] eqn:Hf;
        [ | repeat split; left; reflexivity ].
      apply find_some in Hf. destruct Hf as [Hu Eid].
      apply in_rev in Hu. apply String.eqb_eq in Eid.
      rewrite Forall_forall in Hfrom.
      destruct (Hfrom u Hu) as [Hst [v [Hv [_ [Ev Et]]]]].
      assert (v = row).
      { apply (NoDup_map_eq Vehicle_ID rows); try assumption. congruence. }
      subst v. simpl. repeat split; try assumption. right. exact Hst. }
    destruct Hkept as [K1 [K2 [K3 [K4 [K5 K6]]]]].
    unfold only_loaded.
    split; [ exact K1 | ]. split; [ exact K2 | ]. split; [ exact K3 | ].
    split; [ exact K4 | ]. split; [ exact K5 | ].
    split; [ exists (loads_on (Vehicle_ID row) ms); auto | ].
    split; [ lia | exact K6 ]. }
  clear Hnd Hledger Hfrom.
  induction rows as [ | row rest IH ]; simpl; constructor.
  - apply Hall. left. reflexivity.
  - apply IH. intros r Hr. apply Hall. right. exact Hr.
Qed.

Lemma select_vehicle_only_loads_witness :
  Forall2 (only_loaded Scenario.catalog) Scenario.fleet
    (vehicle_db (fst (state (select_vehicle Scenario.fleet Scenario.catalog
                               (kg 6) 3 [mkLine "I1" 3])))).
Proof.
  apply (select_vehicle_only_loads Scenario.fleet Scenario.catalog (kg 6) 3
           [mkLine "I1" 3]).
  repeat constructor; simpl; intuition discriminate.
Defined.

(** X15. Two allocations in a row never load the same vehicle: when
    [select_vehicle] is called again on the store that a first call left, no
    record of the second call names a vehicle that a record of the first
    names. *)
Theorem successive_allocations_share_no_vehicle
    (rows : list Vehicle) (items : list Item)
    (total_weight1 : Py.float) (item_count1 : Z) (lines1 : list Line)
    (total_weight2 : Py.float) (item_count2 : Z) (lines2 : list Line) :
  let fr1 := fst (state (select_vehicle rows items total_weight1 item_count1
                           lines1)) in
  let fr2 := fst (state (select_vehicle (vehicle_db fr1) items total_weight2
                           item_count2 lines2)) in
  forall u1 u2,
    In u1 (updates fr1) -> In u2 (updates fr2) ->
    upd_Vehicle_ID u1 <> upd_Vehicle_ID u2.
Proof.
  intros fr1 fr2 u1 u2 Hu1 Hu2 E.
  pose proof (select_vehicle_record_from (vehicle_db fr1) items total_weight2
                item_count2 lines2) as Hfrom2.
  pose proof (select_vehicle_record_from rows items total_weight1 item_count1
                lines1) as Hfrom1.
  pose proof (select_vehicle_store rows items total_weight1 item_count1 lines1)
    as Hdb.
  simpl in Hdb. fold fr1 in Hdb, Hfrom1. fold fr2 in Hfrom2.
  rewrite Forall_forall in Hfrom1, Hfrom2.
  destruct (Hfrom2 u2 Hu2) as [_ [v [Hv [Hsk [Ev _]]]]].
  rewrite Hdb in Hv. apply in_map_iff in Hv. destruct Hv as [row [Erow Hrow]].
  apply not_skipped_not_in_use in Hsk. apply Hsk.
  subst v. unfold apply_last in *.
  destruct (last_update_for (Vehicle_ID row) (updates fr1)) as [u | ] eqn:Hlast.
  - unfold last_update_for in Hlast. apply find_some in Hlast.
    destruct Hlast as [Hu _]. apply in_rev in Hu. simpl.
    apply (Hfrom1 u Hu).
  - exfalso. apply last_update_for_None in Hlast. apply Hlast.
    rewrite <- Ev, <- E. apply in_map. exact Hu1.
Qed.

(** ** Nothing to allocate *)

Lemma vehicles_loop_no_lines (items : list Item) :
  forall vs fr,
    observable (vehicles_loop items vs fr [])
    = observable (Ok (fr, @nil Line)).
Proof.
  induction vs as [ | v vs IH ]; intros fr; simpl; [ reflexivity | ].
  destruct (exhausted fr); [ reflexivity | ].
  destruct (skipped v); rewrite IH; reflexivity.
Qed.

Lemma vehicles_loop_all_skipped (items : list Item) (vs : list Vehicle)
    (fr : Frame) (ls : list Line) :
  Forall (fun v => skipped v = true) vs ->
  observable (vehicles_loop items vs fr ls) = observable (Ok (fr, ls)).
Proof.
  intros H. rewrite vehicles_loop_filter.
  rewrite filter_none; [ reflexivity | ].
  eapply Forall_impl; [ | exact H ].
  intros v Hv. unfold eligible. rewrite Hv. reflexivity.
Qed.

(** X16. When there is nothing to allocate -- every vehicle of the store is
    skipped (or the store is empty), or there is no request line, or both
    order totals are at most 0 -- [select_vehicle] raises nothing, returns
    the empty list, and leaves the store and the request lines as they were;
    it prints the not-enough-capacity message exactly when the item count
    asked for is positive. *)
Theorem nothing_to_allocate
    (rows : list Vehicle) (items : list Item) (total_weight : Py.float)
    (item_count : Z) (lines : list Line) :
  Forall (fun v => skipped v = true) rows
  \/ lines = []
  \/ (Py.leb total_weight Py.zero = true /\ item_count <= 0) ->
  let r := select_vehicle rows items total_weight item_count lines in
  raised r = None
  /\ returned r = Some []
  /\ vehicle_db (fst (state r)) = rows
  /\ snd (state r) = lines
  /\ stdout (fst (state r))
     = if 0 <? item_count then [NotEnoughCapacity] else [].
Proof.
  intros Hcase r.
  assert (Hobs : observable (vehicles_loop items (sort_vehicles rows)
                   (initial_frame rows total_weight item_count) lines)
                 = observable (Ok (initial_frame rows total_weight item_count,
                                   lines))).
  { destruct Hcase as [Hsk | [Hnil | [Hw Hi]]].
    - apply vehicles_loop_all_skipped.
      rewrite Forall_forall in *. intros v Hv. apply Hsk.
      apply sort_vehicles_incl. exact Hv.
    - subst lines. apply vehicles_loop_no_lines.
    - rewrite vehicles_loop_exhausted; [ reflexivity | ].
      unfold exhausted. simpl. apply andb_true_iff. split.
      + exact Hw.
      + apply Z.leb_le. exact Hi. }
  subst r. unfold select_vehicle.
  destruct (vehicles_loop items (sort_vehicles rows)
              (initial_frame rows total_weight item_count) lines)
    as [[fr ls] | e [fr ls]]; unfold observable in Hobs; simpl in Hobs;
    [ | discriminate ].
  injection Hobs as Ew Ei Eu Ed Eo El. subst ls. simpl.
  unfold report. rewrite Ei.
  destruct (0 <? item_count); simpl; rewrite Eu, Ed, Eo; auto.
Qed.

Lemma nothing_to_allocate_witness :
  let busy := mkVehicle "T1" "Truck" (kg 3000) 100 (kg 2998) 99 "Oslo/Norway" "in_use" in
  let r := select_vehicle [busy] Scenario.catalog (kg 2) 1 [mkLine "I1" 1] in
  raised r = None
  /\ returned r = Some []
  /\ vehicle_db (fst (state r)) = [busy]
  /\ snd (state r) = [mkLine "I1" 1]
  /\ stdout (fst (state r)) = if 0 <? 1 then [NotEnoughCapacity] else [].
Proof.
  intros busy.
  apply (nothing_to_allocate [busy] Scenario.catalog (kg 2) 1 [mkLine "I1" 1]).
  left. constructor; [ vm_compute; reflexivity | constructor ].
Defined.

Lemma remove_vehicle_removes_exactly_witness :
  let rows := [Scenario.bike; Scenario.truck] in
  raised (Store.remove_vehicle rows "B1") = None
  /\ state (Store.remove_vehicle rows "B1") = [Scenario.truck]
  /\ raised (Store.remove_vehicle rows "B9") = Some (ValueError "B9")
  /\ state (Store.remove_vehicle rows "B9") = rows.
Proof.
  intros rows.
  destruct (remove_vehicle_removes_exactly rows "B1") as [H1 [_ [H2 _]]].
  destruct (remove_vehicle_removes_exactly rows "B9") as [_ [H3 _]].
  split; [ apply H1; simpl; auto | ].
  split; [ rewrite H2; reflexivity | ].
  apply H3. discriminate.
Defined.

Lemma successive_allocations_share_no_vehicle_witness :
  let rows := [Scenario.bike; Scenario.truck] in
  let fr1 := fst (state (select_vehicle rows Scenario.catalog (kg 4) 2
                           [mkLine "I1" 2])) in
  let fr2 := fst (state (select_vehicle (vehicle_db fr1) Scenario.catalog (kg 2) 1
                           [mkLine "I1" 1])) in
  let u1 := mkUpdate "B1" "Bike" "in_use" (kg 6) 0 in
  let u2 := mkUpdate "T1" "Truck" "in_use" (kg 2998) 99 in
  In u1 (updates fr1) /\ In u2 (updates fr2)
  /\ upd_Vehicle_ID u1 <> upd_Vehicle_ID u2.
Proof.
  intros rows fr1 fr2 u1 u2.
  assert (H1 : In u1 (updates fr1)) by (vm_compute; left; reflexivity).
  assert (H2 : In u2 (updates fr2)) by (vm_compute; left; reflexivity).
  split; [ exact H1 | ]. split; [ exact H2 | ].
  exact (successive_allocations_share_no_vehicle rows Scenario.catalog
           (kg 4) 2 [mkLine "I1" 2] (kg 2) 1 [mkLine "I1" 1] u1 u2 H1 H2).
Defined.
